(** * sqlite-cdc: change capture and replication engine

    A shallow embedding of the parts of the Python package [sqlite_cdc]
    that its specification makes claims about:

    - [models/event.py], [models/audit.py], [models/position.py]
    - [core/audit_reader.py], [core/engine.py], [core/connection.py]
    - [core/initial_sync.py], [storage/checkpoint.py]
    - [utils/sql_parser.py], [utils/transformer.py]

    Python text is modelled as [string] (sequences of 8-bit characters);
    the builtins [str.strip], [str.upper], [int] and [str] are modelled
    on ASCII text.  Exceptions are modelled with the sum type [PyResult];
    mutable objects (the checkpoint store, the audit table, the reader's
    cursor) are modelled by explicit state passing. *)

From Stdlib Require Import ZArith String Ascii List Bool Lia.
From Stdlib Require Import DecimalString DecimalPos DecimalZ.
From stdpp Require Import gmap strings list fin_maps sorting.

Set Default Proof Using "Type".
#[local] Set Warnings "-register-all".
Local Open Scope Z_scope.

(* ===================================================================== *)
(** * Part I: definitions                                                 *)
(* ===================================================================== *)

(** ** Python exceptions and results *)

Inductive Exn : Type :=
| ValueError
| TypeError
| ValidationError
| JSONDecodeError
| RuntimeError
| DatabaseError (msg : string).

Inductive PyResult (A : Type) : Type :=
| Ok (a : A)
| Raise (e : Exn).
Arguments Ok {A} a.
Arguments Raise {A} e.

Definition bind {A B : Type} (r : PyResult A) (k : A → PyResult B) : PyResult B :=
  match r with
  | Ok a => k a
  | Raise e => Raise e
  end.

Notation "'let?' x ':=' r 'in' k" := (bind r (λ x, k))
  (at level 10, x pattern, r at level 100, k at level 200).

Definition is_ok {A : Type} (r : PyResult A) : bool :=
  match r with Ok _ => true | Raise _ => false end.

(** ** Python builtins on text *)

Module Py.

(** [str.isspace] on ASCII: TAB..CR, FS..US and the space. *)
Definition is_space (c : ascii) : bool :=
  let n := nat_of_ascii c in
  ((9 <=? n)%nat && (n <=? 13)%nat) || ((28 <=? n)%nat && (n <=? 32)%nat).

Fixpoint lstrip (s : string) : string :=
  match s with
  | EmptyString => EmptyString
  | String c s' => if is_space c then lstrip s' else s
  end.

Fixpoint rstrip (s : string) : string :=
  match s with
  | EmptyString => EmptyString
  | String c s' =>
      match rstrip s' with
      | EmptyString => if is_space c then EmptyString else String c EmptyString
      | r => String c r
      end
  end.

(** [s.strip()] *)
Definition strip (s : string) : string := rstrip (lstrip s).

Definition upper_char (c : ascii) : ascii :=
  let n := nat_of_ascii c in
  if ((97 <=? n)%nat && (n <=? 122)%nat) then ascii_of_nat (n - 32) else c.

(** [s.upper()] *)
Fixpoint upper (s : string) : string :=
  match s with
  | EmptyString => EmptyString
  | String c s' => String (upper_char c) (upper s')
  end.

(** [s.startswith(p)] *)
Definition startswith (s p : string) : bool := String.prefix p s.

(** [p in s] *)
Definition contains (p s : string) : bool :=
  match String.index 0 p s with Some _ => true | None => false end.

(** [s.find(p)]: [None] stands for -1. *)
Definition find (s p : string) : option nat := String.index 0 p s.

(** [s[n:]] *)
Fixpoint drop (n : nat) (s : string) : string :=
  match n, s with
  | O, _ => s
  | S n', String _ s' => drop n' s'
  | S _, EmptyString => EmptyString
  end.

(** [s[:n]] *)
Fixpoint take (n : nat) (s : string) : string :=
  match n, s with
  | S n', String c s' => String c (take n' s')
  | _, _ => EmptyString
  end.

(** [s.split(sep)] for a non-empty separator.  [skip] counts the
    characters of a separator occurrence still to be dropped, [cur] is
    the current piece. *)
Fixpoint split_aux (sep s : string) (skip : nat) (cur : string) : list string :=
  match s with
  | EmptyString => [cur]
  | String c s' =>
      match skip with
      | S k => split_aux sep s' k cur
      | O =>
          if String.prefix sep s
          then cur :: split_aux sep s' (String.length sep - 1) EmptyString
          else split_aux sep s' O (cur +:+ String c EmptyString)
      end
  end.

Definition split (s sep : string) : list string := split_aux sep s O EmptyString.

Definition mem_char (c : ascii) (chars : string) : bool :=
  existsb (Ascii.eqb c) (list_ascii_of_string chars).

Fixpoint lstrip_chars (chars s : string) : string :=
  match s with
  | EmptyString => EmptyString
  | String c s' => if mem_char c chars then lstrip_chars chars s' else s
  end.

Fixpoint rstrip_chars (chars s : string) : string :=
  match s with
  | EmptyString => EmptyString
  | String c s' =>
      match rstrip_chars chars s' with
      | EmptyString => if mem_char c chars then EmptyString else String c EmptyString
      | r => String c r
      end
  end.

(** [s.strip(chars)] *)
Definition strip_chars (s chars : string) : string :=
  rstrip_chars chars (lstrip_chars chars s).

(** [str(n)] for an integer. *)
Definition str_int (z : Z) : string := NilEmpty.string_of_int (Z.to_int z).

Definition digit_of (c : ascii) : option Z :=
  let n := nat_of_ascii c in
  if ((48 <=? n)%nat && (n <=? 57)%nat) then Some (Z.of_nat (n - 48)) else None.

(** Decimal digits with single underscores between digits, as [int]
    accepts them. [prev] tells whether the previous character was a
    digit. *)
Fixpoint digits (s : string) (acc : Z) (prev : bool) : option Z :=
  match s with
  | EmptyString => if prev then Some acc else None
  | String c s' =>
      match digit_of c with
      | Some d => digits s' (10 * acc + d) true
      | None =>
          if Ascii.eqb c "_" && prev then digits s' acc false else None
      end
  end.

(** [int(s)] for a string, base 10: surrounding whitespace, an optional
    sign, digits.  [None] stands for [ValueError]. *)
Definition int (s : string) : option Z :=
  match strip s with
  | String "-" s' => Z.opp <$> digits s' 0 false
  | String "+" s' => digits s' 0 false
  | s' => digits s' 0 false
  end.

End Py.

(** ** Data model: [models/event.py], [models/audit.py] *)

(** Python values that occur as SQL parameters, row fields and decoded
    JSON.  A [dict] is an association list in insertion order. *)
Inductive PyVal : Type :=
| VNone
| VBool (b : bool)
| VInt (z : Z)
| VFloat (repr : string)
| VStr (s : string)
| VList (l : list PyVal)
| VDict (d : list (string * PyVal)).

Definition Dict : Type := list (string * PyVal).

(** [class OperationType(str, Enum)] *)
Inductive OperationType : Type := INSERT | UPDATE | DELETE.

Definition OperationType_eqb (a b : OperationType) : bool :=
  match a, b with
  | INSERT, INSERT | UPDATE, UPDATE | DELETE, DELETE => true
  | _, _ => false
  end.

(** [operation.value] *)
Definition OperationType_value (o : OperationType) : string :=
  match o with INSERT => "INSERT" | UPDATE => "UPDATE" | DELETE => "DELETE" end.

(** [OperationType(text)]: the enum member with that value. *)
Definition OperationType_of_value (s : string) : option OperationType :=
  if String.eqb s "INSERT" then Some INSERT
  else if String.eqb s "UPDATE" then Some UPDATE
  else if String.eqb s "DELETE" then Some DELETE
  else None.

(** [row_id: Union[int, str]] *)
Inductive RowId : Type :=
| RInt (z : Z)
| RStr (s : string).

(** [str(row_id)], also the rendering of [row_id] inside an f-string. *)
Definition RowId_str (r : RowId) : string :=
  match r with
  | RInt z => Py.str_int z
  | RStr s => s
  end.

(** Timestamps are opaque to every claim; they are carried as text. *)
Definition datetime : Type := string.

Record ChangeEvent : Type := mkChangeEvent {
  event_id : string;
  audit_id : Z;
  timestamp : datetime;
  operation : OperationType;
  table_name : string;
  row_id : RowId;
  before_data : option Dict;
  after_data : option Dict
}.

(** [f"{audit_id}:{table_name}:{row_id}"] *)
Definition format_event_id (aid : Z) (table : string) (rid : RowId) : string :=
  Py.str_int aid +:+ ":" +:+ table +:+ ":" +:+ RowId_str rid.

Definition is_none {A : Type} (o : option A) : bool :=
  match o with None => true | Some _ => false end.

(** [ChangeEvent.validate_data_consistency] *)
Definition ChangeEvent_data_consistent
    (op : OperationType) (before after : option Dict) : bool :=
  match op with
  | INSERT => negb (is_none after)
  | DELETE => negb (is_none before)
  | UPDATE => negb (is_none before || is_none after)
  end.

(** The constructor [ChangeEvent(...)]: the field constraint
    [audit_id >= 0], then [validate_event_id], then
    [validate_data_consistency]. *)
Definition ChangeEvent_new (eid : string) (aid : Z) (ts : datetime)
    (op : OperationType) (table : string) (rid : RowId)
    (before after : option Dict) : PyResult ChangeEvent :=
  if negb (0 <=? aid) then Raise ValidationError
  else if negb (String.eqb eid (format_event_id aid table rid)) then Raise ValidationError
  else if negb (ChangeEvent_data_consistent op before after) then Raise ValidationError
  else Ok (mkChangeEvent eid aid ts op table rid before after).

(** An event object that exists: one the constructor accepts. *)
Definition ChangeEvent_valid (e : ChangeEvent) : Prop :=
  ChangeEvent_new (event_id e) (audit_id e) (timestamp e) (operation e)
    (table_name e) (row_id e) (before_data e) (after_data e) = Ok e.

Record AuditLog : Type := mkAuditLog {
  al_id : Z;
  al_table_name : string;
  al_operation : OperationType;
  al_row_id : option string;
  al_before_data : option Dict;
  al_after_data : option Dict;
  al_created_at : datetime;
  al_consumed_at : option datetime;
  al_retry_count : Z
}.

(** [AuditLog.validate_data_consistency]: unlike the event's validator
    it has no UPDATE case. *)
Definition AuditLog_data_consistent
    (op : OperationType) (before after : option Dict) : bool :=
  match op with
  | INSERT => negb (is_none after)
  | DELETE => negb (is_none before)
  | UPDATE => true
  end.

(** The constructor [AuditLog(...)]: [retry_count >= 0], then
    [validate_data_consistency]. *)
Definition AuditLog_new (id : Z) (table : string) (op : OperationType)
    (rid : option string) (before after : option Dict) (created : datetime)
    (consumed : option datetime) (retry : Z) : PyResult AuditLog :=
  if negb (0 <=? retry) then Raise ValidationError
  else if negb (AuditLog_data_consistent op before after) then Raise ValidationError
  else Ok (mkAuditLog id table op rid before after created consumed retry).

(** The [try: row_id = int(row_id) except (ValueError, TypeError): pass]
    block of [to_change_event]. *)
Definition try_int_row_id (text : string) : RowId :=
  match Py.int text with
  | Some z => RInt z
  | None => RStr text
  end.

(** [AuditLog.to_change_event] *)
Definition to_change_event (a : AuditLog) : PyResult ChangeEvent :=
  (* [self.row_id or ""] *)
  let row_id_text := match al_row_id a with
                     | Some s => s
                     | None => ""
                     end in
  let rid := try_int_row_id row_id_text in
  ChangeEvent_new (format_event_id (al_id a) (al_table_name a) rid)
    (al_id a) (al_created_at a) (al_operation a) (al_table_name a) rid
    (al_before_data a) (al_after_data a).

(** [AuditLog.from_change_event] *)
Definition from_change_event (e : ChangeEvent) : PyResult AuditLog :=
  let parts := Py.split (event_id e) ":" in
  match Py.int (hd EmptyString parts) with
  | None => Raise ValueError
  | Some aid =>
      AuditLog_new aid (table_name e) (operation e) (Some (RowId_str (row_id e)))
        (before_data e) (after_data e) (timestamp e) None 0
  end.

(** [SyncPosition] of [models/position.py]. *)
Record SyncPosition : Type := mkSyncPosition {
  source_db_path : string;
  target_name : string;
  last_audit_id : Z;
  last_processed_at : datetime;
  total_events : Z
}.

(** ** The audit table and its reader: [core/audit_reader.py] *)

(** A row of [_cdc_audit_log] without its key; the key is the
    [INTEGER PRIMARY KEY] column [id]. *)
Record AuditRow : Type := mkAuditRow {
  r_table_name : string;
  r_operation : string;
  r_row_id : option string;
  r_before_data : option string;
  r_after_data : option string;
  r_created_at : string;
  r_consumed_at : option string;
  r_retry_count : Z
}.

(** The source database as the reader sees it: the audit table keyed by
    [id], and whether statements on the connection succeed at all. *)
Record Source : Type := mkSource {
  audit_rows : gmap Z AuditRow;
  src_available : bool
}.

Definition id_le (x y : Z * AuditRow) : Prop := x.1 ≤ y.1.

#[global] Instance id_le_dec (x y : Z * AuditRow) : Decision (id_le x y).
Proof. unfold id_le. apply _. Defined.

Definition id_lt (x y : Z * AuditRow) : Prop := x.1 < y.1.

(** [LIMIT n] of SQLite: a negative bound means no bound. *)
Definition sql_limit {A : Type} (n : Z) (l : list A) : list A :=
  if n <? 0 then l else take (Z.to_nat n) l.

Definition unconsumed_after (last_id : Z) (x : Z * AuditRow) : Prop :=
  last_id < x.1 ∧ r_consumed_at x.2 = None.

#[global] Instance unconsumed_after_dec last_id x :
  Decision (unconsumed_after last_id x).
Proof. unfold unconsumed_after. apply _. Defined.

(** [SELECT ... FROM _cdc_audit_log WHERE id > ? AND consumed_at IS NULL
     ORDER BY id LIMIT ?] *)
Definition select_unconsumed (rows : gmap Z AuditRow) (last_id limit : Z)
    : list (Z * AuditRow) :=
  sql_limit limit
    (merge_sort id_le (filter (unconsumed_after last_id) (map_to_list rows))).

(** [AuditReader._fetch_unconsumed]: any exception gives the empty list. *)
Definition _fetch_unconsumed (src : Source) (last_id limit : Z)
    : list (Z * AuditRow) :=
  if src_available src then select_unconsumed (audit_rows src) last_id limit
  else [].

(** [UPDATE _cdc_audit_log SET consumed_at = ? WHERE id IN (...)] *)
Definition set_consumed (now : string) (ids : list Z) (rows : gmap Z AuditRow)
    : gmap Z AuditRow :=
  foldr (λ i m, alter (λ r, mkAuditRow (r_table_name r) (r_operation r)
                              (r_row_id r) (r_before_data r) (r_after_data r)
                              (r_created_at r) (Some now) (r_retry_count r)) i m)
        rows ids.

(** [AuditReader.mark_consumed] *)
Definition mark_consumed (now : string) (ids : list Z) (src : Source)
    : PyResult Source :=
  match ids with
  | [] => Ok src
  | _ =>
      if src_available src
      then Ok (mkSource (set_consumed now ids (audit_rows src)) true)
      else Raise (DatabaseError "mark_consumed_failed")
  end.

(** Whether the row with that id exists and has [consumed_at] set. *)
Definition is_consumed (src : Source) (i : Z) : bool :=
  match audit_rows src !! i with
  | Some r => negb (is_none (r_consumed_at r))
  | None => false
  end.

(** The row with every payload column that holds the text [s] set to
    NULL (used to state how malformed payloads are read). *)
Definition null_if (s : string) (o : option string) : option string :=
  match o with
  | Some s' => if String.eqb s' s then None else o
  | None => None
  end.

Definition null_payload (s : string) (r : AuditRow) : AuditRow :=
  mkAuditRow (r_table_name r) (r_operation r) (r_row_id r)
    (null_if s (r_before_data r)) (null_if s (r_after_data r))
    (r_created_at r) (r_consumed_at r) (r_retry_count r).

Record AuditReader : Type := mkAuditReader {
  rd_batch_size : Z;
  rd_running : bool;
  rd_last_audit_id : Z
}.

(** [AuditReader.start] *)
Definition reader_start (rd : AuditReader) (from_id : Z) : AuditReader :=
  mkAuditReader (rd_batch_size rd) true from_id.

(** [AuditReader.stop] *)
Definition reader_stop (rd : AuditReader) : AuditReader :=
  mkAuditReader (rd_batch_size rd) false (rd_last_audit_id rd).

Section Reader.

(** [json.loads] and [datetime.fromisoformat] of the Python library. *)
Variable json_loads : string → PyResult PyVal.
Variable fromisoformat : string → PyResult datetime.

(** The [if row[...]: try: ... = json.loads(...) except JSONDecodeError:
    pass] block: [None] for NULL, for the empty text and for malformed
    JSON; other exceptions propagate. *)
Definition load_payload (text : option string) : PyResult (option PyVal) :=
  match text with
  | None => Ok None
  | Some s =>
      if String.eqb s "" then Ok None
      else match json_loads s with
           | Ok v => Ok (Some v)
           | Raise JSONDecodeError => Ok None
           | Raise e => Raise e
           end
  end.

(** Validation of a field declared [Optional[Dict[str, Any]]]. *)
Definition validate_optional_dict (v : option PyVal) : PyResult (option Dict) :=
  match v with
  | None => Ok None
  | Some (VDict d) => Ok (Some d)
  | Some _ => Raise ValidationError
  end.

(** [AuditReader._row_to_audit_log] *)
Definition _row_to_audit_log (id : Z) (row : AuditRow) : PyResult AuditLog :=
  let? before := load_payload (r_before_data row) in
  let? after := load_payload (r_after_data row) in
  let? created := fromisoformat (r_created_at row) in
  match OperationType_of_value (r_operation row) with
  | None => Raise ValidationError
  | Some op =>
      let? before_d := validate_optional_dict before in
      let? after_d := validate_optional_dict after in
      AuditLog_new id (r_table_name row) op (r_row_id row) before_d after_d
        created None (r_retry_count row)
  end.

(** One turn of the [for row in rows] loop of [fetch_batch]. *)
Definition row_to_event (x : Z * AuditRow) : PyResult ChangeEvent :=
  let? audit_log := _row_to_audit_log x.1 x.2 in
  to_change_event audit_log.

(** The loop of [fetch_batch]: the events so far and the cursor; an
    exception leaves the cursor where the loop had brought it. *)
Fixpoint convert_rows (rows : list (Z * AuditRow)) (events : list ChangeEvent)
    (cursor : Z) : PyResult (list ChangeEvent) * Z :=
  match rows with
  | [] => (Ok events, cursor)
  | x :: rows' =>
      match row_to_event x with
      | Raise e => (Raise e, cursor)
      | Ok event =>
          convert_rows rows' (events ++ [event])
            (if cursor <? audit_id event then audit_id event else cursor)
      end
  end.

(** [AuditReader.fetch_batch] *)
Definition fetch_batch (src : Source) (rd : AuditReader)
    : PyResult (list ChangeEvent) * AuditReader :=
  if negb (rd_running rd) then (Ok [], rd)
  else
    let rows := _fetch_unconsumed src (rd_last_audit_id rd) (rd_batch_size rd) in
    match rows with
    | [] => (Ok [], rd)
    | _ =>
        let '(r, cursor) := convert_rows rows [] (rd_last_audit_id rd) in
        (r, mkAuditReader (rd_batch_size rd) (rd_running rd) cursor)
    end.

End Reader.

(** ** Configuration: [models/sync_config.py] *)

Inductive ConverterType : Type := LOWERCASE | UPPERCASE | TRIM | DEFAULT | TYPECAST.

Record FieldMapping : Type := mkFieldMapping {
  source_field : string;
  target_field : option string;
  converter : option ConverterType;
  converter_params : Dict
}.

Record TableMapping : Type := mkTableMapping {
  source_table : string;
  target_table : option string;
  field_mappings : list FieldMapping;
  filter_condition : option string;
  primary_key : string
}.

Record SyncConfig : Type := mkSyncConfig {
  cfg_db_path : string;
  cfg_targets : list string;
  cfg_mappings : list TableMapping;
  cfg_batch_size : Z
}.

(** [SyncConfig.get_table_mapping] *)
Definition get_table_mapping (cfg : SyncConfig) (table : string)
    : option TableMapping :=
  List.find (λ m, String.eqb (source_table m) table) (cfg_mappings cfg).

(** [d[k] = v] on a dict in insertion order. *)
Fixpoint dict_set {A : Type} (d : list (string * A)) (k : string) (v : A)
    : list (string * A) :=
  match d with
  | [] => [(k, v)]
  | (k', v') :: d' =>
      if String.eqb k' k then (k, v) :: d' else (k', v') :: dict_set d' k v
  end.

(** [x or y] on text: the empty text is false. *)
Definition str_or (x : option string) (y : string) : string :=
  match x with
  | Some s => if String.eqb s "" then y else s
  | None => y
  end.

(** ** The transformer: [utils/transformer.py] *)

Section Transformer.

(** [converters.convert]; every converter returns a value. *)
Variable convert : PyVal → ConverterType → Dict → PyVal.

(** [self._field_converters[f]]: the dict comprehension keeps the last
    mapping of a source field. *)
Definition field_converter (m : TableMapping) (f : string) : option FieldMapping :=
  foldl (λ acc fm, if String.eqb (source_field fm) f then Some fm else acc)
    None (field_mappings m).

(** [DataTransformer.transform] *)
Definition transform (m : TableMapping) (row : Dict) : Dict :=
  foldl (λ result kv,
           match field_converter m kv.1 with
           | Some fm =>
               let value := match converter fm with
                            | Some c => convert kv.2 c (converter_params fm)
                            | None => kv.2
                            end in
               dict_set result (str_or (target_field fm) kv.1) value
           | None => dict_set result kv.1 kv.2
           end)
    [] row.

(** [DataTransformer.transform_batch] *)
Definition transform_batch (m : TableMapping) (rows : list Dict) : list Dict :=
  transform m <$> rows.

(** [DataTransformer.get_target_table] *)
Definition get_target_table (m : TableMapping) : string :=
  str_or (target_table m) (source_table m).

End Transformer.

(** ** The checkpoint store: [storage/checkpoint.py] *)

(** The constructor [SyncPosition(...)] with its two [ge=0] constraints. *)
Definition SyncPosition_new (src tgt : string) (last : Z) (ts : datetime)
    (total : Z) : PyResult SyncPosition :=
  if negb (0 <=? last) || negb (0 <=? total) then Raise ValidationError
  else Ok (mkSyncPosition src tgt last ts total).

(** A row of [sync_positions] without its unique key
    [(source_db_path, target_name)]. *)
Record PositionRow : Type := mkPositionRow {
  p_last_audit_id : Z;
  p_total_events : Z;
  p_last_processed_at : datetime
}.

(** [CheckpointStore.save_position]: [INSERT OR REPLACE] on the unique
    key. *)
Definition save_position (store : gmap (string * string) PositionRow)
    (src tgt : string) (position : SyncPosition)
    : gmap (string * string) PositionRow :=
  <[(src, tgt) := mkPositionRow (last_audit_id position) (total_events position)
                    (last_processed_at position)]> store.

(** [CheckpointStore.load_position]: the zero position when absent. *)
Definition load_position (now : datetime)
    (store : gmap (string * string) PositionRow) (src tgt : string)
    : PyResult SyncPosition :=
  match store !! (src, tgt) with
  | Some row =>
      SyncPosition_new src tgt (p_last_audit_id row) (p_last_processed_at row)
        (p_total_events row)
  | None => SyncPosition_new src tgt 0 now 0
  end.

(** The stored cursor of a target, 0 when there is no row. *)
Definition stored_cursor (store : gmap (string * string) PositionRow)
    (src tgt : string) : Z :=
  match store !! (src, tgt) with
  | Some row => p_last_audit_id row
  | None => 0
  end.

(** ** The engine: [core/engine.py] *)

Inductive SyncState : Type := IDLE | RUNNING | PAUSED | ERROR | COMPLETED.

Record TableStats : Type := mkTableStats {
  ts_events : Z;
  ts_inserts : Z;
  ts_updates : Z;
  ts_deletes : Z
}.

Record SyncStatus : Type := mkSyncStatus {
  st_state : SyncState;
  st_total_events : Z;
  st_table_stats : gmap string TableStats;
  st_last_error : option Exn
}.

(** [SyncStatus.record_error] *)
Definition record_error (e : Exn) (st : SyncStatus) : SyncStatus :=
  mkSyncStatus ERROR (st_total_events st) (st_table_stats st) (Some e).

Definition count_event (e : ChangeEvent) (s : TableStats) : TableStats :=
  match operation e with
  | INSERT => mkTableStats (ts_events s) (ts_inserts s + 1) (ts_updates s) (ts_deletes s)
  | UPDATE => mkTableStats (ts_events s) (ts_inserts s) (ts_updates s + 1) (ts_deletes s)
  | DELETE => mkTableStats (ts_events s) (ts_inserts s) (ts_updates s) (ts_deletes s + 1)
  end.

(** The statistics block at the end of [_process_table_events]. *)
Definition update_stats (table : string) (events : list ChangeEvent)
    (st : SyncStatus) : SyncStatus :=
  let s0 := default (mkTableStats 0 0 0 0) (st_table_stats st !! table) in
  let s1 := mkTableStats (ts_events s0 + Z.of_nat (length events))
              (ts_inserts s0) (ts_updates s0) (ts_deletes s0) in
  mkSyncStatus (st_state st) (st_total_events st)
    (<[table := foldl (λ s e, count_event e s) s1 events]> (st_table_stats st))
    (st_last_error st).

(** [by_table.setdefault(event.table_name, []).append(event)] *)
Fixpoint group_add (groups : list (string * list ChangeEvent)) (e : ChangeEvent)
    : list (string * list ChangeEvent) :=
  match groups with
  | [] => [(table_name e, [e])]
  | (t, es) :: groups' =>
      if String.eqb t (table_name e) then (t, es ++ [e]) :: groups'
      else (t, es) :: group_add groups' e
  end.

Definition group_by_table (events : list ChangeEvent)
    : list (string * list ChangeEvent) :=
  foldl group_add [] events.

(** [max(ids)] of a non-empty list (0 stands for the error on []). *)
Definition py_max (ids : list Z) : Z :=
  match ids with
  | [] => 0
  | i :: ids' => foldl Z.max i ids'
  end.

Section Engine.

Variable json_loads : string → PyResult PyVal.
Variable fromisoformat : string → PyResult datetime.
Variable convert : PyVal → ConverterType → Dict → PyVal.

(** The targets: what a writer's [batch_upsert] and [delete] do to the
    world outside and whether they raise (after the writer's own retry
    loop), by target name. *)
Variable World : Type.
Variable batch_upsert : string → string → list Dict → World → PyResult unit * World.
Variable delete : string → string → RowId → World → PyResult unit * World.

(** The state that [SyncEngine] and [_run_incremental_sync] hold:
    the status, the checkpoint database, the reader, the targets'
    world, and the local list [consumed_ids]. *)
Record EngineState : Type := mkEngineState {
  eng_status : SyncStatus;
  eng_store : gmap (string * string) PositionRow;
  eng_reader : AuditReader;
  eng_world : World;
  eng_consumed_ids : list Z
}.

(** [asyncio.gather] with [return_exceptions=True]: every task runs;
    exceptions come back as results. *)
Fixpoint gather (tasks : list (World → PyResult unit * World)) (w : World)
    : list (PyResult unit) * World :=
  match tasks with
  | [] => ([], w)
  | task :: tasks' =>
      let '(r, w1) := task w in
      let '(rs, w2) := gather tasks' w1 in
      (r :: rs, w2)
  end.

(** The rows of the non-DELETE events: [event.after_data or {}],
    transformed. *)
Definition upsert_rows (m : TableMapping) (events : list ChangeEvent)
    : list Dict :=
  omap (λ e, match operation e with
             | DELETE => None
             | _ => Some (transform convert m (default [] (after_data e)))
             end) events.

(** [SyncEngine._process_table_events]; the results of both [gather]
    calls are dropped. *)
Definition _process_table_events (cfg : SyncConfig) (table : string)
    (events : list ChangeEvent) (s : EngineState) : EngineState :=
  match get_table_mapping cfg table with
  | None => s
  | Some m =>
      let target_table := get_target_table m in
      let rows := upsert_rows m events in
      let w1 := match rows with
                | [] => eng_world s
                | _ => (gather ((λ t, batch_upsert t target_table rows)
                                  <$> cfg_targets cfg) (eng_world s)).2
                end in
      let w2 := foldl (λ w e,
                         match operation e with
                         | DELETE =>
                             (gather ((λ t, delete t target_table (row_id e))
                                        <$> cfg_targets cfg) w).2
                         | _ => w
                         end) w1 events in
      mkEngineState (update_stats table events (eng_status s)) (eng_store s)
        (eng_reader s) w2 (eng_consumed_ids s)
  end.

(** One turn of the [for table_name, table_events in by_table.items()]
    loop: the table is processed, then its ids are appended to
    [consumed_ids]. *)
Definition process_group (cfg : SyncConfig) (s : EngineState)
    (g : string * list ChangeEvent) : EngineState :=
  let s' := _process_table_events cfg g.1 g.2 s in
  mkEngineState (eng_status s') (eng_store s') (eng_reader s')
    (eng_world s') (eng_consumed_ids s' ++ (audit_id <$> g.2)).

(** [SyncEngine._process_events] *)
Definition _process_events (cfg : SyncConfig) (events : list ChangeEvent)
    (s : EngineState) : EngineState :=
  let s1 := foldl (process_group cfg) s (group_by_table events) in
  let st := eng_status s1 in
  mkEngineState
    (mkSyncStatus (st_state st) (st_total_events st + Z.of_nat (length events))
       (st_table_stats st) (st_last_error st))
    (eng_store s1) (eng_reader s1) (eng_world s1) (eng_consumed_ids s1).

(** The [for target in self._targets] loop of [_save_checkpoints]. *)
Fixpoint save_targets (cfg : SyncConfig) (now : datetime) (max_id total : Z)
    (targets : list string) (store : gmap (string * string) PositionRow)
    : PyResult unit * gmap (string * string) PositionRow :=
  match targets with
  | [] => (Ok (), store)
  | t :: targets' =>
      match SyncPosition_new (cfg_db_path cfg) t max_id now total with
      | Raise e => (Raise e, store)
      | Ok position =>
          save_targets cfg now max_id total targets'
            (save_position store (cfg_db_path cfg) t position)
      end
  end.

(** [SyncEngine._save_checkpoints] *)
Definition _save_checkpoints (cfg : SyncConfig) (now : datetime)
    (audit_ids : list Z) (s : EngineState)
    : PyResult unit * gmap (string * string) PositionRow :=
  match audit_ids with
  | [] => (Ok (), eng_store s)
  | _ =>
      save_targets cfg now (py_max audit_ids) (st_total_events (eng_status s))
        (cfg_targets cfg) (eng_store s)
  end.

Definition with_reader (rd : AuditReader) (s : EngineState) : EngineState :=
  mkEngineState (eng_status s) (eng_store s) rd (eng_world s)
    (eng_consumed_ids s).

(** The [except Exception] branch of the consume loop. *)
Definition on_error (e : Exn) (s : EngineState) : EngineState :=
  mkEngineState (record_error e (eng_status s)) (eng_store s) (eng_reader s)
    (eng_world s) (eng_consumed_ids s).

(** One turn of the consume loop of [_run_incremental_sync] at time
    [now].  The source database is read and handed back as it was: the
    loop issues no statement that writes to it. *)
Definition iteration (cfg : SyncConfig) (now : datetime) (src : Source)
    (s : EngineState) : Source * EngineState :=
  let '(r, rd) := fetch_batch json_loads fromisoformat src (eng_reader s) in
  let s0 := with_reader rd s in
  match r with
  | Raise e => (src, on_error e s0)
  | Ok [] => (src, s0)
  | Ok events =>
      let s1 := _process_events cfg events s0 in
      match eng_consumed_ids s1 with
      | [] => (src, s1)
      | ids =>
          let '(r2, store) := _save_checkpoints cfg now ids s1 in
          let s2 := mkEngineState (eng_status s1) store (eng_reader s1)
                      (eng_world s1) ids in
          match r2 with
          | Raise e => (src, on_error e s2)
          | Ok _ =>
              (src, mkEngineState (eng_status s2) store (eng_reader s2)
                      (eng_world s2) [])
          end
      end
  end.

(** The part of [_run_incremental_sync] before the loop: the targets'
    positions are loaded, the reader starts at their minimum (0 without
    targets). *)
Definition load_positions (cfg : SyncConfig) (now : datetime)
    (store : gmap (string * string) PositionRow) (targets : list string)
    : PyResult (list (string * Z)) :=
  foldl (λ acc t,
           let? start_positions := acc in
           let? pos := load_position now store (cfg_db_path cfg) t in
           Ok (dict_set start_positions t (last_audit_id pos)))
    (Ok []) targets.

(** [min(values)] of a non-empty list. *)
Definition py_min (l : list Z) : Z :=
  match l with
  | [] => 0
  | i :: l' => foldl Z.min i l'
  end.

Definition start_id (positions : list (string * Z)) : Z :=
  match positions with
  | [] => 0
  | _ => py_min positions.*2
  end.

Definition start_incremental (cfg : SyncConfig) (now : datetime)
    (st : SyncStatus) (store : gmap (string * string) PositionRow)
    (w : World) : PyResult EngineState :=
  let? positions := load_positions cfg now store (cfg_targets cfg) in
  Ok (mkEngineState st store
        (reader_start (mkAuditReader (cfg_batch_size cfg) false 0)
           (start_id positions))
        w []).

(** The consume loop run for one turn per element of [turns]: the time
    and the state of the source database at that turn. *)
Definition consume_loop (cfg : SyncConfig) (turns : list (datetime * Source))
    (s : EngineState) : EngineState :=
  foldl (λ s turn, (iteration cfg turn.1 turn.2 s).2) s turns.

(** [SyncEngine._run_incremental_sync] *)
Definition _run_incremental_sync (cfg : SyncConfig) (now : datetime)
    (turns : list (datetime * Source)) (st : SyncStatus)
    (store : gmap (string * string) PositionRow) (w : World)
    : PyResult EngineState :=
  let? s := start_incremental cfg now st store w in
  let s' := consume_loop cfg turns s in
  Ok (with_reader (reader_stop (eng_reader s')) s').

End Engine.

(** ** The SQL classifier: [utils/sql_parser.py] *)

(** [parse_operation] *)
Definition parse_operation (sql : string) : option OperationType :=
  let sql_upper := Py.upper (Py.strip sql) in
  if Py.startswith sql_upper "INSERT" then Some INSERT
  else if Py.startswith sql_upper "UPDATE" then Some UPDATE
  else if Py.startswith sql_upper "DELETE" then Some DELETE
  else None.

(** *** Tokens of the [sqlparse] library

    What [extract_table_name] looks at in a token: [is_whitespace],
    [value] (which is also [str(token)]), whether [ttype] is [Keyword],
    [Name] or anything else (a sub-type, or [None] for a group), the
    class, and the result of [get_real_name()]. *)

Inductive TokenType : Type := TKeyword | TName | TOtherType.

Inductive TokenClass : Type := CToken | CIdentifier | CFunction | COtherGroup.

Record Token : Type := mkToken {
  tok_is_whitespace : bool;
  tok_value : string;
  tok_ttype : TokenType;
  tok_class : TokenClass;
  tok_real_name : option string
}.

(** The characters of [strip] in the source: double quote, single quote
    and backtick. *)
Definition quote_chars : string := String (ascii_of_nat 34) "'`".

(** [str(name) if name else None] *)
Definition name_or_none (name : option string) : option string :=
  match name with
  | Some n => if String.eqb n "" then None else Some n
  | None => None
  end.

(** The name taken from the token that follows INTO. *)
Definition insert_name (token : Token) : option string :=
  match tok_class token with
  | CIdentifier | CFunction =>
      let raw := tok_value token in
      let raw := if Py.contains "(" raw
                 then Py.strip (hd EmptyString (Py.split raw "("))
                 else raw in
      Some (Py.strip_chars raw quote_chars)
  | _ => Some (Py.strip_chars (tok_value token) quote_chars)
  end.

(** The name taken from the token that follows UPDATE. *)
Definition update_name (token : Token) : option string :=
  match tok_class token with
  | CIdentifier => name_or_none (tok_real_name token)
  | _ => Some (Py.strip_chars (tok_value token) quote_chars)
  end.

(** The name taken from the token that follows FROM; any token that is
    neither an identifier nor of type [Name] or [Keyword] ends the loop
    without a name. *)
Definition delete_name (token : Token) : option string :=
  match tok_class token, tok_ttype token with
  | CIdentifier, _ => name_or_none (tok_real_name token)
  | _, (TName | TKeyword) => Some (Py.strip_chars (tok_value token) quote_chars)
  | _, _ => None
  end.

(** The test that sets the loop's flag, by operation. *)
Definition is_keyword_of (op : OperationType) (token : Token) : bool :=
  match op with
  | INSERT => String.eqb (Py.upper (tok_value token)) "INTO"
  | UPDATE => String.eqb (Py.upper (tok_value token)) "UPDATE"
  | DELETE =>
      match tok_ttype token with
      | TKeyword => String.eqb (Py.upper (tok_value token)) "FROM"
      | _ => false
      end
  end.

Definition name_of_token (op : OperationType) : Token → option string :=
  match op with
  | INSERT => insert_name
  | UPDATE => update_name
  | DELETE => delete_name
  end.

(** [_extract_from_insert]; [found_into] is the loop's flag. *)
Fixpoint _extract_from_insert (tokens : list Token) (found_into : bool)
    : option string :=
  match tokens with
  | [] => None
  | token :: tokens' =>
      if tok_is_whitespace token then _extract_from_insert tokens' found_into
      else if negb found_into then
        _extract_from_insert tokens' (is_keyword_of INSERT token)
      else insert_name token
  end.

(** [_extract_from_update] *)
Fixpoint _extract_from_update (tokens : list Token) (found_update : bool)
    : option string :=
  match tokens with
  | [] => None
  | token :: tokens' =>
      if tok_is_whitespace token then _extract_from_update tokens' found_update
      else if negb found_update then
        _extract_from_update tokens' (is_keyword_of UPDATE token)
      else update_name token
  end.

(** [_extract_from_delete] *)
Fixpoint _extract_from_delete (tokens : list Token) (found_from : bool)
    : option string :=
  match tokens with
  | [] => None
  | token :: tokens' =>
      if tok_is_whitespace token then _extract_from_delete tokens' found_from
      else if negb found_from then
        _extract_from_delete tokens' (is_keyword_of DELETE token)
      else delete_name token
  end.

(** *** The regular expressions of [_extract_with_regex]

    The three patterns are matched by hand.  In each of them a greedy
    [\s+] is followed by something that cannot start with white space and
    [\w+] by an optional quote, so the first way of matching at a position
    is the only one. *)

(** [\w] on ASCII. *)
Definition is_word (c : ascii) : bool :=
  let n := nat_of_ascii c in
  ((48 <=? n)%nat && (n <=? 57)%nat) || ((65 <=? n)%nat && (n <=? 90)%nat)
  || ((97 <=? n)%nat && (n <=? 122)%nat) || (n =? 95)%nat.

Definition is_quote (c : ascii) : bool := Py.mem_char c quote_chars.

(** A literal under [re.IGNORECASE]: the text after it, if it matches. *)
Fixpoint match_literal (lit s : string) : option string :=
  match lit, s with
  | EmptyString, _ => Some s
  | String a lit', String c s' =>
      if Ascii.eqb (Py.upper_char a) (Py.upper_char c) then match_literal lit' s'
      else None
  | String _ _, EmptyString => None
  end.

(** [\s+] *)
Definition match_spaces (s : string) : option string :=
  match s with
  | String c s' => if Py.is_space c then Some (Py.lstrip s') else None
  | EmptyString => None
  end.

(** The longest prefix of word characters. *)
Fixpoint take_word (s : string) : string :=
  match s with
  | String c s' => if is_word c then String c (take_word s') else EmptyString
  | EmptyString => EmptyString
  end.

(** An optional quote, then the group [(\w+)]. *)
Definition match_name (s : string) : option string :=
  let s1 := match s with
            | String c s' => if is_quote c then s' else s
            | EmptyString => s
            end in
  match take_word s1 with
  | EmptyString => None
  | w => Some w
  end.

Definition opt_bind {A B : Type} (o : option A) (k : A → option B) : option B :=
  match o with Some a => k a | None => None end.

(** The INSERT pattern at the start of [s]. *)
Definition match_insert (s : string) : option string :=
  opt_bind (match_literal "INSERT" s) (λ s1,
  opt_bind (match_spaces s1) (λ s2,
  opt_bind (match_literal "INTO" s2) (λ s3,
  opt_bind (match_spaces s3) match_name))).

(** The UPDATE pattern at the start of [s]. *)
Definition match_update (s : string) : option string :=
  opt_bind (match_literal "UPDATE" s) (λ s1,
  opt_bind (match_spaces s1) match_name).

(** The DELETE pattern at the start of [s]: the optional [FROM\s+] is
    tried first and given up when the name does not follow. *)
Definition match_delete (s : string) : option string :=
  opt_bind (match_literal "DELETE" s) (λ s1,
  opt_bind (match_spaces s1) (λ s2,
    match opt_bind (match_literal "FROM" s2) (λ s3,
          opt_bind (match_spaces s3) match_name) with
    | Some w => Some w
    | None => match_name s2
    end)).

(** [re.search]: the match at the leftmost position. *)
Fixpoint re_search (pattern : string → option string) (s : string)
    : option string :=
  match pattern s with
  | Some w => Some w
  | None =>
      match s with
      | EmptyString => None
      | String _ s' => re_search pattern s'
      end
  end.

Fixpoint has_comment_end (s : string) : bool :=
  match s with
  | EmptyString => false
  | String _ s' => String.prefix "*/" s || has_comment_end s'
  end.

Inductive CommentState : Type := Outside | AtOpenStar | Inside | AtCloseSlash.

(** [re.sub] of the shortest comments with the empty text; a comment
    that is not closed stays. *)
Fixpoint remove_comments (st : CommentState) (s : string) : string :=
  match s with
  | EmptyString => EmptyString
  | String c s' =>
      match st with
      | Outside =>
          if String.prefix "/*" s && has_comment_end (Py.drop 2 s)
          then remove_comments AtOpenStar s'
          else String c (remove_comments Outside s')
      | AtOpenStar => remove_comments Inside s'
      | Inside =>
          if String.prefix "*/" s then remove_comments AtCloseSlash s'
          else remove_comments Inside s'
      | AtCloseSlash => remove_comments Outside s'
      end
  end.

(** [_extract_with_regex] *)
Definition _extract_with_regex (sql : string) (operation : OperationType)
    : option string :=
  let sql_clean := remove_comments Outside sql in
  match operation with
  | INSERT => re_search match_insert sql_clean
  | UPDATE => re_search match_update sql_clean
  | DELETE => re_search match_delete sql_clean
  end.

Section SqlParser.

(** [sqlparse.parse]: the statements of the text, each as its top-level
    tokens, or an exception. *)
Variable sqlparse_parse : string → PyResult (list (list Token)).

(** [extract_table_name] *)
Definition extract_table_name (sql : string) : option string :=
  match parse_operation sql with
  | None => None
  | Some operation =>
      match sqlparse_parse sql with
      | Raise _ => _extract_with_regex sql operation
      | Ok [] => None
      | Ok (stmt :: _) =>
          let tokens := List.filter (λ t, negb (tok_is_whitespace t)) stmt in
          match operation with
          | INSERT => _extract_from_insert tokens false
          | UPDATE => _extract_from_update tokens false
          | DELETE => _extract_from_delete tokens false
          end
      end
  end.

(** [parse_sql] *)
Definition parse_sql (sql : string) : option OperationType * option string :=
  match parse_operation sql with
  | None => (None, None)
  | Some operation => (Some operation, extract_table_name sql)
  end.

End SqlParser.


(** *** Words of the specification about the classifier *)

(** The first token after the first one that satisfies [p]. *)
Fixpoint token_after (p : Token → bool) (tokens : list Token) : option Token :=
  match tokens with
  | [] => None
  | t :: tokens' => if p t then head tokens' else token_after p tokens'
  end.

(** [text] is [name], bare or between two quote characters. *)
Definition wrapped (name text : string) : Prop :=
  text = name
  ∨ ∃ q1 q2, is_quote q1 = true ∧ is_quote q2 = true
      ∧ text = String q1 (name +:+ String q2 EmptyString).

(** A name that is not empty and neither starts nor ends with a quote
    character. *)
Definition clean_name (name : string) : Prop :=
  name ≠ EmptyString
  ∧ Py.lstrip_chars quote_chars name = name
  ∧ Py.rstrip_chars quote_chars name = name.

(** The token is read by its text: always for INSERT, for UPDATE when
    it is not an identifier group, for DELETE when it is a plain token
    of type [Name] or [Keyword]. *)
Definition read_by_text (op : OperationType) (t : Token) : Prop :=
  match op with
  | INSERT => True
  | UPDATE => tok_class t ≠ CIdentifier
  | DELETE => tok_class t ≠ CIdentifier ∧ tok_ttype t ≠ TOtherType
  end.

(** First words of statements that are not writes, and the two comment
    openers. *)
Definition non_write_starts : list string :=
  ["SELECT"; "CREATE"; "DROP"; "ALTER"; "PRAGMA"; "/*"; "--"].

Definition all_space (ws : string) : Prop :=
  Forall (λ c, Py.is_space c = true) (list_ascii_of_string ws).

(** ** The capture interceptor: [core/connection.py] *)

(** The [parameters] argument of [execute]: a tuple, a list, a dict in
    iteration order, or any other object. *)
Inductive Params : Type :=
| PTuple (items : list PyVal)
| PList (items : list PyVal)
| PDict (d : Dict)
| POther (v : PyVal).

(** [_convert_parameters] *)
Definition _convert_parameters (params : Params) : list PyVal :=
  match params with
  | PTuple items | PList items => items
  | PDict d => d.*2
  | POther _ => []
  end.

(** A fetched row: one with keys ([sqlite3.Row], a dict) or a plain
    tuple. *)
Inductive Row : Type :=
| RowKeyed (items : list (string * PyVal))
| RowTuple (values : list PyVal).

(** What the interceptor reads from a driver cursor. *)
Record Cursor : Type := mkCursor {
  cur_fetchone : option Row;
  cur_lastrowid : option Z;
  cur_description : list string
}.

(** [dict(pairs)] *)
Definition dict_of_pairs (pairs : list (string * PyVal)) : Dict :=
  foldl (λ d kv, dict_set d kv.1 kv.2) [] pairs.

(** [_row_to_dict] *)
Definition _row_to_dict (row : option Row) (cursor : Cursor) : Dict :=
  match row with
  | None => []
  | Some (RowKeyed items) => dict_of_pairs items
  | Some (RowTuple values) => dict_of_pairs (zip (cur_description cursor) values)
  end.

(** [dict[key]] when the key is there. *)
Definition dict_get (d : Dict) (k : string) : option PyVal :=
  snd <$> List.find (λ kv, String.eqb kv.1 k) d.

(** [CDCConnection._extract_where_clause]: the loop over the four
    keywords stops at the first one found. *)
Fixpoint cut_at_keyword (keywords : list string) (where_part : string) : string :=
  match keywords with
  | [] => where_part
  | keyword :: keywords' =>
      match Py.find (Py.upper where_part) keyword with
      | Some kw_idx => Py.take kw_idx where_part
      | None => cut_at_keyword keywords' where_part
      end
  end.

Definition _extract_where_clause (sql : string) : option string :=
  match Py.find (Py.upper sql) "WHERE" with
  | None => None
  | Some where_idx =>
      Some (Py.strip (cut_at_keyword [" ORDER BY"; " GROUP BY"; " LIMIT"; " OFFSET"]
                        (Py.drop (where_idx + 5) sql)))
  end.

(** A table name inside an f-string: [None] prints as its name. *)
Definition fmt_table (table : option string) : string := default "None" table.

(** The statement of [_fetch_before_data]. *)
Definition select_before_sql (table : option string) (where_clause : string)
    : string :=
  "SELECT * FROM " +:+ fmt_table table +:+ " WHERE " +:+ where_clause +:+ " LIMIT 1".

(** The statement of [_fetch_after_data]. *)
Definition select_after_sql (table : option string) : string :=
  "SELECT * FROM " +:+ fmt_table table +:+ " WHERE ROWID = ?".

(** The statement of [_write_audit_log], up to white space. *)
Definition audit_insert_sql (audit_table : string) : string :=
  "INSERT INTO " +:+ audit_table
  +:+ " (table_name, operation, row_id, before_data, after_data)"
  +:+ " VALUES (?, ?, ?, ?, ?)".

Definition opt_text (o : option string) : PyVal :=
  match o with Some s => VStr s | None => VNone end.

Record CDCConnection : Type := mkCDCConnection {
  conn_audit_table : string;
  conn_enabled_tables : list string
}.

(** [CDCConnection._should_audit] *)
Definition _should_audit (conn : CDCConnection) (table : option string) : bool :=
  match conn_enabled_tables conn with
  | [] => true
  | enabled =>
      match table with
      | Some t => existsb (String.eqb t) enabled
      | None => false
      end
  end.

Section Connection.

(** The wrapped [sqlite3.Connection]: [execute] on the state of the
    database gives a cursor or raises, and leaves a new state. *)
Variable DB : Type.
Variable raw_execute : string → Params → DB → PyResult Cursor * DB.

(** [json.dumps], [repr] of containers, and [sqlparse.parse]. *)
Variable json_dumps : Dict → PyResult string.
Variable repr : PyVal → string.
Variable sqlparse_parse : string → PyResult (list (list Token)).

(** [str(value)] *)
Definition str_val (v : PyVal) : string :=
  match v with
  | VNone => "None"
  | VBool true => "True"
  | VBool false => "False"
  | VInt z => Py.str_int z
  | VFloat r => r
  | VStr s => s
  | VList _ | VDict _ => repr v
  end.

(** [CDCConnection._fetch_before_data]: every exception gives [None]. *)
Definition _fetch_before_data (sql : string) (params : list PyVal)
    (table : option string) (db : DB) : option Dict * DB :=
  match _extract_where_clause sql with
  | None => (None, db)
  | Some where_clause =>
      if String.eqb where_clause "" then (None, db)
      else
        match raw_execute (select_before_sql table where_clause) (PTuple params) db with
        | (Raise _, db') => (None, db')
        | (Ok cursor, db') =>
            (match cur_fetchone cursor with
             | Some row => Some (_row_to_dict (Some row) cursor)
             | None => None
             end, db')
        end
  end.

(** [CDCConnection._fetch_after_data]: every exception gives [None]. *)
Definition _fetch_after_data (table : option string) (row_id : option string)
    (db : DB) : option Dict * DB :=
  match row_id with
  | None => (None, db)
  | Some rid =>
      match raw_execute (select_after_sql table) (PTuple [VStr rid]) db with
      | (Raise _, db') => (None, db')
      | (Ok cursor, db') =>
          (match cur_fetchone cursor with
           | Some row => Some (_row_to_dict (Some row) cursor)
           | None => None
           end, db')
      end
  end.

(** [CDCConnection._extract_row_id_from_where] *)
Definition _extract_row_id_from_where (sql : string) (params : list PyVal)
    (before_data : option Dict) : option string :=
  match opt_bind before_data (λ d, dict_get d "ROWID") with
  | Some v => Some (str_val v)
  | None =>
      match _extract_where_clause sql with
      | None => None
      | Some where_clause =>
          if negb (String.eqb where_clause "")
             && Py.contains "ROWID" (Py.upper where_clause)
          then
            match Py.split (Py.upper where_clause) "ROWID" with
            | _ :: part :: _ =>
                if Py.contains "=" part
                then match params with
                     | v :: _ => Some (str_val v)
                     | [] => None
                     end
                else None
            | _ => None
            end
          else None
      end
  end.

(** [json.dumps(data) if data else None] *)
Definition dumps_or_null (data : option Dict) : PyResult PyVal :=
  match data with
  | None | Some [] => Ok VNone
  | Some d => let? text := json_dumps d in Ok (VStr text)
  end.

(** The tuple bound to the audit INSERT. *)
Definition audit_params (table : option string) (op : OperationType)
    (row_id : option string) (before_json after_json : PyVal) : Params :=
  PTuple [opt_text table; VStr (OperationType_value op); opt_text row_id;
          before_json; after_json].

(** [CDCConnection._write_audit_log]: the exception is logged and raised
    again. *)
Definition _write_audit_log (conn : CDCConnection) (table : option string)
    (op : OperationType) (row_id : option string)
    (before_data after_data : option Dict) (db : DB) : PyResult unit * DB :=
  match dumps_or_null before_data with
  | Raise e => (Raise e, db)
  | Ok before_json =>
      match dumps_or_null after_data with
      | Raise e => (Raise e, db)
      | Ok after_json =>
          match raw_execute (audit_insert_sql (conn_audit_table conn))
                  (audit_params table op row_id before_json after_json) db with
          | (Raise e, db') => (Raise e, db')
          | (Ok _, db') => (Ok (), db')
          end
      end
  end.

(** The first block of [_execute_with_audit]: the before-image and the
    row id, for UPDATE and DELETE. *)
Definition capture_before (sql : string) (params : list PyVal)
    (op : OperationType) (table : option string) (db : DB)
    : (option Dict * option string) * DB :=
  match op with
  | INSERT => ((None, None), db)
  | UPDATE | DELETE =>
      let '(before_data, db') := _fetch_before_data sql params table db in
      ((before_data, _extract_row_id_from_where sql params before_data), db')
  end.

(** The row id after the business statement: for an INSERT
    [str(cursor.lastrowid) if cursor.lastrowid else None]. *)
Definition row_id_after (op : OperationType) (row_id : option string)
    (cursor : Cursor) : option string :=
  match op with
  | INSERT =>
      match cur_lastrowid cursor with
      | Some 0 | None => None
      | Some n => Some (Py.str_int n)
      end
  | UPDATE | DELETE => row_id
  end.

(** The block after the business statement: the row id and, for INSERT
    and UPDATE, the after-image. *)
Definition capture_after (op : OperationType) (table : option string)
    (row_id : option string) (cursor : Cursor) (db : DB)
    : (option string * option Dict) * DB :=
  let row_id' := row_id_after op row_id cursor in
  match op with
  | INSERT | UPDATE =>
      let '(after_data, db') := _fetch_after_data table row_id' db in
      ((row_id', after_data), db')
  | DELETE => ((row_id', None), db)
  end.

(** [CDCConnection._execute_with_audit] *)
Definition _execute_with_audit (conn : CDCConnection) (sql : string)
    (parameters : Params) (op : OperationType) (table : option string)
    (db : DB) : PyResult Cursor * DB :=
  let params := _convert_parameters parameters in
  let '((before_data, row_id), db1) := capture_before sql params op table db in
  match raw_execute sql (PTuple params) db1 with
  | (Raise e, db2) => (Raise e, db2)
  | (Ok cursor, db2) =>
      let '((row_id', after_data), db3) := capture_after op table row_id cursor db2 in
      match _write_audit_log conn table op row_id' before_data after_data db3 with
      | (Raise e, db4) => (Raise e, db4)
      | (Ok _, db4) => (Ok cursor, db4)
      end
  end.

(** [CDCConnection.execute] *)
Definition execute (conn : CDCConnection) (sql : string) (parameters : Params)
    (db : DB) : PyResult Cursor * DB :=
  match parse_sql sqlparse_parse sql with
  | (Some op, table) =>
      if _should_audit conn table
      then _execute_with_audit conn sql parameters op table db
      else raw_execute sql (PTuple (_convert_parameters parameters)) db
  | (None, _) => raw_execute sql (PTuple (_convert_parameters parameters)) db
  end.

End Connection.

(** A connection that keeps the list of the calls made on it. *)
Definition logged {DB : Type}
    (raw_execute : string → Params → DB → PyResult Cursor * DB)
    (sql : string) (params : Params) (st : DB * list (string * Params))
    : PyResult Cursor * (DB * list (string * Params)) :=
  let '(r, db') := raw_execute sql params st.1 in
  (r, (db', st.2 ++ [(sql, params)])).

(** A call whose parameters are a positional tuple. *)
Definition positional (call : string * Params) : Prop :=
  ∃ items, call.2 = PTuple items.

(** The calls that a computation adds to the log are all positional. *)
Definition adds_positional {DB A : Type} (st : DB * list (string * Params))
    (out : A * (DB * list (string * Params))) : Prop :=
  ∃ calls, out.2.2 = st.2 ++ calls ∧ Forall positional calls.

(** ** Initial sync: [core/initial_sync.py] and its checkpoints *)

(** [SyncState.value] *)
Definition SyncState_value (s : SyncState) : string :=
  match s with
  | IDLE => "idle"
  | RUNNING => "running"
  | PAUSED => "paused"
  | ERROR => "error"
  | COMPLETED => "completed"
  end.

(** [SyncState(text)] *)
Definition SyncState_of_value (s : string) : option SyncState :=
  List.find (λ st, String.eqb (SyncState_value st) s)
    [IDLE; RUNNING; PAUSED; ERROR; COMPLETED].

(** [InitialSyncCheckpoint] of [models/position.py], without its two
    timestamps. *)
Record InitialSyncCheckpoint : Type := mkInitialSyncCheckpoint {
  ck_table_name : string;
  ck_last_pk : option PyVal;
  ck_total_synced : Z;
  ck_status : SyncState
}.

(** The constructor: [last_pk] is [None], an integer or text, and
    [total_synced >= 0]. *)
Definition InitialSyncCheckpoint_new (table : string) (last_pk : option PyVal)
    (total : Z) (status : SyncState) : PyResult InitialSyncCheckpoint :=
  let pk_ok := match last_pk with
               | None | Some (VInt _) | Some (VStr _) => true
               | Some _ => false
               end in
  if negb pk_ok || negb (0 <=? total) then Raise ValidationError
  else Ok (mkInitialSyncCheckpoint table last_pk total status).

(** A row of [initial_sync_checkpoints] without its unique key
    [(source_db_path, table_name)] and its timestamps. *)
Record CheckpointRow : Type := mkCheckpointRow {
  c_last_pk : option string;
  c_total_synced : Z;
  c_status : string
}.

(** Python truth of a primary-key value: [None], 0 and the empty text
    are false. *)
Definition pk_truthy (v : option PyVal) : bool :=
  match v with
  | None | Some VNone | Some (VInt 0) | Some (VBool false) => false
  | Some (VStr s) => negb (String.eqb s "")
  | Some _ => true
  end.

(** [str] of a primary key held by a checkpoint. *)
Definition pk_text (v : PyVal) : string :=
  match v with
  | VInt z => Py.str_int z
  | VStr s => s
  | _ => EmptyString
  end.

(** [CheckpointStore.save_initial_checkpoint] *)
Definition save_initial_checkpoint
    (store : gmap (string * string) CheckpointRow) (path : string)
    (checkpoint : InitialSyncCheckpoint) : gmap (string * string) CheckpointRow :=
  <[(path, ck_table_name checkpoint) :=
      mkCheckpointRow
        (if pk_truthy (ck_last_pk checkpoint)
         then pk_text <$> ck_last_pk checkpoint else None)
        (ck_total_synced checkpoint)
        (SyncState_value (ck_status checkpoint))]> store.

(** [CheckpointStore.load_initial_checkpoint] *)
Definition load_initial_checkpoint
    (store : gmap (string * string) CheckpointRow) (path table : string)
    : PyResult (option InitialSyncCheckpoint) :=
  match store !! (path, table) with
  | None => Ok None
  | Some row =>
      let last_pk := (λ text, match Py.int text with
                              | Some z => VInt z
                              | None => VStr text
                              end) <$> c_last_pk row in
      match SyncState_of_value (c_status row) with
      | None => Raise ValueError
      | Some status =>
          let? checkpoint :=
            InitialSyncCheckpoint_new table last_pk (c_total_synced row) status in
          Ok (Some checkpoint)
      end
  end.

(** The two statements of [InitialSync._fetch_batch], up to white
    space. *)
Definition select_first_page (table pk_column : string) (batch_size : Z) : string :=
  "SELECT * FROM " +:+ table +:+ " ORDER BY " +:+ pk_column
  +:+ " LIMIT " +:+ Py.str_int batch_size.

Definition select_next_page (table pk_column : string) (batch_size : Z) : string :=
  "SELECT * FROM " +:+ table +:+ " WHERE " +:+ pk_column +:+ " > ? ORDER BY "
  +:+ pk_column +:+ " LIMIT " +:+ Py.str_int batch_size.

(** The statement and the parameters of a page that follows [last_pk]. *)
Definition page_query (table pk_column : string) (batch_size : Z)
    (last_pk : option PyVal) : string * list PyVal :=
  match last_pk with
  | None => (select_first_page table pk_column batch_size, [])
  | Some v => (select_next_page table pk_column batch_size, [v])
  end.

(** [rows[-1].get(pk_column)]; a stored NULL is [None] too. *)
Definition last_pk_of (pk_column : string) (rows : list Dict) : option PyVal :=
  match last rows with
  | None => None
  | Some row =>
      match dict_get row pk_column with
      | Some VNone | None => None
      | Some v => Some v
      end
  end.

Section InitialSync.

Variable convert : PyVal → ConverterType → Dict → PyVal.

(** The source connection.  A page query ([execute] and [fetchall])
    gives the column names and the rows, or raises.  The two PRAGMA
    statements are kept apart from the page queries: [PRAGMA
    database_list] gives the file of the database, [PRAGMA table_info]
    the declared columns or an exception. *)
Variable Src : Type.
Variable source_execute :
  string → list PyVal → Src → PyResult (list string * list (list PyVal)) * Src.
Variable pragma_database_path : Src → string.
Variable pragma_table_info : string → Src → PyResult (list (list PyVal)).

(** The targets, as for the engine. *)
Variable World : Type.
Variable batch_upsert : string → string → list Dict → World → PyResult unit * World.

(** What a table's sync works on. *)
Record SyncEnv : Type := mkSyncEnv {
  env_src : Src;
  env_world : World;
  env_checkpoints : gmap (string * string) CheckpointRow
}.

(** [InitialSync._fetch_batch] *)
Definition _fetch_batch (table pk_column : string) (last_pk : option PyVal)
    (batch_size : Z) (src : Src) : PyResult (list Dict) * Src :=
  let '(sql, params) := page_query table pk_column batch_size last_pk in
  match source_execute sql params src with
  | (Raise e, src') => (Raise e, src')
  | (Ok (columns, rows), src') =>
      (Ok ((λ row, dict_of_pairs (zip columns row)) <$> rows), src')
  end.

(** The tasks of one [asyncio.gather] over the targets. *)
Fixpoint gather_upserts (targets : list string) (table : string)
    (batch : list Dict) (w : World) : list (PyResult unit) * World :=
  match targets with
  | [] => ([], w)
  | t :: targets' =>
      let '(r, w1) := batch_upsert t table batch w in
      let '(rs, w2) := gather_upserts targets' table batch w1 in
      (r :: rs, w2)
  end.

(** The first exception among the results is raised. *)
Fixpoint first_exception (results : list (PyResult unit)) : PyResult unit :=
  match results with
  | [] => Ok ()
  | Raise e :: _ => Raise e
  | Ok _ :: results' => first_exception results'
  end.

(** [InitialSync._sync_batch_to_all_targets] *)
Definition _sync_batch_to_all_targets (cfg : SyncConfig) (table : string)
    (batch : list Dict) (w : World) : PyResult unit * World :=
  match batch with
  | [] => (Ok (), w)
  | _ =>
      let '(results, w') := gather_upserts (cfg_targets cfg) table batch w in
      (first_exception results, w')
  end.

(** [InitialSync._sync_with_pagination]: the [while True] loop, run for
    at most [fuel] turns; [None] means that the loop had not ended. *)
Fixpoint _sync_with_pagination (fuel : nat) (cfg : SyncConfig)
    (table_name : string) (m : TableMapping) (pk_column : string)
    (synced : Z) (last_pk : option PyVal) (batch_num : Z) (env : SyncEnv)
    : option (PyResult Z) * SyncEnv :=
  match fuel with
  | O => (None, env)
  | S fuel' =>
      match _fetch_batch table_name pk_column last_pk (cfg_batch_size cfg)
              (env_src env) with
      | (Raise e, src') =>
          (Some (Raise e), mkSyncEnv src' (env_world env) (env_checkpoints env))
      | (Ok [], src') =>
          (Some (Ok synced), mkSyncEnv src' (env_world env) (env_checkpoints env))
      | (Ok rows, src') =>
          let transformed_rows := transform_batch convert m rows in
          match _sync_batch_to_all_targets cfg (get_target_table m)
                  transformed_rows (env_world env) with
          | (Raise e, w') => (Some (Raise e), mkSyncEnv src' w' (env_checkpoints env))
          | (Ok _, w') =>
              let synced' := synced + Z.of_nat (length rows) in
              let last_pk' := last_pk_of pk_column rows in
              let batch_num' := batch_num + 1 in
              if batch_num' mod 10 =? 0 then
                match InitialSyncCheckpoint_new table_name last_pk' synced' RUNNING with
                | Raise e =>
                    (Some (Raise e), mkSyncEnv src' w' (env_checkpoints env))
                | Ok checkpoint =>
                    _sync_with_pagination fuel' cfg table_name m pk_column
                      synced' last_pk' batch_num'
                      (mkSyncEnv src' w'
                         (save_initial_checkpoint (env_checkpoints env)
                            (pragma_database_path src') checkpoint))
                end
              else
                _sync_with_pagination fuel' cfg table_name m pk_column
                  synced' last_pk' batch_num'
                  (mkSyncEnv src' w' (env_checkpoints env))
          end
      end
  end.

(** The first column of [PRAGMA table_info] whose [pk] field is 1. *)
Definition declared_primary_key (rows : list (list PyVal)) : option string :=
  match List.find (λ row, match row !! 5%nat with
                          | Some (VInt 1) => true
                          | _ => false
                          end) rows with
  | Some row => match row !! 1%nat with
                | Some (VStr name) => Some name
                | _ => None
                end
  | None => None
  end.

(** [InitialSync._get_effective_primary_key] *)
Definition _get_effective_primary_key (table : string) (m : TableMapping)
    (src : Src) : string :=
  if negb (String.eqb (primary_key m) "") then primary_key m
  else
    match pragma_table_info table src with
    | Ok rows => default "ROWID" (declared_primary_key rows)
    | Raise _ => "ROWID"
    end.

(** [InitialSync.sync_table] *)
Definition sync_table (fuel : nat) (cfg : SyncConfig)
    (table_name : string) (resume : bool) (env : SyncEnv)
    : option (PyResult Z) * SyncEnv :=
  match get_table_mapping cfg table_name with
  | None => (Some (Raise ValueError), env)
  | Some m =>
      let path := pragma_database_path (env_src env) in
      match (if resume
             then load_initial_checkpoint (env_checkpoints env) path table_name
             else Ok None) with
      | Raise e => (Some (Raise e), env)
      | Ok checkpoint =>
          match checkpoint with
          | Some (mkInitialSyncCheckpoint _ _ total COMPLETED) =>
              (Some (Ok total), env)
          | _ =>
              let pk_column :=
                _get_effective_primary_key table_name m (env_src env) in
              match _sync_with_pagination fuel cfg table_name m pk_column
                      0 (opt_bind checkpoint ck_last_pk) 0 env with
              | (Some (Ok synced), env2) =>
                  match InitialSyncCheckpoint_new table_name None synced COMPLETED with
                  | Raise e => (Some (Raise e), env2)
                  | Ok final_checkpoint =>
                      (Some (Ok synced),
                       mkSyncEnv (env_src env2) (env_world env2)
                         (save_initial_checkpoint (env_checkpoints env2)
                            (pragma_database_path (env_src env))
                            final_checkpoint))
                  end
              | other => other
              end
          end
      end
  end.

End InitialSync.

(** A source connection that keeps the calls made on it with their
    results. *)
Definition logged_source {Src : Type}
    (source_execute :
       string → list PyVal → Src → PyResult (list string * list (list PyVal)) * Src)
    (sql : string) (params : list PyVal)
    (st : Src * list (string * list PyVal * PyResult (list Dict)))
    : PyResult (list string * list (list PyVal))
      * (Src * list (string * list PyVal * PyResult (list Dict))) :=
  let '(r, src') := source_execute sql params st.1 in
  (r, (src', st.2 ++ [(sql, params,
                        match r with
                        | Ok (columns, rows) =>
                            Ok ((λ row, dict_of_pairs (zip columns row)) <$> rows)
                        | Raise e => Raise e
                        end)])).

(** *** Words of the specification about the pagination *)

(** A list of page queries with their results is a keyset pagination
    that starts after [last_pk]: each query is the page query after the
    current key, a page with rows moves the key to its last row's, and
    an empty page or an exception ends the list. *)
Fixpoint keyset_log (table pk_column : string) (batch_size : Z)
    (last_pk : option PyVal)
    (log : list (string * list PyVal * PyResult (list Dict))) : Prop :=
  match log with
  | [] => True
  | (sql, params, result) :: log' =>
      (sql, params) = page_query table pk_column batch_size last_pk
      ∧ match result with
        | Ok (row :: rows) =>
            keyset_log table pk_column batch_size
              (last_pk_of pk_column (row :: rows)) log'
        | _ => log' = []
        end
  end.

(** ** Concrete inputs used by the examples and counterexamples *)

(** An INSERT event whose primary key is the text ["42"]. *)
Definition ev_text_key : ChangeEvent :=
  mkChangeEvent "1:users:42" 1 "2024-01-01T00:00:00" INSERT "users" (RStr "42")
    None (Some [("id", VStr "42"); ("name", VStr "a")]).

(** An UPDATE event with an integer key. *)
Definition ev_int_key : ChangeEvent :=
  mkChangeEvent "7:orders:-3" 7 "2024-01-01T00:00:00" UPDATE "orders" (RInt (-3))
    (Some [("id", VInt (-3))]) (Some [("id", VInt (-3)); ("n", VInt 1)]).

(** The text of the JSON object with the one member [id] equal to 1. *)
Definition json_id_1 : string :=
  let q := String (ascii_of_nat 34) EmptyString in
  "{" +:+ q +:+ "id" +:+ q +:+ ": 1}".

(** A decoder that agrees with [json.loads] on the texts used in the
    examples: the empty object, the empty array, [json_id_1], and the
    malformed text of an unclosed brace. *)
Definition json_loads_demo (s : string) : PyResult PyVal :=
  if String.eqb s "{}" then Ok (VDict [])
  else if String.eqb s "[]" then Ok (VList [])
  else if String.eqb s json_id_1 then Ok (VDict [("id", VInt 1)])
  else Raise JSONDecodeError.

(** [datetime.fromisoformat] kept as text. *)
Definition fromisoformat_demo (s : string) : PyResult datetime :=
  if String.eqb s "" then Raise ValueError else Ok s.

Definition demo_row (op : string) (rid : string) (before after : option string)
    : AuditRow :=
  mkAuditRow "users" op (Some rid) before after "2024-01-01 00:00:00" None 0.

(** Three captured changes, none consumed: scenarios 1 to 3 of the
    specification with empty payload objects. *)
Definition src_three : Source :=
  mkSource (<[1 := demo_row "INSERT" "1" None (Some "{}")]>
           (<[2 := demo_row "UPDATE" "1" (Some "{}") (Some "{}")]>
           (<[3 := demo_row "DELETE" "1" (Some "{}") None]> ∅))) true.

Definition reader_at (batch : Z) (from_id : Z) : AuditReader :=
  reader_start (mkAuditReader batch false 0) from_id.

(** The events of [src_three]. *)
Definition batch_three : list ChangeEvent :=
  [ mkChangeEvent "1:users:1" 1 "2024-01-01 00:00:00" INSERT "users" (RInt 1)
      None (Some []);
    mkChangeEvent "2:users:1" 2 "2024-01-01 00:00:00" UPDATE "users" (RInt 1)
      (Some []) (Some []);
    mkChangeEvent "3:users:1" 3 "2024-01-01 00:00:00" DELETE "users" (RInt 1)
      (Some []) None ].

(** A batch of two INSERT rows; the first has a malformed before-image,
    which an INSERT does not need. *)
Definition src_bad_before : Source :=
  mkSource (<[1 := demo_row "INSERT" "1" (Some "{bad") (Some "{}")]>
           (<[2 := demo_row "INSERT" "2" None (Some "{}")]> ∅)) true.

Definition batch_bad_before : list ChangeEvent :=
  [ mkChangeEvent "1:users:1" 1 "2024-01-01 00:00:00" INSERT "users" (RInt 1)
      None (Some []);
    mkChangeEvent "2:users:2" 2 "2024-01-01 00:00:00" INSERT "users" (RInt 2)
      None (Some []) ].

(** A batch of two INSERT rows; the second has a malformed after-image. *)
Definition src_bad_after : Source :=
  mkSource (<[1 := demo_row "INSERT" "1" None (Some "{}")]>
           (<[2 := demo_row "INSERT" "2" None (Some "{bad")]> ∅)) true.

(** *** Inputs for the engine *)

(** Two targets and one mapped table, batches of two. *)
Definition cfg_two : SyncConfig :=
  mkSyncConfig "source.db" ["T1"; "T2"]
    [mkTableMapping "users" (Some "users") [] None "id"] 2.

Definition convert_id (v : PyVal) (c : ConverterType) (params : Dict) : PyVal := v.

(** What reached the targets. *)
Inductive Applied : Type :=
| Upserted (target table : string) (rows : list Dict)
| Deleted (target table : string) (rid : RowId).

(** Target T2 refuses every write; the other targets apply theirs. *)
Definition batch_upsert_T2_down (t table : string) (rows : list Dict)
    (w : list Applied) : PyResult unit * list Applied :=
  if String.eqb t "T2" then (Raise (DatabaseError "connection refused"), w)
  else (Ok (), w ++ [Upserted t table rows]).

Definition delete_T2_down (t table : string) (rid : RowId)
    (w : list Applied) : PyResult unit * list Applied :=
  if String.eqb t "T2" then (Raise (DatabaseError "connection refused"), w)
  else (Ok (), w ++ [Deleted t table rid]).

(** One captured INSERT, not consumed. *)
Definition src_one : Source :=
  mkSource (<[1 := demo_row "INSERT" "1" None (Some json_id_1)]> ∅) true.

Definition status_idle : SyncStatus := mkSyncStatus RUNNING 0 ∅ None.

(** Both targets at cursor 0, reader started at 0, nothing applied. *)
Definition engine_fresh : EngineState (list Applied) :=
  mkEngineState (list Applied) status_idle ∅ (reader_at 2 0) [] [].

(** Rows 1 to 8, all INSERTs, none consumed. *)
Definition src_eight : Source :=
  mkSource (list_to_map ((λ i, (i, demo_row "INSERT" "1" None (Some "{}")))
                           <$> [1; 2; 3; 4; 5; 6; 7; 8])) true.

(** T1 has applied up to 10, T2 up to 5. *)
Definition store_uneven : gmap (string * string) PositionRow :=
  <[("source.db", "T1") := mkPositionRow 10 10 "2024-01-01T00:00:00"]>
  (<[("source.db", "T2") := mkPositionRow 5 5 "2024-01-01T00:00:00"]> ∅).

(** Targets that apply every write. *)
Definition batch_upsert_ok (t table : string) (rows : list Dict)
    (w : list Applied) : PyResult unit * list Applied :=
  (Ok (), w ++ [Upserted t table rows]).

Definition delete_ok (t table : string) (rid : RowId)
    (w : list Applied) : PyResult unit * list Applied :=
  (Ok (), w ++ [Deleted t table rid]).

(** The event of [src_one]. *)
Definition ev_one : ChangeEvent :=
  mkChangeEvent "1:users:1" 1 "2024-01-01 00:00:00" INSERT "users" (RInt 1)
    None (Some [("id", VInt 1)]).

(** The engine started on [store_uneven]: the reader begins at 5. *)
Definition engine_uneven : EngineState (list Applied) :=
  mkEngineState (list Applied) status_idle store_uneven (reader_at 2 5) [] [].

(** *** Inputs for the classifier *)

Definition tok_ws : Token := mkToken true " " TOtherType CToken None.

Definition tok_plain (ty : TokenType) (v : string) : Token :=
  mkToken false v ty CToken None.

Definition tok_identifier (v real : string) : Token :=
  mkToken false v TOtherType CIdentifier (Some real).

(** A tokeniser for the examples: the token shapes that the comments of
    the source describe for three statements; any other text makes it
    raise, which sends [extract_table_name] to the regular expressions. *)
Definition sqlparse_demo (sql : string) : PyResult (list (list Token)) :=
  if String.eqb sql "INSERT INTO `my-table` VALUES (1)" then
    Ok [[tok_plain TOtherType "INSERT"; tok_ws; tok_plain TKeyword "INTO"; tok_ws;
         tok_identifier "`my-table`" "my-table"; tok_ws;
         mkToken false "VALUES (1)" TOtherType COtherGroup None]]
  else if String.eqb sql "UPDATE users SET name='b'" then
    Ok [[tok_plain TOtherType "UPDATE"; tok_ws; tok_identifier "users" "users";
         tok_ws; tok_plain TKeyword "SET"; tok_ws;
         mkToken false "name='b'" TOtherType COtherGroup None]]
  else if String.eqb sql "DELETE FROM users WHERE id=1" then
    Ok [[tok_plain TOtherType "DELETE"; tok_ws; tok_plain TKeyword "FROM"; tok_ws;
         tok_identifier "users" "users"; tok_ws;
         mkToken false "WHERE id=1" TOtherType COtherGroup None]]
  else Raise (DatabaseError "tokeniser").

(** *** Inputs for the interceptor *)

(** A connection for the examples.  Its state is the list of the
    statements it ran; it refuses every SELECT when [fail_select] is set
    and every statement on the audit table when [fail_audit] is set, and
    otherwise returns a cursor without row whose [lastrowid] is 1. *)
Definition raw_execute_demo (fail_select fail_audit : bool) (sql : string)
    (params : Params) (db : list (string * Params))
    : PyResult Cursor * list (string * Params) :=
  if fail_select && String.prefix "SELECT" sql
  then (Raise (DatabaseError "no such column"), db)
  else if fail_audit && String.prefix "INSERT INTO _cdc_audit_log" sql
  then (Raise (DatabaseError "database is locked"), db)
  else (Ok (mkCursor None (Some 1) []), db ++ [(sql, params)]).

Definition json_dumps_demo (d : Dict) : PyResult string := Ok "{}".

Definition repr_demo (v : PyVal) : string := "[]".

Definition conn_demo : CDCConnection := mkCDCConnection "_cdc_audit_log" ["users"].

(** *** Inputs for the initial sync *)

Definition users_row (r : Z * string) : list PyVal := [VInt r.1; VStr r.2].

(** A source with the one table [users(id, name)], held sorted by [id];
    it answers the two page queries for batches of two. *)
Definition source_execute_demo (sql : string) (params : list PyVal)
    (src : list (Z * string))
    : PyResult (list string * list (list PyVal)) * list (Z * string) :=
  if String.eqb sql (select_first_page "users" "id" 2)
  then (Ok (["id"; "name"], users_row <$> take 2 src), src)
  else if String.eqb sql (select_next_page "users" "id" 2)
  then match params with
       | [VInt k] =>
           (Ok (["id"; "name"],
                users_row <$> take 2 (List.filter (λ r, k <? r.1) src)), src)
       | _ => (Raise (DatabaseError "binding"), src)
       end
  else (Raise (DatabaseError "syntax"), src).

Definition users_five : list (Z * string) :=
  [(1, "a"); (2, "b"); (3, "c"); (4, "d"); (5, "e")].

Definition path_demo {A : Type} (src : A) : string := "source.db".

Definition table_info_demo {A : Type} (table : string) (src : A)
    : PyResult (list (list PyVal)) := Raise (DatabaseError "near ?").

(** The initial sync of [users] for [cfg_two] on a logged source. *)
Definition sync_users (fuel : nat)
    (checkpoints : gmap (string * string) CheckpointRow) :=
  sync_table convert_id _ (logged_source source_execute_demo) path_demo
    table_info_demo _ batch_upsert_ok fuel cfg_two "users" true
    (mkSyncEnv _ _ (users_five, []) [] checkpoints).

(** A checkpoint left by an interrupted run after the row with id 2,
    and one left by a finished run. *)
Definition checkpoints_running : gmap (string * string) CheckpointRow :=
  <[("source.db", "users") := mkCheckpointRow (Some "2") 2 "running"]> ∅.

Definition checkpoints_completed : gmap (string * string) CheckpointRow :=
  <[("source.db", "users") := mkCheckpointRow None 5 "completed"]> ∅.
(** ** Further definitions: the rest of the reader, the store, the
    interceptor and the writers, and what the theorems of Part III
    are stated with *)

(** *** Inputs: an audit log of an UPDATE without images *)

Definition audit_log_bare_update : AuditLog :=
  mkAuditLog 4 "users" UPDATE None None None "2024-01-01T00:00:00" None 0.

(** ** More of the reader: [AuditReader.get_stats] *)

(** The dict that [get_stats] returns. *)
Record ReaderStats : Type := mkReaderStats {
  rs_total : Z;
  rs_unconsumed : Z;
  rs_max_id : Z;
  rs_last_read_id : Z;
  rs_pending : Z
}.

(** [COALESCE(MAX(id), 0)] over the ids of a table. *)
Definition coalesce_max (ids : list Z) : Z :=
  match ids with
  | [] => 0
  | i :: ids' => foldl Z.max i ids'
  end.

Definition is_unconsumed (x : Z * AuditRow) : Prop := r_consumed_at x.2 = None.

#[global] Instance is_unconsumed_dec x : Decision (is_unconsumed x).
Proof. unfold is_unconsumed. apply _. Defined.

(** [AuditReader.get_stats]: the three counting queries
    (the rows with [consumed_at IS NULL], all rows, and
    [COALESCE(MAX(id), 0)]), or the zero record when a query raises. *)
Definition get_stats (src : Source) (rd : AuditReader) : ReaderStats :=
  if src_available src then
    let unconsumed :=
      Z.of_nat (length (filter is_unconsumed (map_to_list (audit_rows src)))) in
    let total := Z.of_nat (length (map_to_list (audit_rows src))) in
    let max_id := coalesce_max (map_to_list (audit_rows src)).*1 in
    mkReaderStats total unconsumed max_id (rd_last_audit_id rd)
      (Z.max 0 (max_id - rd_last_audit_id rd))
  else mkReaderStats 0 0 0 (rd_last_audit_id rd) 0.

(** The row after [SET consumed_at = ?]. *)
Definition consumed_row (now : string) (r : AuditRow) : AuditRow :=
  mkAuditRow (r_table_name r) (r_operation r) (r_row_id r) (r_before_data r)
    (r_after_data r) (r_created_at r) (Some now) (r_retry_count r).

(** *** What recording targets hold after a table's events *)

(** One [batch_upsert] per target, unless there is no row to write. *)
Definition applied_upserts (targets : list string) (table : string)
    (rows : list Dict) : list Applied :=
  match rows with
  | [] => []
  | _ => (λ t, Upserted t table rows) <$> targets
  end.

(** One [delete] per target for each DELETE event, in event order. *)
Definition applied_deletes (targets : list string) (table : string)
    (events : list ChangeEvent) : list Applied :=
  events ≫= (λ e, match operation e with
                  | DELETE => (λ t, Deleted t table (row_id e)) <$> targets
                  | _ => []
                  end).

(** A DELETE of row 1 followed, in the same batch, by an INSERT of
    row 1. *)
Definition ev_delete_1 : ChangeEvent :=
  mkChangeEvent "1:users:1" 1 "2024-01-01 00:00:00" DELETE "users" (RInt 1)
    (Some [("id", VInt 1)]) None.

Definition ev_insert_1 : ChangeEvent :=
  mkChangeEvent "2:users:1" 2 "2024-01-01 00:00:00" INSERT "users" (RInt 1)
    None (Some [("id", VInt 1)]).

(** A configuration that maps the table [orders] only. *)
Definition cfg_orders_only : SyncConfig :=
  mkSyncConfig "source.db" ["T1"; "T2"]
    [mkTableMapping "orders" (Some "orders") [] None "id"] 2.

(** *** A source that answers the page queries of a table

    What SQLite answers to the two statements of [_fetch_batch] on a
    table with an integer key: [content] holds the rows of the table in
    key order, [key] gives a row's key and [render] its column values.
    The first page holds the first [n] rows, the page after [k] the
    first [n] rows whose key is greater than [k]; reading leaves the
    connection as it was. *)
Definition answers_page_queries {Src R : Type}
    (source_execute :
       string → list PyVal → Src
       → PyResult (list string * list (list PyVal)) * Src)
    (key : R → Z) (render : R → list PyVal) (table pk_column : string)
    (n : Z) (columns : list string) (content : list R) (src : Src) : Prop :=
  source_execute (select_first_page table pk_column n) [] src
  = (Ok (columns, render <$> take (Z.to_nat n) content), src)
  ∧ ∀ k, source_execute (select_next_page table pk_column n) [VInt k] src
         = (Ok (columns,
                render <$> take (Z.to_nat n)
                             (List.filter (λ r, k <? key r) content)), src).

(** The rows are in strictly ascending key order and each row holds its
    key in the key column. *)
Definition keyed_rows {R : Type} (key : R → Z) (render : R → list PyVal)
    (pk_column : string) (columns : list string) (content : list R) : Prop :=
  StronglySorted Z.lt (key <$> content)
  ∧ Forall (λ r, dict_get (dict_of_pairs (zip columns (render r))) pk_column
                 = Some (VInt (key r))) content.

(** The mapping of [users] in [cfg_two]. *)
Definition users_mapping : TableMapping :=
  mkTableMapping "users" (Some "users") [] None "id".

(** A row of [users_five] as the dict that [_fetch_batch] builds. *)
Definition users_dict (r : Z * string) : Dict :=
  dict_of_pairs (zip ["id"; "name"] (users_row r)).

(** The environment of [sync_users] before a fresh run. *)
Definition users_logged_env
    : SyncEnv (list (Z * string)
               * list (string * list PyVal * PyResult (list Dict)))
        (list Applied) :=
  mkSyncEnv _ _ (users_five, []) [] ∅.

(** Where the pagination stands: the rows already copied and the rows
    still to copy, separated by the key [last_pk]. *)
Definition stands_at {R : Type} (key : R → Z) (content : list R)
    (last_pk : option PyVal) (done rest : list R) : Prop :=
  content = done ++ rest
  ∧ match last_pk with
    | None => done = []
    | Some v => ∃ k, v = VInt k ∧ Forall (λ r, key r <= k) done
                  ∧ Forall (λ r, k < key r) rest
    end.

(** ** More of the checkpoint store: [storage/checkpoint.py] *)

(** [CheckpointStore.mark_initial_complete]: an [UPDATE] of the status
    column of the row with that key, if there is one. *)
Definition mark_initial_complete
    (store : gmap (string * string) CheckpointRow) (path table : string)
    : gmap (string * string) CheckpointRow :=
  alter (λ row, mkCheckpointRow (c_last_pk row) (c_total_synced row)
                  (SyncState_value COMPLETED))
    (path, table) store.

(** [CheckpointStore.delete_initial_checkpoint] *)
Definition delete_initial_checkpoint
    (store : gmap (string * string) CheckpointRow) (path table : string)
    : gmap (string * string) CheckpointRow :=
  delete (path, table) store.

(** A checkpoint object that exists: one the constructor accepts. *)
Definition InitialSyncCheckpoint_valid (ck : InitialSyncCheckpoint) : Prop :=
  InitialSyncCheckpoint_new (ck_table_name ck) (ck_last_pk ck)
    (ck_total_synced ck) (ck_status ck) = Ok ck.

(** A checkpoint of an interrupted copy of [users], at key 0 and at the
    text key ["007"]. *)
Definition ck_at_zero : InitialSyncCheckpoint :=
  mkInitialSyncCheckpoint "users" (Some (VInt 0)) 1 RUNNING.

Definition ck_at_text : InitialSyncCheckpoint :=
  mkInitialSyncCheckpoint "users" (Some (VStr "007")) 7 RUNNING.

(** A position of target [T1] at audit id 12. *)
Definition pos_T1 : SyncPosition :=
  mkSyncPosition "source.db" "T1" 12 "2024-01-01T00:00:00" 12.

(** *** Inputs: a statement that names the row by a column *)

(** The connection of the examples when nothing fails. *)
Definition raw_execute_fine :
    string → Params → list (string * Params)
    → PyResult Cursor * list (string * Params) :=
  raw_execute_demo false false.

Definition conn_all : CDCConnection := mkCDCConnection "_cdc_audit_log" [].

(** *** What a field becomes in [DataTransformer.transform]

    The body of the loop of [transform]: the name under which a field
    of the row is written and the value written. *)
Definition transformed_field
    (convert : PyVal → ConverterType → Dict → PyVal) (m : TableMapping)
    (kv : string * PyVal) : string * PyVal :=
  match field_converter m kv.1 with
  | Some fm =>
      (str_or (target_field fm) kv.1,
       match converter fm with
       | Some c => convert kv.2 c (converter_params fm)
       | None => kv.2
       end)
  | None => kv
  end.

(** A mapping of [users] that writes both [name] and [nick] to the
    column [label]. *)
Definition colliding_mapping : TableMapping :=
  mkTableMapping "users" (Some "users")
    [ mkFieldMapping "name" (Some "label") None [];
      mkFieldMapping "nick" (Some "label") None [] ]
    None "id".

(** ** The converters: [utils/converters.py] *)

Definition lower_char (c : ascii) : ascii :=
  let n := nat_of_ascii c in
  if ((65 <=? n)%nat && (n <=? 90)%nat) then ascii_of_nat (n + 32) else c.

(** [s.lower()] *)
Fixpoint str_lower (s : string) : string :=
  match s with
  | EmptyString => EmptyString
  | String c s' => String (lower_char c) (str_lower s')
  end.

(** What a call gives: a value, or an exception named by its class. *)
Inductive Outcome (A : Type) : Type :=
| Returns (a : A)
| Raises (exception : string).
Arguments Returns {A} a.
Arguments Raises {A} exception.

(** [except (ValueError, TypeError)] *)
Definition caught (exception : string) : bool :=
  String.eqb exception "ValueError" || String.eqb exception "TypeError".

(** [bool(value)] on text, numbers and containers. *)
Definition truthy (float_is_zero : string → bool) (v : PyVal) : bool :=
  match v with
  | VNone => false
  | VBool b => b
  | VInt z => negb (z =? 0)
  | VFloat r => negb (float_is_zero r)
  | VStr s => negb (String.eqb s "")
  | VList l => negb (is_none (head l)) 
  | VDict d => negb (is_none (head d))
  end.

Section Converters.

(** [repr] of containers, and the float arithmetic of the interpreter:
    [float] of a text (nothing for a [ValueError]) and of an integer
    (nothing for an [OverflowError]), [int] of a float (a [ValueError]
    for a NaN, an [OverflowError] for an infinity), and the test for
    zero.  A float is carried as its [repr]. *)
Variable repr : PyVal → string.
Variable float_of_text : string → option string.
Variable float_of_int : Z → option string.
Variable int_of_float : string → Outcome Z.
Variable float_is_zero : string → bool.

(** [_lowercase] *)
Definition _lowercase (value : PyVal) (params : Dict) : PyVal :=
  match value with
  | VNone => VNone
  | _ => VStr (str_lower (str_val repr value))
  end.

(** [_uppercase] *)
Definition _uppercase (value : PyVal) (params : Dict) : PyVal :=
  match value with
  | VNone => VNone
  | _ => VStr (Py.upper (str_val repr value))
  end.

(** [_trim] *)
Definition _trim (value : PyVal) (params : Dict) : PyVal :=
  match value with
  | VNone => VNone
  | _ => VStr (Py.strip (str_val repr value))
  end.

(** [value is None or value == ""] *)
Definition none_or_empty (value : PyVal) : bool :=
  match value with
  | VNone => true
  | VStr s => String.eqb s ""
  | _ => false
  end.

(** [_default]: [params.get("value")] is [None] without that key. *)
Definition _default (value : PyVal) (params : Dict) : PyVal :=
  if none_or_empty value then default VNone (dict_get params "value")
  else value.

(** [str(value)], [int(value)], [float(value)] and [bool(value)]. *)
Definition to_str (value : PyVal) : Outcome PyVal :=
  Returns (VStr (str_val repr value)).

Definition to_int (value : PyVal) : Outcome PyVal :=
  match value with
  | VBool b => Returns (VInt (if b then 1 else 0))
  | VInt z => Returns (VInt z)
  | VFloat r =>
      match int_of_float r with
      | Returns z => Returns (VInt z)
      | Raises e => Raises e
      end
  | VStr s =>
      match Py.int s with
      | Some z => Returns (VInt z)
      | None => Raises "ValueError"
      end
  | VNone | VList _ | VDict _ => Raises "TypeError"
  end.

Definition to_float (value : PyVal) : Outcome PyVal :=
  match value with
  | VBool b => Returns (VFloat (if b then "1.0" else "0.0"))
  | VInt z =>
      match float_of_int z with
      | Some r => Returns (VFloat r)
      | None => Raises "OverflowError"
      end
  | VFloat r => Returns (VFloat r)
  | VStr s =>
      match float_of_text s with
      | Some r => Returns (VFloat r)
      | None => Raises "ValueError"
      end
  | VNone | VList _ | VDict _ => Raises "TypeError"
  end.

Definition to_bool (value : PyVal) : Outcome PyVal :=
  Returns (VBool (truthy float_is_zero value)).

(** [type_map] *)
Definition type_map (target_type : string) : option (PyVal → Outcome PyVal) :=
  if String.eqb target_type "str" then Some to_str
  else if String.eqb target_type "int" then Some to_int
  else if String.eqb target_type "float" then Some to_float
  else if String.eqb target_type "bool" then Some to_bool
  else None.

(** [_typecast].  The test [target_type in type_map] hashes
    [target_type], which raises for a list or a dict; a [ValueError] or
    [TypeError] of the conversion gives the value back, any other
    exception leaves the function. *)
Definition _typecast (value : PyVal) (params : Dict) : Outcome PyVal :=
  let target_type := default (VStr "str") (dict_get params "target_type") in
  match value with
  | VNone => Returns VNone
  | _ =>
      match target_type with
      | VList _ | VDict _ => Raises "TypeError"
      | VStr name =>
          match type_map name with
          | Some f =>
              match f value with
              | Returns v => Returns v
              | Raises e => if caught e then Returns value else Raises e
              end
          | None => Returns value
          end
      | _ => Returns value
      end
  end.

(** [convert]: every member of [ConverterType] is in the registry. *)
Definition convert_value (value : PyVal) (converter_type : ConverterType)
    (params : Dict) : Outcome PyVal :=
  match converter_type with
  | LOWERCASE => Returns (_lowercase value params)
  | UPPERCASE => Returns (_uppercase value params)
  | TRIM => Returns (_trim value params)
  | DEFAULT => Returns (_default value params)
  | TYPECAST => _typecast value params
  end.

End Converters.

(** The float arithmetic on the texts used in the examples. *)
Definition float_of_text_demo (s : string) : option string :=
  if String.eqb s "1.5" then Some "1.5" else None.

Definition float_of_int_demo (z : Z) : option string :=
  Some (Py.str_int z +:+ ".0").

Definition int_of_float_demo (r : string) : Outcome Z :=
  if String.eqb r "inf" then Raises "OverflowError"
  else if String.eqb r "nan" then Raises "ValueError"
  else if String.eqb r "1.5" then Returns 1
  else Returns 0.

Definition float_is_zero_demo (r : string) : bool := String.eqb r "0.0".

(** ** More of the classifier: [is_write_operation] *)

(** [is_write_operation] *)
Definition is_write_operation (sql : string) : bool :=
  negb (is_none (parse_operation sql)).

(** Every character of the text is a word character. *)
Definition word_text (s : string) : Prop :=
  Forall (λ c, is_word c = true) (list_ascii_of_string s).

(** ** The MySQL writer: [targets/mysql_writer.py] *)

(** [range(start, stop, step)] for a positive step, as the list of its
    elements; [fuel] bounds their number. *)
Fixpoint range_from (fuel start stop step : nat) : list nat :=
  match fuel with
  | O => []
  | S fuel' =>
      if (start <? stop)%nat
      then start :: range_from fuel' (start + step) stop step
      else []
  end.

(** [self._batch_size = config.batch_size or 100] *)
Definition writer_batch_size (configured : option Z) : Z :=
  match configured with
  | None | Some 0 => 100
  | Some n => n
  end.

(** The batches of the loop
    [for i in range(0, len(rows), batch_size): batch = rows[i:i + batch_size]]:
    a step of 0 makes [range] raise, a negative step gives no turn. *)
Definition mysql_batches (batch_size : Z) (rows : list Dict)
    : PyResult (list (list Dict)) :=
  if batch_size =? 0 then Raise ValueError
  else if batch_size <? 0 then Ok []
  else
    Ok ((λ i, take (Z.to_nat batch_size) (drop i rows))
          <$> range_from (length rows) 0 (length rows) (Z.to_nat batch_size)).

Section MySQLWriter.

(** [_upsert_batch] on what the writer writes to: the statement built
    from the batch is run and committed, or an exception is raised. *)
Variable Target : Type.
Variable _upsert_batch : string → list Dict → Target → PyResult unit * Target.

Fixpoint upsert_batches (table : string) (batches : list (list Dict))
    (w : Target) : PyResult unit * Target :=
  match batches with
  | [] => (Ok (), w)
  | batch :: batches' =>
      match _upsert_batch table batch w with
      | (Raise e, w') => (Raise e, w')
      | (Ok _, w') => upsert_batches table batches' w'
      end
  end.

(** [MySQLTargetWriter.batch_upsert]; [connected] tells whether the
    pool exists. *)
Definition mysql_batch_upsert (connected : bool) (batch_size : Z)
    (table : string) (rows : list Dict) (w : Target)
    : PyResult unit * Target :=
  if negb connected then (Raise RuntimeError, w)
  else
    match rows with
    | [] => (Ok (), w)
    | _ =>
        match mysql_batches batch_size rows with
        | Raise e => (Raise e, w)
        | Ok batches => upsert_batches table batches w
        end
    end.

End MySQLWriter.

(** A writer that records the batches it is given. *)
Definition upsert_batch_recorded (table : string) (batch : list Dict)
    (w : list (string * list Dict)) : PyResult unit * list (string * list Dict) :=
  (Ok (), w ++ [(table, batch)]).


(* ===================================================================== *)
(** * Part II: lemmas and theorems                                        *)
(* ===================================================================== *)

(** ** Facts about the text builtins *)

#[local] Arguments String.append (s1 s2)%_string_scope : simpl nomatch.

Section PyFacts.

Lemma string_app_assoc (a b c : string) : (a +:+ b) +:+ c = a +:+ (b +:+ c).
Proof. induction a as [|x a IH]; simpl; [reflexivity | by f_equal]. Qed.

Lemma string_app_nil_r (a : string) : a +:+ "" = a.
Proof. induction a as [|x a IH]; simpl; [reflexivity | by f_equal]. Qed.

(** Digits read back with a positive accumulator. *)
Lemma digits_uint_pos (d : Decimal.uint) (a : positive) :
  Py.digits (NilEmpty.string_of_uint d) (Z.pos a) true
  = Some (Z.pos (Pos.of_uint_acc d a)).
Proof.
  revert a; induction d; intros a; simpl; [reflexivity | ..];
    (etransitivity; [| apply IHd]); f_equal; lia.
Qed.

Lemma digits_uint_zero (d : Decimal.uint) :
  Py.digits (NilEmpty.string_of_uint d) 0 true = Some (Z.of_N (Pos.of_uint d)).
Proof.
  induction d; simpl; [reflexivity | exact IHd | ..]; apply digits_uint_pos.
Qed.

Lemma digits_uint_start (d : Decimal.uint) :
  d ≠ Decimal.Nil →
  Py.digits (NilEmpty.string_of_uint d) 0 false = Some (Z.of_N (Pos.of_uint d)).
Proof.
  destruct d; intros Hd; [done | ..]; simpl;
    first [apply digits_uint_zero | apply digits_uint_pos].
Qed.

Lemma rstrip_uint (d : Decimal.uint) :
  Py.rstrip (NilEmpty.string_of_uint d) = NilEmpty.string_of_uint d.
Proof.
  induction d; simpl; [reflexivity | ..]; rewrite IHd;
    by destruct (NilEmpty.string_of_uint d).
Qed.

Lemma lstrip_uint (d : Decimal.uint) :
  Py.lstrip (NilEmpty.string_of_uint d) = NilEmpty.string_of_uint d.
Proof. by destruct d. Qed.

Lemma to_uint_not_nil (p : positive) : Pos.to_uint p ≠ Decimal.Nil.
Proof.
  intros H. pose proof (Unsigned.of_to p) as E. rewrite H in E. discriminate.
Qed.

Lemma int_uint (d : Decimal.uint) :
  d ≠ Decimal.Nil →
  Py.int (NilEmpty.string_of_uint d) = Some (Z.of_N (Pos.of_uint d)).
Proof.
  intros Hd. unfold Py.int, Py.strip. rewrite lstrip_uint, rstrip_uint.
  rewrite <- (digits_uint_start d Hd). by destruct d.
Qed.

(** [int(str(n)) == n] for every integer. *)
Lemma int_str_int (z : Z) : Py.int (Py.str_int z) = Some z.
Proof.
  destruct z as [|p|p]; [reflexivity | ..]; unfold Py.str_int; simpl.
  - rewrite int_uint by apply to_uint_not_nil. by rewrite Unsigned.of_to.
  - unfold Py.int, Py.strip. simpl. rewrite rstrip_uint.
    pose proof (to_uint_not_nil p) as Hn.
    destruct (NilEmpty.string_of_uint (Pos.to_uint p)) eqn:E.
    { destruct (Pos.to_uint p); done. }
    rewrite <- E, (digits_uint_start _ Hn), Unsigned.of_to. reflexivity.
Qed.

(** The first piece of [(str(n) + ":" + rest).split(":")], [n >= 0]. *)
Lemma split_uint_colon (d : Decimal.uint) (cur rest : string) :
  hd EmptyString
     (Py.split_aux ":" (NilEmpty.string_of_uint d +:+ String ":" rest) O cur)
  = cur +:+ NilEmpty.string_of_uint d.
Proof.
  revert cur; induction d; intros cur; simpl;
    [ rewrite string_app_nil_r; by destruct rest | ..];
    rewrite IHd, string_app_assoc; reflexivity.
Qed.

Lemma split_event_id (aid : Z) (table : string) (rid : RowId) :
  0 <= aid →
  hd EmptyString (Py.split (format_event_id aid table rid) ":") = Py.str_int aid.
Proof.
  intros Ha. unfold Py.split, format_event_id, Py.str_int.
  destruct aid as [|p|p]; [| | lia]; simpl.
  - apply (split_uint_colon (Decimal.D0 Decimal.Nil) EmptyString).
  - apply (split_uint_colon _ EmptyString).
Qed.

End PyFacts.

(** ** Round trip between change events and audit-log records *)

Section RoundTrip.

Lemma ChangeEvent_new_inv eid aid ts op table rid before after e :
  ChangeEvent_new eid aid ts op table rid before after = Ok e →
  0 <= aid ∧ eid = format_event_id aid table rid
  ∧ ChangeEvent_data_consistent op before after = true
  ∧ e = mkChangeEvent eid aid ts op table rid before after.
Proof.
  unfold ChangeEvent_new. intros H.
  destruct (0 <=? aid) eqn:Ha; [| discriminate]; simpl in H.
  destruct (String.eqb eid (format_event_id aid table rid)) eqn:He;
    [| discriminate]; simpl in H.
  destruct (ChangeEvent_data_consistent op before after) eqn:Hc;
    [| discriminate]; simpl in H.
  apply Z.leb_le in Ha. apply String.eqb_eq in He. by inversion H.
Qed.

Lemma ChangeEvent_new_ok aid ts op table rid before after :
  0 <= aid →
  ChangeEvent_data_consistent op before after = true →
  ChangeEvent_new (format_event_id aid table rid) aid ts op table rid before after
  = Ok (mkChangeEvent (format_event_id aid table rid) aid ts op table rid
          before after).
Proof.
  intros Ha Hc. unfold ChangeEvent_new.
  apply Z.leb_le in Ha. rewrite Ha, String.eqb_refl, Hc. reflexivity.
Qed.

Lemma event_consistent_audit_consistent op before after :
  ChangeEvent_data_consistent op before after = true →
  AuditLog_data_consistent op before after = true.
Proof. by destruct op. Qed.

(** What [from_change_event] builds from an event that exists. *)
Lemma from_change_event_valid (e : ChangeEvent) :
  ChangeEvent_valid e →
  from_change_event e
  = Ok (mkAuditLog (audit_id e) (table_name e) (operation e)
          (Some (RowId_str (row_id e))) (before_data e) (after_data e)
          (timestamp e) None 0).
Proof.
  intros Hv. apply ChangeEvent_new_inv in Hv as (Ha & He & Hc & _).
  unfold from_change_event. rewrite He, split_event_id, int_str_int by done.
  unfold AuditLog_new. simpl.
  by rewrite (event_consistent_audit_consistent _ _ _ Hc).
Qed.

Lemma try_int_row_id_int (z : Z) : try_int_row_id (RowId_str (RInt z)) = RInt z.
Proof. unfold try_int_row_id. simpl. by rewrite int_str_int. Qed.

Lemma try_int_row_id_text (s : string) :
  Py.int s = None → try_int_row_id (RowId_str (RStr s)) = RStr s.
Proof. unfold try_int_row_id. simpl. by intros ->. Qed.

(** The composition on an event that exists: every field is kept
    except that the key is re-read from its text. *)
Lemma round_trip_general (e : ChangeEvent) :
  ChangeEvent_valid e →
  ∃ a, from_change_event e = Ok a
    ∧ to_change_event a
      = Ok (mkChangeEvent
              (format_event_id (audit_id e) (table_name e)
                 (try_int_row_id (RowId_str (row_id e))))
              (audit_id e) (timestamp e) (operation e) (table_name e)
              (try_int_row_id (RowId_str (row_id e)))
              (before_data e) (after_data e)).
Proof.
  intros Hv. eexists. split; [by apply from_change_event_valid |].
  apply ChangeEvent_new_inv in Hv as (Ha & He & Hc & _).
  unfold to_change_event. simpl. by apply ChangeEvent_new_ok.
Qed.

(** A key that is text which [int()] reads comes back as that integer. *)
Lemma round_trip_numeric_text (e : ChangeEvent) (s : string) (z : Z) :
  ChangeEvent_valid e → row_id e = RStr s → Py.int s = Some z →
  ∃ a e', from_change_event e = Ok a ∧ to_change_event a = Ok e'
    ∧ row_id e' = RInt z.
Proof.
  intros Hv Hr Hz. destruct (round_trip_general e Hv) as (a & Ha & He).
  eexists _, _. split; [exact Ha |]. split; [exact He |]. simpl.
  rewrite Hr. unfold try_int_row_id. simpl. by rewrite Hz.
Qed.




End RoundTrip.

(** ** The audit reader *)

Section ReaderFacts.

Variable json_loads : string → PyResult PyVal.
Variable fromisoformat : string → PyResult datetime.

#[local] Abbreviation to_event := (row_to_event json_loads fromisoformat).
#[local] Abbreviation convert := (convert_rows json_loads fromisoformat).
#[local] Abbreviation fetch := (fetch_batch json_loads fromisoformat).

#[local] Instance id_le_trans : Transitive id_le.
Proof. intros x y z. unfold id_le. lia. Qed.

#[local] Instance id_le_total : Total id_le.
Proof. intros x y. unfold id_le. lia. Qed.

(** A list sorted by key without repeated keys is strictly sorted. *)
Lemma sorted_nodup_strict (l : list (Z * AuditRow)) :
  StronglySorted id_le l → NoDup l.*1 → StronglySorted id_lt l.
Proof.
  induction 1 as [| x l Hs IH Hall]; intros Hnd; [constructor |].
  rewrite fmap_cons in Hnd. apply NoDup_cons in Hnd as [Hx Hnd].
  constructor; [by apply IH |].
  rewrite Forall_forall in Hall |- *. intros y Hy.
  specialize (Hall y Hy). unfold id_le, id_lt in *.
  assert (x.1 ≠ y.1); [| lia].
  intros E. apply Hx. rewrite E. by apply list_elem_of_fmap_2.
Qed.

Lemma strict_sublist (l k : list (Z * AuditRow)) :
  l `sublist_of` k → StronglySorted id_lt k → StronglySorted id_lt l.
Proof.
  induction 1 as [| x l k Hsub IH | x l k Hsub IH]; intros Hk.
  - constructor.
  - apply StronglySorted_cons in Hk as [Hall Hk].
    apply StronglySorted_cons. split; [| by apply IH].
    rewrite Forall_forall in Hall |- *. intros y Hy. apply Hall.
    by eapply elem_of_sublist.
  - apply StronglySorted_cons in Hk as [_ Hk]. by apply IH.
Qed.

Lemma sql_limit_sublist {A : Type} (n : Z) (l : list A) :
  sql_limit n l `sublist_of` l.
Proof. unfold sql_limit. destruct (n <? 0); [done | apply sublist_take]. Qed.

Lemma sql_limit_length {A : Type} (n : Z) (l : list A) :
  0 <= n → Z.of_nat (length (sql_limit n l)) <= n.
Proof.
  intros Hn. unfold sql_limit.
  destruct (n <? 0) eqn:E; [apply Z.ltb_lt in E; lia |].
  rewrite length_take. lia.
Qed.

(** The rows the query returns: stored, unconsumed, beyond the cursor. *)
Lemma select_unconsumed_elem rows last_id limit i r :
  (i, r) ∈ select_unconsumed rows last_id limit →
  rows !! i = Some r ∧ last_id < i ∧ r_consumed_at r = None.
Proof.
  unfold select_unconsumed. intros H.
  eapply elem_of_sublist in H; [| apply sql_limit_sublist].
  rewrite merge_sort_Permutation in H.
  apply list_elem_of_filter in H as [[H1 H2] H3].
  apply elem_of_map_to_list in H3. done.
Qed.

(** The rows the query returns are in strictly ascending key order. *)
Lemma select_unconsumed_sorted rows last_id limit :
  StronglySorted id_lt (select_unconsumed rows last_id limit).
Proof.
  unfold select_unconsumed.
  eapply strict_sublist; [apply sql_limit_sublist |].
  apply sorted_nodup_strict.
  - apply StronglySorted_merge_sort; apply _.
  - rewrite merge_sort_Permutation.
    eapply sublist_NoDup; [apply (NoDup_fst_map_to_list rows) |].
    apply fmap_sublist, sublist_filter.
Qed.

Lemma select_unconsumed_length rows last_id limit :
  0 <= limit →
  Z.of_nat (length (select_unconsumed rows last_id limit)) <= limit.
Proof. apply sql_limit_length. Qed.

Lemma bind_ok {A B : Type} (r : PyResult A) (k : A → PyResult B) (b : B) :
  bind r k = Ok b → ∃ a, r = Ok a ∧ k a = Ok b.
Proof. destruct r as [a | e]; simpl; [eauto | discriminate]. Qed.

Lemma AuditLog_new_inv id table op rid before after created consumed retry a :
  AuditLog_new id table op rid before after created consumed retry = Ok a →
  0 <= retry ∧ AuditLog_data_consistent op before after = true
  ∧ a = mkAuditLog id table op rid before after created consumed retry.
Proof.
  unfold AuditLog_new. intros H.
  destruct (0 <=? retry) eqn:Hr; [| discriminate]; simpl in H.
  destruct (AuditLog_data_consistent op before after) eqn:Hc;
    [| discriminate]; simpl in H.
  apply Z.leb_le in Hr. by inversion H.
Qed.

Lemma _row_to_audit_log_id id row a :
  _row_to_audit_log json_loads fromisoformat id row = Ok a → al_id a = id.
Proof.
  unfold _row_to_audit_log. intros H.
  apply bind_ok in H as (before & _ & H).
  apply bind_ok in H as (after & _ & H).
  apply bind_ok in H as (created & _ & H).
  destruct (OperationType_of_value (r_operation row)); [| discriminate].
  apply bind_ok in H as (bd & _ & H).
  apply bind_ok in H as (ad & _ & H).
  apply AuditLog_new_inv in H as (_ & _ & ->). reflexivity.
Qed.

(** The event made from a row carries the row's key. *)
Lemma row_to_event_audit_id x e : to_event x = Ok e → audit_id e = x.1.
Proof.
  unfold row_to_event. intros H.
  apply bind_ok in H as (a & Ha & H).
  apply _row_to_audit_log_id in Ha.
  unfold to_change_event in H.
  apply ChangeEvent_new_inv in H as (_ & _ & _ & ->). simpl. done.
Qed.

(** The loop of [fetch_batch] when no conversion raises. *)
Lemma convert_rows_ok rows evs c evs' c' :
  convert rows evs c = (Ok evs', c') →
  ∃ es, evs' = evs ++ es
    ∧ Forall2 (λ x e, to_event x = Ok e) rows es
    ∧ c <= c'
    ∧ (∀ e, e ∈ es → audit_id e <= c')
    ∧ (c' = c ∨ c' ∈ audit_id <$> es).
Proof.
  revert evs c. induction rows as [| x rows IH]; intros evs c H; simpl in H.
  - inversion H; subst. exists []. rewrite app_nil_r.
    repeat split; [constructor | lia | by intros e ?%elem_of_nil | by left].
  - destruct (to_event x) as [e | ex] eqn:Ex; [| by inversion H].
    apply IH in H as (es & -> & HF & Hc & Hall & Hin).
    exists (e :: es). rewrite <- app_assoc. simpl.
    assert (c <= c' ∧ audit_id e <= c') as [? ?]
      by (destruct (c <? audit_id e) eqn:E;
          [apply Z.ltb_lt in E | apply Z.ltb_ge in E]; lia).
    repeat split; [by constructor | done | |].
    + intros e' [-> | He']%elem_of_cons; [done | by apply Hall].
    + destruct Hin as [-> | Hin]; [| right; by apply elem_of_cons; right].
      destruct (c <? audit_id e) eqn:E; [right; by apply elem_of_cons; left | by left].
Qed.

Lemma Forall2_rows_events rows es :
  Forall2 (λ x e, to_event x = Ok e) rows es →
  audit_id <$> es = rows.*1.
Proof.
  induction 1 as [| x e rows es Hx _ IH]; [reflexivity |].
  rewrite !fmap_cons, IH. f_equal. by apply row_to_event_audit_id.
Qed.

Lemma strict_rows_ids (rows : list (Z * AuditRow)) :
  StronglySorted id_lt rows → StronglySorted Z.lt rows.*1.
Proof.
  induction 1 as [| x l Hs IH Hall]; [constructor |].
  rewrite fmap_cons. constructor; [done |].
  rewrite Forall_fmap. by eapply Forall_impl.
Qed.

Lemma row_to_event_nonneg x e : to_event x = Ok e → 0 <= audit_id e.
Proof.
  unfold row_to_event. intros H. apply bind_ok in H as (a & _ & H).
  unfold to_change_event in H.
  apply ChangeEvent_new_inv in H as (Ha & _ & _ & ->). done.
Qed.

(** The cursor never moves back in the loop, whatever its outcome. *)
Lemma convert_rows_cursor_mono rows evs c :
  c <= (convert rows evs c).2.
Proof.
  revert evs c. induction rows as [| x rows IH]; intros evs c; simpl; [lia |].
  destruct (to_event x) as [e | ex]; simpl; [| lia].
  etransitivity; [| apply IH]. destruct (c <? audit_id e) eqn:E; [| lia].
  apply Z.ltb_lt in E. lia.
Qed.

Lemma fetch_batch_cursor_mono src rd :
  rd_last_audit_id rd <= rd_last_audit_id (fetch src rd).2
  ∧ rd_batch_size (fetch src rd).2 = rd_batch_size rd
  ∧ rd_running (fetch src rd).2 = rd_running rd.
Proof.
  unfold fetch_batch. destruct (rd_running rd) eqn:Er; simpl;
    [| repeat split; [lia | done]].
  destruct (_fetch_unconsumed _ _ _) as [| x rows];
    [repeat split; [simpl; lia | done] |].
  pose proof (convert_rows_cursor_mono (x :: rows) [] (rd_last_audit_id rd)) as H.
  destruct (convert (x :: rows) [] (rd_last_audit_id rd)) as [r c]. simpl in *.
  done.
Qed.

(** What a returned batch is: empty with the reader untouched, or the
    conversion of the rows of the query. *)
Lemma fetch_batch_inv src rd events rd' :
  fetch src rd = (Ok events, rd') →
  (events = [] ∧ rd' = rd)
  ∨ (events ≠ []
     ∧ Forall2 (λ x e, to_event x = Ok e)
         (select_unconsumed (audit_rows src) (rd_last_audit_id rd)
            (rd_batch_size rd)) events
     ∧ rd_batch_size rd' = rd_batch_size rd
     ∧ rd_running rd' = rd_running rd
     ∧ rd_last_audit_id rd <= rd_last_audit_id rd'
     ∧ (∀ e, e ∈ events → audit_id e <= rd_last_audit_id rd')
     ∧ (rd_last_audit_id rd' = rd_last_audit_id rd
        ∨ rd_last_audit_id rd' ∈ audit_id <$> events)).
Proof.
  intros H. unfold fetch_batch in H.
  destruct (rd_running rd) eqn:Er; simpl in H; [| left; by inversion H].
  unfold _fetch_unconsumed in H.
  destruct (src_available src); [| left; by inversion H].
  destruct (select_unconsumed (audit_rows src) (rd_last_audit_id rd)
              (rd_batch_size rd)) as [| x rows]; [left; by inversion H |].
  destruct (convert (x :: rows) [] (rd_last_audit_id rd)) as [r c] eqn:Ec.
  inversion H; subst r rd'; clear H. simpl.
  apply convert_rows_ok in Ec as (es & Hes & HF & Hc & Hall & Hin).
  simpl in Hes. subst es. right.
  split; [intros ->; by inversion HF |]. done.
Qed.

Lemma fetch_batch_events_beyond src rd events rd' e :
  fetch src rd = (Ok events, rd') → e ∈ events →
  0 <= audit_id e
  ∧ ∃ r, audit_rows src !! audit_id e = Some r
      ∧ r_consumed_at r = None ∧ rd_last_audit_id rd < audit_id e.
Proof.
  intros H He. apply fetch_batch_inv in H as [[-> _] | (_ & HF & _)];
    [by apply elem_of_nil in He |].
  apply list_elem_of_lookup in He as [n Hn].
  destruct (Forall2_lookup_r _ _ _ _ _ HF Hn) as ([i r] & Hx & Hxe).
  split; [by eapply row_to_event_nonneg |].
  apply row_to_event_audit_id in Hxe. simpl in Hxe. rewrite Hxe.
  apply list_elem_of_lookup_2, select_unconsumed_elem in Hx as (? & ? & ?).
  eauto.
Qed.

(** After a non-empty batch the cursor is the largest id of the batch. *)
Lemma fetch_batch_cursor_max src rd events rd' :
  fetch src rd = (Ok events, rd') → events ≠ [] →
  rd_last_audit_id rd < rd_last_audit_id rd'
  ∧ rd_last_audit_id rd' ∈ audit_id <$> events
  ∧ ∀ e, e ∈ events → audit_id e <= rd_last_audit_id rd'.
Proof.
  intros H Hne.
  pose proof (λ e, fetch_batch_events_beyond _ _ _ _ e H) as Hgt.
  apply fetch_batch_inv in H as [[-> _] | (_ & HF & _ & _ & Hc & Hall & Hin)];
    [done |].
  destruct events as [| e events]; [done |].
  destruct (Hgt e) as (_ & _ & _ & _ & Hlt); [by left |].
  specialize (Hall e (ltac:(by left))) as He.
  split; [lia |]. split; [| done].
  destruct Hin as [E | Hin]; [lia | done].
Qed.


(** [fetch_batch] returns the whole batch when every row converts. *)
Lemma convert_rows_all rows es evs c :
  Forall2 (λ x e, to_event x = Ok e) rows es →
  ∃ c', convert rows evs c = (Ok (evs ++ es), c').
Proof.
  intros HF. revert evs c. induction HF as [| x e rows es Hx _ IH]; intros evs c.
  - exists c. simpl. by rewrite app_nil_r.
  - simpl. rewrite Hx.
    destruct (IH (evs ++ [e])
                (if c <? audit_id e then audit_id e else c)) as [c' Hc'].
    exists c'. by rewrite Hc', <- app_assoc.
Qed.

Lemma load_payload_malformed s :
  json_loads s = Raise JSONDecodeError →
  load_payload json_loads (Some s) = Ok None.
Proof. intros H. unfold load_payload. rewrite H. by destruct (String.eqb s ""). Qed.

Lemma load_payload_null_if s o :
  json_loads s = Raise JSONDecodeError →
  load_payload json_loads (null_if s o) = load_payload json_loads o.
Proof.
  intros H. destruct o as [s' |]; [| reflexivity]. unfold null_if.
  destruct (String.eqb s' s) eqn:E; [| reflexivity].
  apply String.eqb_eq in E as ->. symmetry. by apply load_payload_malformed.
Qed.

(** A malformed payload is read exactly as a NULL column. *)
Lemma row_to_event_null_payload s x :
  json_loads s = Raise JSONDecodeError →
  to_event x = to_event (x.1, null_payload s x.2).
Proof.
  intros H. unfold row_to_event, _row_to_audit_log. simpl.
  by rewrite !load_payload_null_if.
Qed.

(** What a converted row's event holds. *)
Lemma row_to_event_inv x e :
  to_event x = Ok e →
  ∃ before after,
    load_payload json_loads (r_before_data x.2) = Ok before
    ∧ load_payload json_loads (r_after_data x.2) = Ok after
    ∧ validate_optional_dict before = Ok (before_data e)
    ∧ validate_optional_dict after = Ok (after_data e)
    ∧ OperationType_of_value (r_operation x.2) = Some (operation e)
    ∧ ChangeEvent_data_consistent (operation e) (before_data e) (after_data e)
      = true.
Proof.
  unfold row_to_event, _row_to_audit_log. intros H.
  apply bind_ok in H as (a & Ha & H).
  apply bind_ok in Ha as (before & Hb & Ha).
  apply bind_ok in Ha as (after & Haf & Ha).
  apply bind_ok in Ha as (created & _ & Ha).
  destruct (OperationType_of_value (r_operation x.2)) as [op |] eqn:Eop;
    [| discriminate].
  apply bind_ok in Ha as (bd & Hbd & Ha).
  apply bind_ok in Ha as (ad & Had & Ha).
  apply AuditLog_new_inv in Ha as (_ & _ & ->).
  unfold to_change_event in H. simpl in H.
  apply ChangeEvent_new_inv in H as (_ & _ & Hc & ->). simpl.
  exists before, after. done.
Qed.

Lemma all_ok_Forall2 {A B : Type} (f : A → PyResult B) (l : list A) :
  (∀ y, y ∈ l → is_ok (f y) = true) →
  ∃ es, Forall2 (λ y e, f y = Ok e) l es.
Proof.
  induction l as [| y l IH]; intros H; [exists []; constructor |].
  destruct IH as [es Hes]; [intros; apply H; by right |].
  specialize (H y (ltac:(by left))).
  destruct (f y) as [e | ex] eqn:E; [| discriminate].
  exists (e :: es). by constructor.
Qed.


End ReaderFacts.

(** Scenario 4 of the specification, on the three captured changes. *)
Example fetch_batch_three :
  fetch_batch json_loads_demo fromisoformat_demo src_three (reader_at 10 0)
  = (Ok batch_three, mkAuditReader 10 true 3).
Proof. vm_compute. reflexivity. Qed.



(** The batch of [src_bad_before] is returned whole, the malformed
    before-image read as NULL. *)
Example fetch_batch_bad_before :
  fetch_batch json_loads_demo fromisoformat_demo src_bad_before (reader_at 10 0)
  = (Ok batch_bad_before, mkAuditReader 10 true 2).
Proof. vm_compute. reflexivity. Qed.


(** ** The engine's consume loop *)

Section EngineFacts.

Variable json_loads : string → PyResult PyVal.
Variable fromisoformat : string → PyResult datetime.
Variable convert : PyVal → ConverterType → Dict → PyVal.
Variable World : Type.
Variable batch_upsert : string → string → list Dict → World → PyResult unit * World.
Variable delete : string → string → RowId → World → PyResult unit * World.

#[local] Abbreviation fetch := (fetch_batch json_loads fromisoformat).
#[local] Abbreviation process_table :=
  (_process_table_events convert World batch_upsert delete).
#[local] Abbreviation process := (_process_events convert World batch_upsert delete).
#[local] Abbreviation iter :=
  (iteration json_loads fromisoformat convert World batch_upsert delete).
#[local] Abbreviation loop :=
  (consume_loop json_loads fromisoformat convert World batch_upsert delete).
#[local] Abbreviation State := (EngineState World).

Implicit Types (s : State) (cfg : SyncConfig).

(** *** [max] *)

Lemma foldl_max_spec (l : list Z) (i : Z) :
  foldl Z.max i l ∈ i :: l ∧ ∀ x, x ∈ i :: l → x <= foldl Z.max i l.
Proof.
  revert i. induction l as [| y l IH]; intros i; simpl.
  - split; [by left |]. intros x ->%list_elem_of_singleton. lia.
  - destruct (IH (Z.max i y)) as [Hin Hle]. split.
    + apply elem_of_cons in Hin as [E | Hin]; [| by do 2 right].
      rewrite E. destruct (Z.max_spec i y) as [[_ ->] | [_ ->]];
        [right; by left | by left].
    + intros x Hx. assert (Z.max i y <= foldl Z.max (Z.max i y) l)
        by (apply Hle; by left).
      apply elem_of_cons in Hx as [-> | Hx]; [lia |].
      apply elem_of_cons in Hx as [-> | Hx]; [lia |].
      apply Hle. by right.
Qed.

Lemma py_max_spec (l : list Z) :
  l ≠ [] → py_max l ∈ l ∧ ∀ x, x ∈ l → x <= py_max l.
Proof. destruct l as [| i l]; [done |]. intros _. apply foldl_max_spec. Qed.

(** The maximum is determined by the elements. *)
Lemma py_max_unique (l : list Z) (m : Z) :
  m ∈ l → (∀ x, x ∈ l → x <= m) → py_max l = m.
Proof.
  intros Hm Hle. destruct (py_max_spec l) as [Hin Hmax].
  { intros ->. by apply elem_of_nil in Hm. }
  specialize (Hle _ Hin). specialize (Hmax _ Hm). lia.
Qed.

(** *** Grouping by table *)

Lemma group_add_perm groups e :
  concat (group_add groups e).*2 ≡ₚ concat groups.*2 ++ [e].
Proof.
  induction groups as [| [t es] groups IH]; simpl; [done |].
  destruct (String.eqb t (table_name e)); simpl.
  - rewrite <- !app_assoc. apply Permutation_app_head.
    apply Permutation_app_comm.
  - by rewrite IH, app_assoc.
Qed.

Lemma foldl_group_add_perm events groups :
  concat (foldl group_add groups events).*2 ≡ₚ concat groups.*2 ++ events.
Proof.
  revert groups. induction events as [| e events IH]; intros groups; simpl.
  - by rewrite app_nil_r.
  - rewrite IH, group_add_perm, <- app_assoc. done.
Qed.

Lemma group_by_table_perm events :
  concat (group_by_table events).*2 ≡ₚ events.
Proof. unfold group_by_table. by rewrite foldl_group_add_perm. Qed.

(** *** Processing a batch *)

Lemma process_table_frame cfg table events s :
  let s' := process_table cfg table events s in
  eng_store World s' = eng_store World s
  ∧ eng_reader World s' = eng_reader World s
  ∧ eng_consumed_ids World s' = eng_consumed_ids World s
  ∧ st_total_events (eng_status World s') = st_total_events (eng_status World s)
  ∧ st_last_error (eng_status World s') = st_last_error (eng_status World s).
Proof.
  unfold _process_table_events. by destruct (get_table_mapping cfg table).
Qed.

Lemma process_groups_frame cfg (groups : list (string * list ChangeEvent)) s :
  let s' := foldl (process_group convert World batch_upsert delete cfg)
              s groups in
  eng_store World s' = eng_store World s
  ∧ eng_reader World s' = eng_reader World s
  ∧ eng_consumed_ids World s'
    = eng_consumed_ids World s ++ (audit_id <$> concat groups.*2)
  ∧ st_total_events (eng_status World s') = st_total_events (eng_status World s)
  ∧ st_last_error (eng_status World s') = st_last_error (eng_status World s).
Proof.
  revert s. induction groups as [| g groups IH]; intros s.
  - simpl. by rewrite app_nil_r.
  - destruct (process_table_frame cfg g.1 g.2 s) as (E1 & E2 & E3 & E4 & E5).
    cbn [foldl fmap list_fmap concat]. cbv zeta.
    destruct (IH (process_group convert World batch_upsert delete cfg s g))
      as (F1 & F2 & F3 & F4 & F5).
    rewrite F1, F2, F3, F4, F5. unfold process_group. simpl.
    rewrite E1, E2, E3, E4, E5, fmap_app, app_assoc. done.
Qed.

Lemma process_frame cfg events s :
  let s' := process cfg events s in
  eng_store World s' = eng_store World s
  ∧ eng_reader World s' = eng_reader World s
  ∧ eng_consumed_ids World s'
    ≡ₚ eng_consumed_ids World s ++ (audit_id <$> events)
  ∧ st_total_events (eng_status World s')
    = st_total_events (eng_status World s) + Z.of_nat (length events)
  ∧ st_last_error (eng_status World s') = st_last_error (eng_status World s).
Proof.
  unfold _process_events. cbv zeta. cbn [eng_store eng_reader eng_consumed_ids
    eng_status st_total_events st_last_error].
  destruct (process_groups_frame cfg (group_by_table events) s)
    as (F1 & F2 & F3 & F4 & F5).
  rewrite F1, F2, F3, F4, F5.
  repeat split. by rewrite group_by_table_perm.
Qed.

(** *** Saving the checkpoints *)

(** What [_save_checkpoints] leaves in the store: the same row for
    every configured target, the other rows as they were. *)
Lemma save_targets_spec cfg (now : datetime) (max_id tot : Z)
    (targets : list string) (store : gmap (string * string) PositionRow) :
  0 <= max_id → 0 <= tot →
  ∃ store',
    save_targets cfg now max_id tot targets store = (Ok (), store')
    ∧ ∀ src t,
        store' !! (src, t)
        = if decide (src = cfg_db_path cfg ∧ t ∈ targets)
          then Some (mkPositionRow max_id tot now)
          else store !! (src, t).
Proof.
  intros Hm Ht. revert store.
  induction targets as [| t0 targets IH]; intros store; simpl.
  - exists store. split; [done |]. intros src t.
    case_decide as H; [| done]. destruct H as [_ H]. by apply elem_of_nil in H.
  - unfold SyncPosition_new.
    apply Z.leb_le in Hm as Hm', Ht as Ht'. rewrite Hm', Ht'. simpl.
    destruct (IH (save_position store (cfg_db_path cfg) t0
                    (mkSyncPosition (cfg_db_path cfg) t0 max_id now tot)))
      as (store' & -> & Hs).
    exists store'. split; [done |]. intros src t. rewrite Hs.
    unfold save_position. simpl.
    destruct (decide (src = cfg_db_path cfg ∧ t ∈ targets)) as [[-> Hin] | Hn].
    + rewrite decide_True; [done |]. split; [done | by right].
    + destruct (decide ((src, t) = (cfg_db_path cfg, t0))) as [E | E].
      * inversion E; subst. rewrite lookup_insert_eq.
        rewrite decide_True; [done |]. split; [done | by left].
      * rewrite lookup_insert_ne by done.
        rewrite decide_False; [done |]. intros [-> Hin].
        apply elem_of_cons in Hin as [-> | Hin]; [done | by apply Hn].
Qed.

(** *** One turn of the loop *)

(** A turn whose batch is not empty: the batch is processed, every
    configured target's row is overwritten with the batch maximum,
    which is the reader's new cursor, and the source is left as read. *)
Lemma iteration_nonempty cfg (now : datetime) src s events rd' :
  eng_consumed_ids World s = [] →
  0 <= st_total_events (eng_status World s) →
  fetch src (eng_reader World s) = (Ok events, rd') → events ≠ [] →
  ∃ s', iter cfg now src s = (src, s')
    ∧ eng_reader World s' = rd'
    ∧ eng_consumed_ids World s' = []
    ∧ st_total_events (eng_status World s')
      = st_total_events (eng_status World s) + Z.of_nat (length events)
    ∧ st_last_error (eng_status World s') = st_last_error (eng_status World s)
    ∧ py_max (audit_id <$> events) = rd_last_audit_id rd'
    ∧ ∀ path t,
        eng_store World s' !! (path, t)
        = if decide (path = cfg_db_path cfg ∧ t ∈ cfg_targets cfg)
          then Some (mkPositionRow (rd_last_audit_id rd')
                       (st_total_events (eng_status World s')) now)
          else eng_store World s !! (path, t).
Proof.
  intros Hc Htot Hf Hne.
  destruct (fetch_batch_cursor_max _ _ _ _ _ _ Hf Hne) as (Hlt & Hin & Hmax).
  assert (Hnn : 0 <= rd_last_audit_id rd').
  { apply list_elem_of_fmap in Hin as (e & -> & He).
    by apply (fetch_batch_events_beyond _ _ _ _ _ _ e Hf). }
  assert (Hpm : ∀ ids, ids ≡ₚ audit_id <$> events →
                  py_max ids = rd_last_audit_id rd').
  { intros ids Hp. apply py_max_unique; [by rewrite Hp |].
    intros x Hx. rewrite Hp in Hx.
    apply list_elem_of_fmap in Hx as (e & -> & He). by apply Hmax. }
  unfold iteration. rewrite Hf.
  destruct events as [| e0 events0] eqn:Eev; [done |]. rewrite <- Eev in *.
  destruct (process_frame cfg events (with_reader World rd' s))
    as (F1 & F2 & F3 & F4 & F5).
  set (s1 := process cfg events (with_reader World rd' s)) in *.
  clearbody s1.
  cbn [with_reader eng_store eng_reader eng_consumed_ids eng_status]
    in F1, F2, F3, F4, F5.
  rewrite Hc in F3. simpl in F3.
  destruct (eng_consumed_ids World s1) as [| i ids] eqn:Eids.
  { symmetry in F3. apply Permutation_nil_r in F3.
    rewrite Eev in F3. discriminate. }
  unfold _save_checkpoints. rewrite (Hpm _ F3).
  destruct (save_targets_spec cfg now (rd_last_audit_id rd')
              (st_total_events (eng_status World s1)) (cfg_targets cfg)
              (eng_store World s1)) as (store' & -> & Hs); [done | lia |].
  eexists. split; [reflexivity |]. simpl.
  rewrite F2, F4, F5. repeat split; [by apply Hpm |].
  intros path t. rewrite Hs, F1, F4. done.
Qed.

(** Any turn: the source is handed back unchanged, the reader's cursor
    does not move back, and the store is either untouched or was
    overwritten, for every configured target, with the new cursor. *)
Lemma iteration_step cfg (now : datetime) src s :
  eng_consumed_ids World s = [] →
  0 <= st_total_events (eng_status World s) →
  ∃ s', iter cfg now src s = (src, s')
    ∧ eng_consumed_ids World s' = []
    ∧ 0 <= st_total_events (eng_status World s')
    ∧ rd_last_audit_id (eng_reader World s)
      <= rd_last_audit_id (eng_reader World s')
    ∧ (eng_store World s' = eng_store World s
       ∨ (rd_last_audit_id (eng_reader World s)
          < rd_last_audit_id (eng_reader World s')
          ∧ ∀ path t,
              eng_store World s' !! (path, t)
              = if decide (path = cfg_db_path cfg ∧ t ∈ cfg_targets cfg)
                then Some (mkPositionRow
                             (rd_last_audit_id (eng_reader World s'))
                             (st_total_events (eng_status World s')) now)
                else eng_store World s !! (path, t))).
Proof.
  intros Hc Htot.
  destruct (fetch src (eng_reader World s)) as [r rd'] eqn:Hf.
  pose proof (fetch_batch_cursor_mono json_loads fromisoformat src
                (eng_reader World s)) as (Hm & _). rewrite Hf in Hm. simpl in Hm.
  destruct r as [events | e].
  - destruct (decide (events = [])) as [-> | Hne].
    + unfold iteration. rewrite Hf. eexists. split; [reflexivity |]. simpl.
      repeat split; [done | done | done | by left].
    + destruct (iteration_nonempty cfg now src s events rd' Hc Htot Hf Hne)
        as (s' & Hi & Hr & Hc' & Ht & _ & _ & Hs).
      exists s'. split; [done |]. split; [done |]. split; [lia |].
      rewrite Hr. split; [done |]. right. split; [| done].
      by destruct (fetch_batch_cursor_max _ _ _ _ _ _ Hf Hne).
  - unfold iteration. rewrite Hf. eexists. split; [reflexivity |]. simpl.
    repeat split; [done | done | done | by left].
Qed.

(** *** The start of streaming *)

Lemma foldl_min_spec (l : list Z) (i : Z) :
  foldl Z.min i l ∈ i :: l ∧ ∀ x, x ∈ i :: l → foldl Z.min i l <= x.
Proof.
  revert i. induction l as [| y l IH]; intros i; simpl.
  - split; [by left |]. intros x ->%list_elem_of_singleton. lia.
  - destruct (IH (Z.min i y)) as [Hin Hle]. split.
    + apply elem_of_cons in Hin as [E | Hin]; [| by do 2 right].
      rewrite E. destruct (Z.min_spec i y) as [[_ ->] | [_ ->]];
        [by left | right; by left].
    + intros x Hx. assert (foldl Z.min (Z.min i y) l <= Z.min i y)
        by (apply Hle; by left).
      apply elem_of_cons in Hx as [-> | Hx]; [lia |].
      apply elem_of_cons in Hx as [-> | Hx]; [lia |].
      apply Hle. by right.
Qed.

Lemma dict_set_elem {A : Type} (d : list (string * A)) k v k' v' :
  (k', v') ∈ dict_set d k v → (k', v') = (k, v) ∨ (k', v') ∈ d.
Proof.
  induction d as [| [k0 v0] d IH]; simpl.
  - intros ->%list_elem_of_singleton. by left.
  - destruct (String.eqb k0 k).
    + intros [-> | H]%elem_of_cons; [by left | right; by right].
    + intros [-> | H]%elem_of_cons; [right; by left |].
      destruct (IH H) as [-> | ?]; [by left | right; by right].
Qed.

Lemma dict_set_key {A : Type} (d : list (string * A)) k v :
  (k, v) ∈ dict_set d k v.
Proof.
  induction d as [| [k0 v0] d IH]; simpl; [by left |].
  destruct (String.eqb k0 k); [by left | by right].
Qed.

Lemma dict_set_keeps_keys {A : Type} (d : list (string * A)) k v k' :
  k' ∈ d.*1 → k' ∈ (dict_set d k v).*1.
Proof.
  induction d as [| [k0 v0] d IH]; simpl; [by intros ?%elem_of_nil |].
  destruct (String.eqb k0 k) eqn:E; simpl.
  - apply String.eqb_eq in E as ->.
    intros [-> | H]%elem_of_cons; [by left | by right].
  - intros [-> | H]%elem_of_cons; [by left | right; by apply IH].
Qed.

Lemma load_position_cursor (now : datetime)
    (store : gmap (string * string) PositionRow) path t pos :
  load_position now store path t = Ok pos →
  last_audit_id pos = stored_cursor store path t.
Proof.
  unfold load_position, stored_cursor, SyncPosition_new.
  destruct (store !! (path, t)) as [row |];
    destruct (negb _ || negb _); intros H; by inversion H.
Qed.

Lemma load_positions_raise cfg (now : datetime)
    (store : gmap (string * string) PositionRow) (targets : list string) e :
  foldl (λ acc t,
           let? start_positions := acc in
           let? pos := load_position now store (cfg_db_path cfg) t in
           Ok (dict_set start_positions t (last_audit_id pos)))
    (Raise e) targets = Raise e.
Proof. induction targets as [| t targets IH]; simpl; [done | exact IH]. Qed.

(** The loaded positions: one entry per configured target, holding its
    stored cursor. *)
Lemma load_positions_spec cfg (now : datetime)
    (store : gmap (string * string) PositionRow) (targets : list string)
    (acc d : list (string * Z)) :
  foldl (λ acc t,
           let? start_positions := acc in
           let? pos := load_position now store (cfg_db_path cfg) t in
           Ok (dict_set start_positions t (last_audit_id pos)))
    (Ok acc) targets = Ok d →
  (∀ k v, (k, v) ∈ d →
     (k, v) ∈ acc ∨ (k ∈ targets ∧ v = stored_cursor store (cfg_db_path cfg) k))
  ∧ (∀ t, t ∈ targets → t ∈ d.*1)
  ∧ (∀ k, k ∈ acc.*1 → k ∈ d.*1).
Proof.
  revert acc. induction targets as [| t targets IH]; intros acc H; simpl in H.
  - inversion H; subst. repeat split; [by left | by intros t ?%elem_of_nil | done].
  - destruct (load_position now store (cfg_db_path cfg) t) as [pos | e] eqn:Ep;
      simpl in H; [| by rewrite load_positions_raise in H].
    apply load_position_cursor in Ep as Ec.
    apply IH in H as (H1 & H2 & H3). repeat split.
    + intros k v Hkv. destruct (H1 k v Hkv) as [Hin | [Hin ->]].
      * apply dict_set_elem in Hin as [E | Hin]; [| by left].
        inversion E; subst. right. split; [by left | done].
      * right. split; [by right | done].
    + intros t' [-> | Ht']%elem_of_cons; [| by apply H2].
      apply H3, list_elem_of_fmap. eexists (_, _). split; [| apply dict_set_key].
      done.
    + intros k Hk. by apply H3, dict_set_keeps_keys.
Qed.

(** The streaming start id is the least stored cursor of the
    configured targets. *)
Lemma start_incremental_minimum cfg (now : datetime) (st : SyncStatus)
    (store : gmap (string * string) PositionRow) (w : World) s0 :
  start_incremental World cfg now st store w = Ok s0 →
  eng_store World s0 = store
  ∧ eng_status World s0 = st
  ∧ eng_consumed_ids World s0 = []
  ∧ (cfg_targets cfg = [] → rd_last_audit_id (eng_reader World s0) = 0)
  ∧ (cfg_targets cfg ≠ [] →
     (∃ t, t ∈ cfg_targets cfg
        ∧ rd_last_audit_id (eng_reader World s0)
          = stored_cursor store (cfg_db_path cfg) t)
     ∧ ∀ t, t ∈ cfg_targets cfg →
         rd_last_audit_id (eng_reader World s0)
         <= stored_cursor store (cfg_db_path cfg) t).
Proof.
  unfold start_incremental, load_positions. intros H.
  apply bind_ok in H as (d & Hd & H). inversion H; subst s0; clear H. simpl.
  apply load_positions_spec in Hd as (H1 & H2 & _).
  repeat split.
  - intros E. rewrite E in H1. destruct d as [| [k v] d]; [done |].
    destruct (H1 k v) as [Hin | [Hin _]]; [by left | |]; by apply elem_of_nil in Hin.
  - destruct d as [| [k v] d].
    { destruct (cfg_targets cfg) as [| t ts]; [done |].
      specialize (H2 t (ltac:(by left))). by apply elem_of_nil in H2. }
    destruct (foldl_min_spec d.*2 v) as [Hin _]. unfold start_id, py_min.
    rewrite fmap_cons. simpl.
    change (v :: d.*2) with ((k, v) :: d).*2 in Hin.
    apply list_elem_of_fmap in Hin as ([k' v'] & E & Hin). simpl in E.
    destruct (H1 k' v' Hin) as [Hn | [Ht ->]]; [by apply elem_of_nil in Hn |].
    exists k'. by rewrite E.
  - intros t Ht. apply H2 in Ht as Hk.
    apply list_elem_of_fmap in Hk as ([k v] & -> & Hin). simpl.
    destruct (H1 k v Hin) as [Hn | [_ <-]]; [by apply elem_of_nil in Hn |].
    destruct d as [| [k0 v0] d]; [by apply elem_of_nil in Hin |].
    unfold start_id, py_min. rewrite fmap_cons. simpl.
    destruct (foldl_min_spec d.*2 v0) as [_ Hle]. apply Hle.
    change (v0 :: d.*2) with ((k0, v0) :: d).*2.
    apply list_elem_of_fmap. by exists (k, v).
Qed.

(** *** Cursors along a run *)

Lemma step_cursor_monotone cfg (now : datetime) src s (t : string) :
  eng_consumed_ids World s = [] →
  0 <= st_total_events (eng_status World s) →
  (t ∈ cfg_targets cfg →
   stored_cursor (eng_store World s) (cfg_db_path cfg) t
   <= rd_last_audit_id (eng_reader World s)) →
  let s' := (iter cfg now src s).2 in
  stored_cursor (eng_store World s) (cfg_db_path cfg) t
  <= stored_cursor (eng_store World s') (cfg_db_path cfg) t
  ∧ (t ∈ cfg_targets cfg →
     stored_cursor (eng_store World s') (cfg_db_path cfg) t
     <= rd_last_audit_id (eng_reader World s'))
  ∧ eng_consumed_ids World s' = []
  ∧ 0 <= st_total_events (eng_status World s')
  ∧ rd_last_audit_id (eng_reader World s)
    <= rd_last_audit_id (eng_reader World s')
  ∧ ∀ t', stored_cursor (eng_store World s') (cfg_db_path cfg) t'
          = stored_cursor (eng_store World s) (cfg_db_path cfg) t'
          ∨ rd_last_audit_id (eng_reader World s)
            < stored_cursor (eng_store World s') (cfg_db_path cfg) t'.
Proof.
  intros Hc Htot Hinv.
  destruct (iteration_step cfg now src s Hc Htot)
    as (s' & -> & Hc' & Htot' & Hm & Hstore). simpl.
  destruct Hstore as [-> | [Hlt Hs]].
  - repeat split; [lia | intros Ht; specialize (Hinv Ht); lia
                   | done | done | done | by left].
  - assert (Hlook : ∀ t',
      stored_cursor (eng_store World s') (cfg_db_path cfg) t'
      = if decide (t' ∈ cfg_targets cfg)
        then rd_last_audit_id (eng_reader World s')
        else stored_cursor (eng_store World s) (cfg_db_path cfg) t').
    { intros t'. unfold stored_cursor. rewrite Hs.
      destruct (decide (t' ∈ cfg_targets cfg)) as [Hin | Hn].
      - by rewrite decide_True.
      - rewrite decide_False; [done | by intros [_ ?]]. }
    repeat split; [| | done | done | done |].
    + rewrite Hlook. case_decide as Ht; [specialize (Hinv Ht); lia | lia].
    + intros Ht. rewrite Hlook. by rewrite decide_True.
    + intros t'. rewrite Hlook. case_decide; [by right | by left].
Qed.

Lemma loop_cursor_invariant cfg (pre : list (datetime * Source)) s (t : string) c0 :
  eng_consumed_ids World s = [] →
  0 <= st_total_events (eng_status World s) →
  (t ∈ cfg_targets cfg →
   stored_cursor (eng_store World s) (cfg_db_path cfg) t
   <= rd_last_audit_id (eng_reader World s)) →
  c0 <= rd_last_audit_id (eng_reader World s) →
  let s' := loop cfg pre s in
  eng_consumed_ids World s' = []
  ∧ 0 <= st_total_events (eng_status World s')
  ∧ (t ∈ cfg_targets cfg →
     stored_cursor (eng_store World s') (cfg_db_path cfg) t
     <= rd_last_audit_id (eng_reader World s'))
  ∧ c0 <= rd_last_audit_id (eng_reader World s').
Proof.
  revert s. induction pre as [| turn pre IH]; intros s Hc Htot Hinv H0; [done |].
  destruct (step_cursor_monotone cfg turn.1 turn.2 s t Hc Htot Hinv)
    as (_ & Hinv' & Hc' & Htot' & Hm & _).
  apply IH; [done | done | done | lia].
Qed.



End EngineFacts.


(** C1, evaluated at the failing input.  Target T2 raises on
    [batch_upsert] for the batch [[ev_one]]; the turn of the consume loop
    nevertheless advances T2's stored cursor from 0 to 1, the batch's
    maximum audit id, exactly as it advances T1's, and records no error. *)
Theorem failed_target_cursor_advances :
  let out := iteration json_loads_demo fromisoformat_demo convert_id
               (list Applied) batch_upsert_T2_down delete_T2_down
               cfg_two "now" src_one engine_fresh in
  fetch_batch json_loads_demo fromisoformat_demo src_one
    (eng_reader _ engine_fresh) = (Ok [ev_one], mkAuditReader 2 true 1)
  ∧ (batch_upsert_T2_down "T2" "users" [[("id", VInt 1)]] []).1
    = Raise (DatabaseError "connection refused")
  ∧ stored_cursor (eng_store _ engine_fresh) "source.db" "T2" = 0
  ∧ stored_cursor (eng_store _ out.2) "source.db" "T2" = 1
  ∧ stored_cursor (eng_store _ out.2) "source.db" "T1" = 1
  ∧ st_last_error (eng_status _ out.2) = None
  ∧ eng_world _ out.2 = [Upserted "T1" "users" [[("id", VInt 1)]]].
Proof. vm_compute. repeat split. Qed.





Example iteration_T2_down :
  iteration json_loads_demo fromisoformat_demo convert_id (list Applied)
    batch_upsert_T2_down delete_T2_down cfg_two "now" src_one engine_fresh
  = (src_one,
     mkEngineState (list Applied)
       (mkSyncStatus RUNNING 1 (<["users" := mkTableStats 1 1 0 0]> ∅) None)
       (<[("source.db", "T2") := mkPositionRow 1 1 "now"]>
        (<[("source.db", "T1") := mkPositionRow 1 1 "now"]> ∅))
       (mkAuditReader 2 true 1)
       [Upserted "T1" "users" [[("id", VInt 1)]]]
       []).
Proof. vm_compute. reflexivity. Qed.

(** ** The SQL classifier *)

Section ParserFacts.

Variable sqlparse_parse : string → PyResult (list (list Token)).

Lemma lstrip_all_space (ws s : string) :
  all_space ws → Py.lstrip (ws +:+ s) = Py.lstrip s.
Proof.
  unfold all_space. induction ws as [| c ws IH]; simpl; [done |].
  intros H. apply Forall_cons in H as [Hc H]. rewrite Hc. by apply IH.
Qed.

(** Leading white space does not change the operation. *)
Lemma parse_operation_leading_space (ws sql : string) :
  all_space ws → parse_operation (ws +:+ sql) = parse_operation sql.
Proof.
  intros H. unfold parse_operation, Py.strip. by rewrite lstrip_all_space.
Qed.

Lemma prefix_head (c d : ascii) (p s : string) :
  String.prefix (String c (String d p)) s = true →
  ∃ s', s = String c (String d s').
Proof.
  destruct s as [| c' [| d' s']]; simpl; try discriminate.
  - destruct (ascii_dec c c'); discriminate.
  - destruct (ascii_dec c c') as [-> | ?]; [| discriminate].
    destruct (ascii_dec d d') as [-> | ?]; [eauto | discriminate].
Qed.

(** A statement that starts with one of [non_write_starts] has no
    operation. *)
Lemma parse_operation_non_write (sql kw : string) :
  kw ∈ non_write_starts →
  Py.startswith (Py.upper (Py.strip sql)) kw = true →
  parse_operation sql = None.
Proof.
  unfold non_write_starts, parse_operation, Py.startswith. intros Hkw H.
  repeat (apply elem_of_cons in Hkw as [-> | Hkw];
          [apply prefix_head in H as [s' ->]; reflexivity |]).
  by apply elem_of_nil in Hkw.
Qed.

Lemma filter_no_whitespace (stmt : list Token) :
  Forall (λ t, tok_is_whitespace t = false)
    (List.filter (λ t, negb (tok_is_whitespace t)) stmt).
Proof.
  apply Forall_forall. intros t Ht. apply list_elem_of_In, filter_In in Ht as [_ Ht].
  by destruct (tok_is_whitespace t).
Qed.

(** The loops with a flag find the token after the keyword. *)
Lemma _extract_from_insert_spec (tokens : list Token) :
  Forall (λ t, tok_is_whitespace t = false) tokens →
  _extract_from_insert tokens true = opt_bind (head tokens) insert_name
  ∧ _extract_from_insert tokens false
    = opt_bind (token_after (is_keyword_of INSERT) tokens) insert_name.
Proof.
  induction 1 as [| t tokens Ht _ [IH1 IH2]]; [done |].
  cbn [_extract_from_insert token_after]. rewrite Ht. cbn [negb].
  split; [done |]. destruct (is_keyword_of INSERT t); [exact IH1 | exact IH2].
Qed.

Lemma _extract_from_update_spec (tokens : list Token) :
  Forall (λ t, tok_is_whitespace t = false) tokens →
  _extract_from_update tokens true = opt_bind (head tokens) update_name
  ∧ _extract_from_update tokens false
    = opt_bind (token_after (is_keyword_of UPDATE) tokens) update_name.
Proof.
  induction 1 as [| t tokens Ht _ [IH1 IH2]]; [done |].
  cbn [_extract_from_update token_after]. rewrite Ht. cbn [negb].
  split; [done |]. destruct (is_keyword_of UPDATE t); [exact IH1 | exact IH2].
Qed.

Lemma _extract_from_delete_spec (tokens : list Token) :
  Forall (λ t, tok_is_whitespace t = false) tokens →
  _extract_from_delete tokens true = opt_bind (head tokens) delete_name
  ∧ _extract_from_delete tokens false
    = opt_bind (token_after (is_keyword_of DELETE) tokens) delete_name.
Proof.
  induction 1 as [| t tokens Ht _ [IH1 IH2]]; [done |].
  cbn [_extract_from_delete token_after]. rewrite Ht. cbn [negb].
  split; [done |]. destruct (is_keyword_of DELETE t); [exact IH1 | exact IH2].
Qed.

(** *** Quotes around a name *)

Lemma lstrip_chars_length (chars s : string) :
  (String.length (Py.lstrip_chars chars s) <= String.length s)%nat.
Proof.
  induction s as [| c s IH]; simpl; [lia |].
  destruct (Py.mem_char c chars); simpl; lia.
Qed.

Lemma lstrip_chars_fixed_head (chars : string) (c : ascii) (s : string) :
  Py.lstrip_chars chars (String c s) = String c s → Py.mem_char c chars = false.
Proof.
  simpl. destruct (Py.mem_char c chars); [| done]. intros H.
  pose proof (lstrip_chars_length chars s) as Hl. rewrite H in Hl. simpl in Hl. lia.
Qed.

Lemma rstrip_chars_app_quote (chars a : string) (q : ascii) :
  Py.mem_char q chars = true →
  Py.rstrip_chars chars (a +:+ String q EmptyString) = Py.rstrip_chars chars a.
Proof.
  intros Hq. induction a as [| c a IH]; simpl; [by rewrite Hq | by rewrite IH].
Qed.

(** A clean name, bare or between quotes, comes out of [strip] as it is. *)
Lemma strip_chars_wrapped (name text : string) :
  clean_name name → wrapped name text →
  Py.strip_chars text quote_chars = name.
Proof.
  intros (Hne & Hl & Hr) [-> | (q1 & q2 & Hq1 & Hq2 & ->)]; unfold Py.strip_chars.
  - by rewrite Hl, Hr.
  - unfold is_quote in Hq1, Hq2. simpl. rewrite Hq1.
    destruct name as [| c name]; [done |].
    apply lstrip_chars_fixed_head in Hl as Hc.
    change (String c name +:+ String q2 "") with (String c (name +:+ String q2 "")).
    cbn [Py.lstrip_chars]. rewrite Hc.
    change (String c (name +:+ String q2 "")) with (String c name +:+ String q2 "").
    by rewrite rstrip_chars_app_quote.
Qed.

Lemma name_of_token_text (op : OperationType) (tok : Token) (name : string) :
  read_by_text op tok →
  Py.contains "(" (tok_value tok) = false →
  wrapped name (tok_value tok) → clean_name name →
  name_of_token op tok = Some name.
Proof.
  intros Hread Hparen Hw Hc.
  pose proof (strip_chars_wrapped _ _ Hc Hw) as E.
  destruct op; simpl in *.
  - unfold insert_name. rewrite Hparen, E. by destruct (tok_class tok).
  - unfold update_name. rewrite E. by destruct (tok_class tok).
  - unfold delete_name. rewrite E. destruct Hread as [H1 H2].
    by destruct (tok_class tok), (tok_ttype tok).
Qed.

Lemma extract_table_name_tokens (sql : string) (op : OperationType)
    (stmt : list Token) (others : list (list Token)) :
  parse_operation sql = Some op →
  sqlparse_parse sql = Ok (stmt :: others) →
  extract_table_name sqlparse_parse sql
  = opt_bind (token_after (is_keyword_of op)
                (List.filter (λ t, negb (tok_is_whitespace t)) stmt))
      (name_of_token op).
Proof.
  intros Hop Hp. unfold extract_table_name. rewrite Hop, Hp.
  pose proof (filter_no_whitespace stmt) as Hf.
  destruct op; simpl.
  - by apply _extract_from_insert_spec.
  - by apply _extract_from_update_spec.
  - by apply _extract_from_delete_spec.
Qed.

(** Whatever the tokeniser does, a statement without operation gets
    [(None, None)]. *)
Lemma parse_sql_no_operation (sql : string) :
  parse_operation sql = None → parse_sql sqlparse_parse sql = (None, None).
Proof. intros H. unfold parse_sql. by rewrite H. Qed.


End ParserFacts.



Example parse_operation_insert :
  parse_operation "  insert into users values (1)" = Some INSERT.
Proof. reflexivity. Qed.

Example parse_operation_select : parse_operation "SELECT * FROM users" = None.
Proof. reflexivity. Qed.

Example regex_insert_backtick :
  _extract_with_regex "INSERT INTO `users` VALUES (1)" INSERT = Some "users".
Proof. reflexivity. Qed.

Example regex_delete_comment :
  _extract_with_regex "DELETE /* c */ FROM  users WHERE id=1" DELETE = Some "users".
Proof. reflexivity. Qed.

Example regex_delete_no_name :
  _extract_with_regex "DELETE FROM (x)" DELETE = Some "FROM".
Proof. reflexivity. Qed.

Example regex_update_hyphen :
  _extract_with_regex "UPDATE `my-table` SET a = 1" UPDATE = Some "my".
Proof. reflexivity. Qed.

Example parse_sql_demo_update :
  parse_sql sqlparse_demo "UPDATE users SET name='b'" = (Some UPDATE, Some "users").
Proof. reflexivity. Qed.

Example parse_sql_demo_delete :
  parse_sql sqlparse_demo "DELETE FROM users WHERE id=1" = (Some DELETE, Some "users").
Proof. reflexivity. Qed.


(** The quoted name with a hyphen comes back verbatim. *)
Example parse_sql_demo_insert :
  parse_sql sqlparse_demo "INSERT INTO `my-table` VALUES (1)"
  = (Some INSERT, Some "my-table").
Proof. reflexivity. Qed.


(** ** The capture interceptor *)

Section ConnectionFacts.

Variable DB : Type.
Variable raw_execute : string → Params → DB → PyResult Cursor * DB.
Variable json_dumps : Dict → PyResult string.
Variable repr : PyVal → string.
Variable sqlparse_parse : string → PyResult (list (list Token)).

#[local] Abbreviation Logged := (DB * list (string * Params))%type.

Lemma adds_positional_refl {A : Type} (st : Logged) (a : A) :
  adds_positional st (a, st).
Proof. exists []. by rewrite app_nil_r. Qed.

Lemma adds_positional_trans {A B : Type} (st : Logged) (mid : A * Logged)
    (out : B * Logged) :
  adds_positional st mid → adds_positional mid.2 out → adds_positional st out.
Proof.
  intros (c1 & E1 & F1) (c2 & E2 & F2). exists (c1 ++ c2).
  rewrite E2, E1, app_assoc. split; [done | by apply Forall_app].
Qed.

Lemma logged_positional (sql : string) (items : list PyVal) (st : Logged) :
  adds_positional st (logged raw_execute sql (PTuple items) st)
  ∧ (logged raw_execute sql (PTuple items) st).2.2 = st.2 ++ [(sql, PTuple items)].
Proof.
  unfold logged. destruct (raw_execute sql (PTuple items) st.1) as [r db'].
  split; [| done]. exists [(sql, PTuple items)]. split; [done |].
  constructor; [by eexists | constructor].
Qed.

Lemma _fetch_before_data_positional sql params table (st : Logged) :
  adds_positional st (_fetch_before_data Logged (logged raw_execute) sql params table st).
Proof.
  unfold _fetch_before_data.
  destruct (_extract_where_clause sql) as [w |]; [| apply adds_positional_refl].
  destruct (String.eqb w ""); [apply adds_positional_refl |].
  destruct (logged_positional (select_before_sql table w) params st) as [H _].
  destruct (logged raw_execute _ _ st) as [[c | e] st']; exact H.
Qed.

Lemma _fetch_after_data_positional table row_id (st : Logged) :
  adds_positional st (_fetch_after_data Logged (logged raw_execute) table row_id st).
Proof.
  unfold _fetch_after_data.
  destruct row_id as [rid |]; [| apply adds_positional_refl].
  destruct (logged_positional (select_after_sql table) [VStr rid] st) as [H _].
  destruct (logged raw_execute _ _ st) as [[c | e] st']; exact H.
Qed.

Lemma _write_audit_log_positional conn table op row_id before after (st : Logged) :
  adds_positional st
    (_write_audit_log Logged (logged raw_execute) json_dumps conn table op row_id
       before after st).
Proof.
  unfold _write_audit_log.
  destruct (dumps_or_null json_dumps before) as [bj | e];
    [| apply adds_positional_refl].
  destruct (dumps_or_null json_dumps after) as [aj | e];
    [| apply adds_positional_refl].
  unfold audit_params.
  destruct (logged_positional (audit_insert_sql (conn_audit_table conn))
              [opt_text table; VStr (OperationType_value op); opt_text row_id; bj; aj]
              st) as [H _].
  destruct (logged raw_execute _ _ st) as [[c | e] st']; exact H.
Qed.

Lemma capture_before_positional sql params op table (st : Logged) :
  adds_positional st
    (capture_before Logged (logged raw_execute) repr sql params op table st).
Proof.
  unfold capture_before.
  pose proof (_fetch_before_data_positional sql params table st) as H.
  destruct op; [apply adds_positional_refl | |];
    by destruct (_fetch_before_data _ _ sql params table st).
Qed.

Lemma capture_after_positional op table row_id cursor (st : Logged) :
  adds_positional st
    (capture_after Logged (logged raw_execute) op table row_id cursor st).
Proof.
  unfold capture_after.
  pose proof (_fetch_after_data_positional table
                (row_id_after op row_id cursor) st) as H.
  destruct op; [| | apply adds_positional_refl];
    by destruct (_fetch_after_data _ _ table _ st).
Qed.

(** Every call of [_execute_with_audit] is positional, and the business
    statement was run with the converted tuple when a cursor comes back. *)
Lemma _execute_with_audit_positional conn sql parameters op table (st : Logged) :
  let out := _execute_with_audit Logged (logged raw_execute) json_dumps repr
               conn sql parameters op table st in
  ∃ calls, out.2.2 = st.2 ++ calls ∧ Forall positional calls
    ∧ (is_ok out.1 = true →
       (sql, PTuple (_convert_parameters parameters)) ∈ calls).
Proof.
  unfold _execute_with_audit.
  pose proof (capture_before_positional sql (_convert_parameters parameters)
                op table st) as (c1 & E1 & F1).
  destruct (capture_before _ _ repr sql _ op table st) as [[before row_id] st1].
  simpl in E1.
  destruct (logged_positional sql (_convert_parameters parameters) st1) as [_ E2].
  destruct (logged raw_execute sql _ st1) as [[cursor | e] st2]; simpl in E2.
  - pose proof (capture_after_positional op table row_id cursor st2)
      as (c3 & E3 & F3).
    destruct (capture_after _ _ op table row_id cursor st2)
      as [[row_id' after] st3]. simpl in E3.
    pose proof (_write_audit_log_positional conn table op row_id' before after st3)
      as (c4 & E4 & F4).
    destruct (_write_audit_log _ _ json_dumps conn table op row_id' before after st3)
      as [[u | e] st4]; simpl in E4 |- *.
    + exists (c1 ++ [(sql, PTuple (_convert_parameters parameters))] ++ c3 ++ c4).
      rewrite E4, E3, E2, E1, <- !app_assoc. split; [done |]. split.
      * repeat (apply Forall_app; split); try done.
        constructor; [by eexists | constructor].
      * intros _. apply elem_of_app. right. by left.
    + exists (c1 ++ [(sql, PTuple (_convert_parameters parameters))] ++ c3 ++ c4).
      rewrite E4, E3, E2, E1, <- !app_assoc. split; [done |]. split; [| done].
      repeat (apply Forall_app; split); try done.
      constructor; [by eexists | constructor].
  - simpl. exists (c1 ++ [(sql, PTuple (_convert_parameters parameters))]).
    rewrite E2, E1, <- app_assoc. split; [done |]. split; [| done].
    apply Forall_app. split; [done |]. constructor; [by eexists | constructor].
Qed.

(** C10.  Whatever [execute] is given as parameters, every call it makes
    on the underlying connection binds a positional tuple; a dict is
    passed as the tuple of its values in iteration order and an object
    that is neither tuple, list nor dict as the empty tuple; the
    statement itself is run with that tuple whenever a cursor comes
    back. *)
Theorem execute_binds_by_position (conn : CDCConnection) (sql : string)
    (parameters : Params) (st : DB * list (string * Params)) :
  let out := execute (DB * list (string * Params)) (logged raw_execute)
               json_dumps repr sqlparse_parse conn sql parameters st in
  (∃ calls, out.2.2 = st.2 ++ calls ∧ Forall positional calls
     ∧ (is_ok out.1 = true →
        (sql, PTuple (_convert_parameters parameters)) ∈ calls))
  ∧ (∀ d, parameters = PDict d → _convert_parameters parameters = d.*2)
  ∧ (∀ v, parameters = POther v → _convert_parameters parameters = []).
Proof.
  intros out. split; [| split; intros ? ->; reflexivity].
  subst out. unfold execute.
  assert (Hraw : let out := logged raw_execute sql
                              (PTuple (_convert_parameters parameters)) st in
            ∃ calls, out.2.2 = st.2 ++ calls ∧ Forall positional calls
              ∧ (is_ok out.1 = true →
                 (sql, PTuple (_convert_parameters parameters)) ∈ calls)).
  { destruct (logged_positional sql (_convert_parameters parameters) st) as [_ E].
    exists [(sql, PTuple (_convert_parameters parameters))].
    split; [done |]. split; [| intros _; by left].
    constructor; [by eexists | constructor]. }
  destruct (parse_sql sqlparse_parse sql) as [[op |] table]; [| exact Hraw].
  destruct (_should_audit conn table); [| exact Hraw].
  apply _execute_with_audit_positional.
Qed.

(** [execute] on an audited write statement is [_execute_with_audit]. *)
Lemma execute_audited conn sql parameters op table (db : DB) :
  parse_sql sqlparse_parse sql = (Some op, table) →
  _should_audit conn table = true →
  execute DB raw_execute json_dumps repr sqlparse_parse conn sql parameters db
  = _execute_with_audit DB raw_execute json_dumps repr conn sql parameters op
      table db.
Proof. intros Hp Ha. unfold execute. by rewrite Hp, Ha. Qed.

(** The four blocks of [_execute_with_audit] in sequence. *)
Lemma _execute_with_audit_blocks conn sql parameters op table (db : DB)
    before row_id db1 cursor db2 row_id' after db3 :
  capture_before DB raw_execute repr sql (_convert_parameters parameters) op
    table db = ((before, row_id), db1) →
  raw_execute sql (PTuple (_convert_parameters parameters)) db1 = (Ok cursor, db2) →
  capture_after DB raw_execute op table row_id cursor db2
  = ((row_id', after), db3) →
  _execute_with_audit DB raw_execute json_dumps repr conn sql parameters op
    table db
  = match _write_audit_log DB raw_execute json_dumps conn table op row_id'
            before after db3 with
    | (Raise e, db4) => (Raise e, db4)
    | (Ok _, db4) => (Ok cursor, db4)
    end.
Proof. intros H1 H2 H3. unfold _execute_with_audit. by rewrite H1, H2, H3. Qed.

Lemma _fetch_before_data_raises sql params table (db : DB) w e db1 :
  _extract_where_clause sql = Some w → w ≠ EmptyString →
  raw_execute (select_before_sql table w) (PTuple params) db = (Raise e, db1) →
  _fetch_before_data DB raw_execute sql params table db = (None, db1).
Proof.
  intros Hw Hne Hr. unfold _fetch_before_data. rewrite Hw.
  destruct (String.eqb w "") eqn:E; [by apply String.eqb_eq in E |].
  by rewrite Hr.
Qed.

Lemma _fetch_after_data_raises table rid (db : DB) e db1 :
  raw_execute (select_after_sql table) (PTuple [VStr rid]) db = (Raise e, db1) →
  _fetch_after_data DB raw_execute table (Some rid) db = (None, db1).
Proof. intros Hr. unfold _fetch_after_data. by rewrite Hr. Qed.

(** C6.  In [execute] of an audited write statement: (1) when the INSERT
    of the audit row raises, [execute] raises the same exception; (2) when
    the SELECT of the before-image raises, the business statement is run
    all the same and the audit row is inserted with NULL as
    [before_data]; (3) when the SELECT of the after-image raises, the
    audit row is inserted with NULL as [after_data]. *)
Theorem audit_failure_raises_image_failure_does_not (conn : CDCConnection)
    (sql : string) (parameters : Params) (op : OperationType)
    (table : option string) (db : DB) :
  parse_sql sqlparse_parse sql = (Some op, table) →
  _should_audit conn table = true →
  let params := _convert_parameters parameters in
  (∀ before row_id db1 cursor db2 row_id' after db3 before_json after_json e db4,
     capture_before DB raw_execute repr sql params op table db
     = ((before, row_id), db1) →
     raw_execute sql (PTuple params) db1 = (Ok cursor, db2) →
     capture_after DB raw_execute op table row_id cursor db2
     = ((row_id', after), db3) →
     dumps_or_null json_dumps before = Ok before_json →
     dumps_or_null json_dumps after = Ok after_json →
     raw_execute (audit_insert_sql (conn_audit_table conn))
       (audit_params table op row_id' before_json after_json) db3
     = (Raise e, db4) →
     execute DB raw_execute json_dumps repr sqlparse_parse conn sql parameters db
     = (Raise e, db4))
  ∧ (∀ w e db1 cursor db2 row_id' after db3 after_json,
       op ≠ INSERT →
       _extract_where_clause sql = Some w → w ≠ EmptyString →
       raw_execute (select_before_sql table w) (PTuple params) db = (Raise e, db1) →
       raw_execute sql (PTuple params) db1 = (Ok cursor, db2) →
       capture_after DB raw_execute op table
         (_extract_row_id_from_where repr sql params None) cursor db2
       = ((row_id', after), db3) →
       dumps_or_null json_dumps after = Ok after_json →
       execute DB raw_execute json_dumps repr sqlparse_parse conn sql parameters db
       = match raw_execute (audit_insert_sql (conn_audit_table conn))
                 (audit_params table op row_id' VNone after_json) db3 with
         | (Raise e', db4) => (Raise e', db4)
         | (Ok _, db4) => (Ok cursor, db4)
         end)
  ∧ (∀ before row_id db1 cursor db2 rid e db3 before_json,
       op ≠ DELETE →
       capture_before DB raw_execute repr sql params op table db
       = ((before, row_id), db1) →
       raw_execute sql (PTuple params) db1 = (Ok cursor, db2) →
       row_id_after op row_id cursor = Some rid →
       raw_execute (select_after_sql table) (PTuple [VStr rid]) db2 = (Raise e, db3) →
       dumps_or_null json_dumps before = Ok before_json →
       execute DB raw_execute json_dumps repr sqlparse_parse conn sql parameters db
       = match raw_execute (audit_insert_sql (conn_audit_table conn))
                 (audit_params table op (Some rid) before_json VNone) db3 with
         | (Raise e', db4) => (Raise e', db4)
         | (Ok _, db4) => (Ok cursor, db4)
         end).
Proof.
  intros Hp Ha params. split; [| split].
  - intros before row_id db1 cursor db2 row_id' after db3 bj aj e db4
      H1 H2 H3 Hb Haf Hins.
    rewrite (execute_audited _ _ _ _ _ _ Hp Ha).
    rewrite (_execute_with_audit_blocks _ _ _ _ _ _ _ _ _ _ _ _ _ _ H1 H2 H3).
    unfold _write_audit_log. by rewrite Hb, Haf, Hins.
  - intros w e db1 cursor db2 row_id' after db3 aj Hop Hw Hne Hsel H2 H3 Haf.
    rewrite (execute_audited _ _ _ _ _ _ Hp Ha).
    assert (H1 : capture_before DB raw_execute repr sql params op table db
                 = ((None, _extract_row_id_from_where repr sql params None), db1)).
    { unfold capture_before.
      rewrite (_fetch_before_data_raises _ _ _ _ _ _ _ Hw Hne Hsel).
      by destruct op. }
    rewrite (_execute_with_audit_blocks _ _ _ _ _ _ _ _ _ _ _ _ _ _ H1 H2 H3).
    unfold _write_audit_log. simpl. rewrite Haf.
    by destruct (raw_execute _ _ db3) as [[c | e'] db4].
  - intros before row_id db1 cursor db2 rid e db3 bj Hop H1 H2 Hrid Hsel Hb.
    rewrite (execute_audited _ _ _ _ _ _ Hp Ha).
    assert (H3 : capture_after DB raw_execute op table row_id cursor db2
                 = ((Some rid, None), db3)).
    { unfold capture_after. rewrite Hrid.
      rewrite (_fetch_after_data_raises _ _ _ _ _ Hsel). by destruct op. }
    rewrite (_execute_with_audit_blocks _ _ _ _ _ _ _ _ _ _ _ _ _ _ H1 H2 H3).
    unfold _write_audit_log. rewrite Hb. simpl.
    by destruct (raw_execute _ _ db3) as [[c | e'] db4].
Qed.

End ConnectionFacts.

Lemma audit_failure_raises_image_failure_does_not_witness :
  let raw := raw_execute_demo true false in
  let sql := "UPDATE users SET name = ? WHERE bogus = ?" in
  let op := UPDATE in
  let table := Some "users" in
  let db : list (string * Params) := [] in
  let params := _convert_parameters (PTuple [VStr "b"; VInt 1]) in
  (∀ before row_id db1 cursor db2 row_id' after db3 before_json after_json e db4,
     capture_before _ raw repr_demo sql params op table db
     = ((before, row_id), db1) →
     raw sql (PTuple params) db1 = (Ok cursor, db2) →
     capture_after _ raw op table row_id cursor db2 = ((row_id', after), db3) →
     dumps_or_null json_dumps_demo before = Ok before_json →
     dumps_or_null json_dumps_demo after = Ok after_json →
     raw (audit_insert_sql (conn_audit_table conn_demo))
       (audit_params table op row_id' before_json after_json) db3
     = (Raise e, db4) →
     execute _ raw json_dumps_demo repr_demo sqlparse_demo conn_demo sql
       (PTuple [VStr "b"; VInt 1]) db
     = (Raise e, db4))
  ∧ (∀ w e db1 cursor db2 row_id' after db3 after_json,
       op ≠ INSERT →
       _extract_where_clause sql = Some w → w ≠ EmptyString →
       raw (select_before_sql table w) (PTuple params) db = (Raise e, db1) →
       raw sql (PTuple params) db1 = (Ok cursor, db2) →
       capture_after _ raw op table
         (_extract_row_id_from_where repr_demo sql params None) cursor db2
       = ((row_id', after), db3) →
       dumps_or_null json_dumps_demo after = Ok after_json →
       execute _ raw json_dumps_demo repr_demo sqlparse_demo conn_demo sql
         (PTuple [VStr "b"; VInt 1]) db
       = match raw (audit_insert_sql (conn_audit_table conn_demo))
                 (audit_params table op row_id' VNone after_json) db3 with
         | (Raise e', db4) => (Raise e', db4)
         | (Ok _, db4) => (Ok cursor, db4)
         end)
  ∧ (∀ before row_id db1 cursor db2 rid e db3 before_json,
       op ≠ DELETE →
       capture_before _ raw repr_demo sql params op table db
       = ((before, row_id), db1) →
       raw sql (PTuple params) db1 = (Ok cursor, db2) →
       row_id_after op row_id cursor = Some rid →
       raw (select_after_sql table) (PTuple [VStr rid]) db2 = (Raise e, db3) →
       dumps_or_null json_dumps_demo before = Ok before_json →
       execute _ raw json_dumps_demo repr_demo sqlparse_demo conn_demo sql
         (PTuple [VStr "b"; VInt 1]) db
       = match raw (audit_insert_sql (conn_audit_table conn_demo))
                 (audit_params table op (Some rid) before_json VNone) db3 with
         | (Raise e', db4) => (Raise e', db4)
         | (Ok _, db4) => (Ok cursor, db4)
         end).
Proof.
  intros raw sql op table db params.
  apply (audit_failure_raises_image_failure_does_not _ raw json_dumps_demo
           repr_demo sqlparse_demo conn_demo sql (PTuple [VStr "b"; VInt 1])
           op table db); reflexivity.
Defined.

(** The before-image cannot be fetched: the UPDATE runs and the audit row
    is written with NULL payloads (the specification's boundary case). *)
Example execute_before_image_fails :
  execute _ (raw_execute_demo true false) json_dumps_demo repr_demo sqlparse_demo
    conn_demo "UPDATE users SET name = ? WHERE bogus = ?"
    (PTuple [VStr "b"; VInt 1]) []
  = (Ok (mkCursor None (Some 1) []),
     [("UPDATE users SET name = ? WHERE bogus = ?", PTuple [VStr "b"; VInt 1]);
      (audit_insert_sql "_cdc_audit_log",
       PTuple [VStr "users"; VStr "UPDATE"; VNone; VNone; VNone])]).
Proof. vm_compute. reflexivity. Qed.

(** The audit row cannot be inserted: [execute] raises, after the INSERT
    itself has run. *)
Example execute_audit_insert_fails :
  execute _ (raw_execute_demo false true) json_dumps_demo repr_demo sqlparse_demo
    conn_demo "INSERT INTO users (name) VALUES (?)" (PDict [("name", VStr "a")]) []
  = (Raise (DatabaseError "database is locked"),
     [("INSERT INTO users (name) VALUES (?)", PTuple [VStr "a"]);
      (select_after_sql (Some "users"), PTuple [VStr "1"])]).
Proof. vm_compute. reflexivity. Qed.

(** ** Initial sync *)

Section InitialSyncFacts.

Variable convert : PyVal → ConverterType → Dict → PyVal.
Variable Src : Type.
Variable source_execute :
  string → list PyVal → Src → PyResult (list string * list (list PyVal)) * Src.
Variable pragma_database_path : Src * list (string * list PyVal * PyResult (list Dict)) → string.
Variable pragma_table_info :
  string → Src * list (string * list PyVal * PyResult (list Dict)) →
  PyResult (list (list PyVal)).
Variable World : Type.
Variable batch_upsert : string → string → list Dict → World → PyResult unit * World.

#[local] Abbreviation LSrc :=
  (Src * list (string * list PyVal * PyResult (list Dict)))%type.
#[local] Abbreviation Env := (SyncEnv LSrc World).
#[local] Abbreviation paginate :=
  (_sync_with_pagination convert LSrc (logged_source source_execute)
     pragma_database_path World batch_upsert).

(** One page query adds one entry to the log: the query and its page. *)
Lemma _fetch_batch_logged table pk last_pk batch_size (src : LSrc) :
  let out := _fetch_batch LSrc (logged_source source_execute) table pk last_pk
               batch_size src in
  out.2.2 = src.2 ++ [(page_query table pk batch_size last_pk, out.1)].
Proof.
  unfold _fetch_batch, logged_source.
  destruct (page_query table pk batch_size last_pk) as [sql params].
  by destruct (source_execute sql params src.1) as [[[columns rows] | e] src'].
Qed.

Lemma keyset_log_cons table pk batch_size last_pk (r : PyResult (list Dict))
    (calls : list (string * list PyVal * PyResult (list Dict))) :
  match r with
  | Ok (row :: rows) =>
      keyset_log table pk batch_size (last_pk_of pk (row :: rows)) calls
  | _ => calls = []
  end →
  keyset_log table pk batch_size last_pk
    ((page_query table pk batch_size last_pk, r) :: calls).
Proof.
  intros H. cbn [keyset_log].
  destruct (page_query table pk batch_size last_pk) as [sql params]. by split.
Qed.

(** The page queries of the loop form a keyset pagination, however many
    turns it runs. *)
Lemma _sync_with_pagination_keyset fuel cfg table m pk synced last_pk batch_num
    (env : Env) :
  ∃ calls,
    (env_src _ _ (paginate fuel cfg table m pk synced last_pk batch_num env).2).2
    = (env_src _ _ env).2 ++ calls
    ∧ keyset_log table pk (cfg_batch_size cfg) last_pk calls.
Proof.
  revert synced last_pk batch_num env.
  induction fuel as [| fuel IH]; intros synced last_pk batch_num env.
  { exists []. simpl. by rewrite app_nil_r. }
  cbn [_sync_with_pagination].
  pose proof (_fetch_batch_logged table pk last_pk (cfg_batch_size cfg)
                (env_src _ _ env)) as Hlog. cbv zeta in Hlog.
  destruct (_fetch_batch LSrc (logged_source source_execute) table pk last_pk
              (cfg_batch_size cfg) (env_src _ _ env)) as [[rows | e] src'].
  2: { eexists. split; [exact Hlog |]. by apply keyset_log_cons. }
  simpl in Hlog. destruct rows as [| row rows].
  { eexists. split; [exact Hlog |]. by apply keyset_log_cons. }
  assert (Hstop : ∀ (r : option (PyResult Z)) (env' : Env),
            (env_src _ _ env').2 = src'.2 →
            ∃ calls,
              (env_src _ _ (r, env').2).2 = (env_src _ _ env).2 ++ calls
              ∧ keyset_log table pk (cfg_batch_size cfg) last_pk calls).
  { intros r env' E. eexists. simpl. rewrite E. split; [exact Hlog |].
    by apply keyset_log_cons. }
  assert (Hnext : ∀ synced' batch_num' (env' : Env),
            (env_src _ _ env').2 = src'.2 →
            ∃ calls,
              (env_src _ _ (paginate fuel cfg table m pk synced'
                              (last_pk_of pk (row :: rows)) batch_num' env').2).2
              = (env_src _ _ env).2 ++ calls
              ∧ keyset_log table pk (cfg_batch_size cfg) last_pk calls).
  { intros synced' batch_num' env' E.
    destruct (IH synced' (last_pk_of pk (row :: rows)) batch_num' env')
      as (calls & Ec & Hk).
    eexists. rewrite Ec, E, Hlog, <- app_assoc. split; [reflexivity |].
    by apply keyset_log_cons. }
  destruct (_sync_batch_to_all_targets World batch_upsert cfg (get_target_table m)
              (transform_batch convert m (row :: rows)) (env_world _ _ env))
    as [[u | e] w']; [| by apply Hstop].
  destruct (_ mod 10 =? 0); [| by apply Hnext].
  destruct (InitialSyncCheckpoint_new table (last_pk_of pk (row :: rows)) _ RUNNING)
    as [checkpoint | e]; [by apply Hnext | by apply Hstop].
Qed.

(** In a keyset pagination the first query starts after [last_pk]. *)
Lemma keyset_log_first table pk batch_size last_pk
    (calls : list (string * list PyVal * PyResult (list Dict))) c :
  keyset_log table pk batch_size last_pk calls →
  calls !! 0%nat = Some c →
  c.1 = page_query table pk batch_size last_pk.
Proof.
  destruct calls as [| [[sql params] result] calls]; [done |].
  intros [E _] H. simpl in H. by inversion H.
Qed.

(** In a keyset pagination each query after the first follows a page
    with rows and starts after that page's last key. *)
Lemma keyset_log_next table pk batch_size last_pk
    (calls : list (string * list PyVal * PyResult (list Dict))) i c c' :
  keyset_log table pk batch_size last_pk calls →
  calls !! i = Some c → calls !! S i = Some c' →
  ∃ page, c.2 = Ok page ∧ page ≠ []
    ∧ c'.1 = page_query table pk batch_size (last_pk_of pk page).
Proof.
  revert last_pk i. induction calls as [| [[sql params] result] calls IH];
    intros last_pk i Hk Hc Hc'; [done |].
  destruct Hk as [_ Hk].
  destruct result as [[| row rows] | e];
    try (subst calls; by destruct i).
  destruct i as [| i].
  - simpl in Hc, Hc'. inversion Hc; subst c. exists (row :: rows).
    split; [done |]. split; [done |]. by eapply keyset_log_first.
  - simpl in Hc, Hc'. by eapply IH.
Qed.

(** The log after [sync_table] when the pagination runs. *)
Lemma sync_table_tail_keyset fuel cfg table m pk last_pk (env : Env) :
  let out :=
    match paginate fuel cfg table m pk 0 last_pk 0 env with
    | (Some (Ok synced), env2) =>
        match InitialSyncCheckpoint_new table None synced COMPLETED with
        | Raise e => (Some (Raise e), env2)
        | Ok final_checkpoint =>
            (Some (Ok synced),
             mkSyncEnv LSrc World (env_src _ _ env2) (env_world _ _ env2)
               (save_initial_checkpoint (env_checkpoints _ _ env2)
                  (pragma_database_path (env_src _ _ env)) final_checkpoint))
        end
    | other => other
    end in
  ∃ calls,
    (env_src _ _ out.2).2 = (env_src _ _ env).2 ++ calls
    ∧ keyset_log table pk (cfg_batch_size cfg) last_pk calls.
Proof.
  destruct (_sync_with_pagination_keyset fuel cfg table m pk 0 last_pk 0 env)
    as (calls & Ec & Hk).
  exists calls. split; [| done].
  destruct (paginate fuel cfg table m pk 0 last_pk 0 env) as [[[synced | e] |] env2];
    try done.
  by destruct (InitialSyncCheckpoint_new table None synced COMPLETED).
Qed.


End InitialSyncFacts.



Example sync_users_fresh :
  (sync_users 4 ∅).1 = Some (Ok 5)
  ∧ (env_src _ _ (sync_users 4 ∅).2).2.*1
    = [ (select_first_page "users" "id" 2, []);
        (select_next_page "users" "id" 2, [VInt 2]);
        (select_next_page "users" "id" 2, [VInt 4]);
        (select_next_page "users" "id" 2, [VInt 5]) ]
  ∧ env_checkpoints _ _ (sync_users 4 ∅).2 = checkpoints_completed.
Proof. vm_compute. repeat split. Qed.

Example sync_users_resumed :
  (sync_users 3 checkpoints_running).1 = Some (Ok 3)
  ∧ (env_src _ _ (sync_users 3 checkpoints_running).2).2.*1
    = [ (select_next_page "users" "id" 2, [VInt 2]);
        (select_next_page "users" "id" 2, [VInt 4]);
        (select_next_page "users" "id" 2, [VInt 5]) ].
Proof. vm_compute. repeat split. Qed.

Example sync_users_completed :
  sync_users 0 checkpoints_completed
  = (Some (Ok 5), mkSyncEnv _ _ (users_five, []) [] checkpoints_completed).
Proof. vm_compute. reflexivity. Qed.

(* ===================================================================== *)
(** * Part III: further properties of the code                          *)
(* ===================================================================== *)

(** ** The two models of a change *)


(** The audit log of an UPDATE without images has no event. *)
Example bare_update_has_no_event :
  AuditLog_new 4 "users" UPDATE None None None "2024-01-01T00:00:00" None 0
  = Ok audit_log_bare_update
  ∧ to_change_event audit_log_bare_update = Raise ValidationError.
Proof. split; reflexivity. Qed.

(** ** Dicts in insertion order *)

Section DictFacts.

Context {A : Type}.

Lemma dict_set_fresh (d : list (string * A)) (k : string) (v : A) :
  k ∉ d.*1 → dict_set d k v = d ++ [(k, v)].
Proof.
  induction d as [| [k' v'] d IH]; intros Hk; [done |].
  simpl. rewrite fmap_cons in Hk. apply not_elem_of_cons in Hk as [Hne Hk].
  destruct (String.eqb k' k) eqn:E.
  - apply String.eqb_eq in E. by subst.
  - by rewrite IH.
Qed.

Lemma dict_set_keys (d : list (string * A)) (k : string) (v : A) :
  (dict_set d k v).*1 = if decide (k ∈ d.*1) then d.*1 else d.*1 ++ [k].
Proof.
  induction d as [| [k' v'] d IH]; [done |].
  simpl. destruct (String.eqb k' k) eqn:E.
  - apply String.eqb_eq in E as ->. simpl. by rewrite decide_True by left.
  - apply String.eqb_neq in E. rewrite !fmap_cons, IH. cbn [fst].
    destruct (decide (k ∈ d.*1)) as [Hin | Hin].
    + by rewrite decide_True by by right.
    + rewrite decide_False; [done |].
      intros H. apply elem_of_cons in H as [-> | H]; done.
Qed.

Lemma dict_set_nodup (d : list (string * A)) (k : string) (v : A) :
  NoDup d.*1 → NoDup (dict_set d k v).*1.
Proof.
  intros Hnd. rewrite dict_set_keys. case_decide as Hin; [done |].
  apply NoDup_app. split; [done |]. split; [| apply NoDup_singleton].
  intros x Hx Hx'. apply list_elem_of_singleton in Hx' as ->. done.
Qed.

Lemma foldl_dict_set_nodup (l d : list (string * A)) :
  NoDup d.*1 → NoDup (foldl (λ d kv, dict_set d kv.1 kv.2) d l).*1.
Proof.
  revert d. induction l as [| [k v] l IH]; intros d Hd; [done |].
  simpl. apply IH. by apply dict_set_nodup.
Qed.

Lemma foldl_dict_set_fresh (l d : list (string * A)) :
  NoDup (d.*1 ++ l.*1) → foldl (λ d kv, dict_set d kv.1 kv.2) d l = d ++ l.
Proof.
  revert d. induction l as [| [k v] l IH]; intros d Hnd.
  - simpl. by rewrite app_nil_r.
  - simpl. simpl in Hnd. rewrite dict_set_fresh.
    + rewrite IH; [by rewrite <- app_assoc |].
      rewrite fmap_app. simpl. by rewrite <- app_assoc.
    + apply NoDup_app in Hnd as (_ & Hd & _). intros Hk.
      apply (Hd k Hk). by left.
Qed.

End DictFacts.

Lemma dict_get_dict_set (d : Dict) (k k' : string) (v : PyVal) :
  dict_get (dict_set d k v) k'
  = if String.eqb k k' then Some v else dict_get d k'.
Proof.
  unfold dict_get. induction d as [| [k0 v0] d IH]; simpl.
  - by destruct (String.eqb k k').
  - destruct (String.eqb k0 k) eqn:E.
    + apply String.eqb_eq in E as ->. simpl. by destruct (String.eqb k k').
    + simpl. destruct (String.eqb k0 k') eqn:E'.
      * apply String.eqb_eq in E' as ->. by rewrite String.eqb_sym, E.
      * done.
Qed.

(** The keys of a dict built from pairs are distinct. *)
Lemma dict_of_pairs_nodup (pairs : list (string * PyVal)) :
  NoDup (dict_of_pairs pairs).*1.
Proof. apply foldl_dict_set_nodup. constructor. Qed.

(** Pairs with distinct keys make the dict that lists them. *)
Lemma dict_of_pairs_distinct (pairs : list (string * PyVal)) :
  NoDup pairs.*1 → dict_of_pairs pairs = pairs.
Proof. intros H. by apply (foldl_dict_set_fresh pairs []). Qed.

Lemma list_find_app {B : Type} (f : B → bool) (l1 l2 : list B) :
  List.find f (l1 ++ l2)
  = match List.find f l1 with
    | Some x => Some x
    | None => List.find f l2
    end.
Proof.
  induction l1 as [| x l1 IH]; [done |]. simpl. by destruct (f x).
Qed.

Lemma dict_get_app (d1 d2 : Dict) (k : string) :
  dict_get (d1 ++ d2) k
  = match dict_get d1 k with
    | Some v => Some v
    | None => dict_get d2 k
    end.
Proof.
  unfold dict_get. rewrite list_find_app.
  by destruct (List.find _ d1).
Qed.

(** In a dict built from pairs the last pair of a key gives its
    value. *)
Lemma dict_get_of_pairs (pairs : list (string * PyVal)) (k : string) :
  dict_get (dict_of_pairs pairs) k = dict_get (reverse pairs) k.
Proof.
  unfold dict_of_pairs.
  assert (H : ∀ d, dict_get (foldl (λ d kv, dict_set d kv.1 kv.2) d pairs) k
                   = match dict_get (reverse pairs) k with
                     | Some v => Some v
                     | None => dict_get d k
                     end).
  { induction pairs as [| [k0 v0] pairs IH]; intros d; [done |].
    simpl. rewrite IH, reverse_cons, dict_get_app, dict_get_dict_set.
    destruct (dict_get (reverse pairs) k); [done |].
    unfold dict_get at 2. simpl. by destruct (String.eqb k0 k). }
  rewrite H. by destruct (dict_get (reverse pairs) k).
Qed.

(** ** More about the reader *)

Section ReaderMore.

Variable json_loads : string → PyResult PyVal.
Variable fromisoformat : string → PyResult datetime.

#[local] Abbreviation to_event := (row_to_event json_loads fromisoformat).
#[local] Abbreviation convert := (convert_rows json_loads fromisoformat).
#[local] Abbreviation fetch := (fetch_batch json_loads fromisoformat).

(** The rows that may still be read after [last_id], in key order. *)
#[local] Abbreviation eligible rows last_id :=
  (merge_sort id_le (filter (unconsumed_after last_id) (map_to_list rows))).

Lemma eligible_elem (rows : gmap Z AuditRow) last_id i r :
  (i, r) ∈ eligible rows last_id
  ↔ rows !! i = Some r ∧ last_id < i ∧ r_consumed_at r = None.
Proof.
  rewrite merge_sort_Permutation, list_elem_of_filter, elem_of_map_to_list.
  unfold unconsumed_after. simpl. tauto.
Qed.

Lemma eligible_sorted (rows : gmap Z AuditRow) last_id :
  StronglySorted id_lt (eligible rows last_id).
Proof. apply (select_unconsumed_sorted rows last_id (-1)). Qed.

Lemma select_unconsumed_split (rows : gmap Z AuditRow) last_id limit :
  ∃ more, eligible rows last_id = select_unconsumed rows last_id limit ++ more
    ∧ (select_unconsumed rows last_id limit = [] → limit ≠ 0 → more = []).
Proof.
  unfold select_unconsumed, sql_limit.
  destruct (limit <? 0) eqn:E.
  - exists []. by rewrite app_nil_r.
  - exists (drop (Z.to_nat limit) (eligible rows last_id)).
    split; [by rewrite take_drop |].
    intros Ht Hn. apply Z.ltb_ge in E.
    destruct (Z.to_nat limit) as [| k] eqn:Ek; [lia |].
    destruct (eligible rows last_id); [done | discriminate].
Qed.

Lemma sorted_app_lt (l1 l2 : list (Z * AuditRow)) x y :
  StronglySorted id_lt (l1 ++ l2) → x ∈ l1 → y ∈ l2 → x.1 < y.1.
Proof.
  induction l1 as [| a l1 IH]; intros Hs Hx Hy; [by apply elem_of_nil in Hx |].
  simpl in Hs. apply StronglySorted_cons in Hs as [Hall Hs].
  apply elem_of_cons in Hx as [-> | Hx]; [| by apply IH].
  rewrite Forall_forall in Hall. apply Hall. apply elem_of_app. by right.
Qed.

(** A batch that is not empty comes from the query. *)
Lemma fetch_batch_rows src rd events rd' :
  fetch src rd = (Ok events, rd') → events ≠ [] →
  audit_id <$> events
  = (select_unconsumed (audit_rows src) (rd_last_audit_id rd)
       (rd_batch_size rd)).*1.
Proof.
  intros Hf Hne.
  destruct (fetch_batch_inv json_loads fromisoformat _ _ _ _ Hf)
    as [[-> _] | (_ & HF & _)]; [done |].
  by apply (Forall2_rows_events json_loads fromisoformat).
Qed.

(** An empty batch of a running reader on a database that answers comes
    from an empty query result. *)
Lemma fetch_batch_empty_rows src rd rd' :
  fetch src rd = (Ok [], rd') →
  rd_running rd = true → src_available src = true →
  select_unconsumed (audit_rows src) (rd_last_audit_id rd) (rd_batch_size rd)
  = [].
Proof.
  unfold fetch_batch, _fetch_unconsumed. intros Hf Hr Ha.
  rewrite Hr, Ha in Hf. simpl in Hf.
  destruct (select_unconsumed _ _ _) as [| x rows] eqn:E; [done |].
  destruct (convert (x :: rows) [] (rd_last_audit_id rd)) as [r c] eqn:Ec.
  inversion Hf; subst.
  apply (convert_rows_ok json_loads fromisoformat) in Ec
    as (es & Hes & HF & _).
  simpl in Hes. subst es. inversion HF.
Qed.


End ReaderMore.


Section ReaderFailure.

Variable json_loads : string → PyResult PyVal.
Variable fromisoformat : string → PyResult datetime.

#[local] Abbreviation to_event := (row_to_event json_loads fromisoformat).
#[local] Abbreviation convert := (convert_rows json_loads fromisoformat).
#[local] Abbreviation fetch := (fetch_batch json_loads fromisoformat).
#[local] Abbreviation eligible rows last_id :=
  (merge_sort id_le (filter (unconsumed_after last_id) (map_to_list rows))).

(** The loop of [fetch_batch] when a row cannot be converted: the rows
    before it were converted and the cursor is the greatest of their
    ids and of the cursor at the start. *)
Lemma convert_rows_raise rows evs c e c' :
  convert rows evs c = (Raise e, c') →
  ∃ done x rest es,
    rows = done ++ x :: rest
    ∧ Forall2 (λ y ev, to_event y = Ok ev) done es
    ∧ to_event x = Raise e
    ∧ c <= c'
    ∧ (∀ y, y ∈ done → y.1 <= c')
    ∧ (c' = c ∨ c' ∈ done.*1).
Proof.
  revert evs c. induction rows as [| x rows IH]; intros evs c H; [done |].
  simpl in H. destruct (to_event x) as [ev | e0] eqn:Ex.
  - apply IH in H as (done & x' & rest & es & -> & HF & Hx' & Hle & Hd & Hc).
    pose proof (row_to_event_audit_id json_loads fromisoformat _ _ Ex) as Eid.
    exists (x :: done), x', rest, (ev :: es).
    split; [done |]. split; [by constructor |]. split; [done |].
    rewrite Eid in *.
    assert (c <= c' ∧ x.1 <= c') as [H1 H2]
      by (destruct (c <? x.1) eqn:E;
          [apply Z.ltb_lt in E | apply Z.ltb_ge in E]; lia).
    split; [done |]. split.
    + intros y Hy. apply elem_of_cons in Hy as [-> | Hy]; [done | by apply Hd].
    + destruct Hc as [Hc | Hc].
      * destruct (c <? x.1) eqn:E; [| by left].
        right. rewrite Hc, fmap_cons. by left.
      * right. rewrite fmap_cons. by right.
  - inversion H; subst. exists [], x, rows, [].
    repeat split; [constructor | done | lia | | by left].
    intros y Hy. by apply elem_of_nil in Hy.
Qed.

(** Moving the cursor forward filters the rows that may be read. *)
Lemma eligible_advance (rows : gmap Z AuditRow) c c' :
  c <= c' →
  eligible rows c' = filter (unconsumed_after c') (eligible rows c).
Proof.
  intros Hle. apply (StronglySorted_unique_strong id_lt).
  - intros x1 x2 _ _. unfold id_lt. lia.
  - apply (select_unconsumed_sorted rows c' (-1)).
  - eapply strict_sublist; [apply sublist_filter |].
    apply (select_unconsumed_sorted rows c (-1)).
  - rewrite !merge_sort_Permutation.
    rewrite list_filter_filter_l; [done |].
    intros x [H1 H2]. split; [lia | done].
Qed.

Lemma filter_none {A : Type} (P : A → Prop) `{∀ x, Decision (P x)} (l : list A) :
  (∀ x, x ∈ l → ¬ P x) → filter P l = [].
Proof.
  induction l as [| a l IH]; intros Hl; [done |].
  rewrite filter_cons_False by (apply Hl; by left).
  apply IH. intros x Hx. apply Hl. by right.
Qed.

(** X3.  A row that cannot be converted makes [fetch_batch] raise, and
    the call is not without effect: the rows of the batch before that
    row were converted, they are not returned, and the reader's cursor
    has moved to the last of them, so that no later batch holds them;
    the cursor stays before the failing row, and the next call on the
    same table raises the same exception and leaves the reader as it
    is. *)
Theorem fetch_batch_failure_skips_and_blocks (src : Source) (rd : AuditReader)
    (e : Exn) (rd' : AuditReader) :
  fetch_batch json_loads fromisoformat src rd = (Raise e, rd') →
  ∃ done x rest,
    _fetch_unconsumed src (rd_last_audit_id rd) (rd_batch_size rd)
    = done ++ x :: rest
    ∧ Forall (λ y, is_ok (row_to_event json_loads fromisoformat y) = true) done
    ∧ row_to_event json_loads fromisoformat x = Raise e
    ∧ Forall (λ y, y.1 <= rd_last_audit_id rd') done
    ∧ rd_last_audit_id rd <= rd_last_audit_id rd'
    ∧ rd_last_audit_id rd' < x.1
    ∧ fetch_batch json_loads fromisoformat src rd' = (Raise e, rd').
Proof.
  intros Hf. unfold fetch_batch in Hf.
  destruct (rd_running rd) eqn:Hrun; [| done]. simpl in Hf.
  unfold _fetch_unconsumed in *.
  destruct (src_available src) eqn:Hav; [| done].
  set (n := rd_batch_size rd) in *. set (c := rd_last_audit_id rd) in *.
  destruct (select_unconsumed (audit_rows src) c n) as [| x0 rows0] eqn:Erows;
    [done |].
  destruct (convert (x0 :: rows0) [] c) as [r c'] eqn:Ec.
  rewrite <- Erows in Ec.
  inversion Hf; subst r rd'. clear Hf. simpl.
  apply convert_rows_raise in Ec
    as (done & x & rest & es & Esplit & HF & Hx & Hle & Hd & Hc).
  pose proof (select_unconsumed_sorted (audit_rows src) c n) as Hs.
  rewrite Esplit in Hs.
  assert (Hcx : c < x.1).
  { destruct x as [i r]. apply (select_unconsumed_elem (audit_rows src) c n i r).
    rewrite Esplit. apply elem_of_app. right. by left. }
  assert (Hlt : c' < x.1).
  { destruct Hc as [-> | Hc]; [done |].
    apply list_elem_of_fmap in Hc as (y & -> & Hy).
    apply (sorted_app_lt done (x :: rest) y x Hs Hy). by left. }
  exists done, x, rest. rewrite <- Erows, Esplit.
  split; [done |]. split.
  { apply Forall_forall. intros y Hy.
    apply list_elem_of_lookup in Hy as [k Hk].
    destruct (Forall2_lookup_l _ _ _ _ _ HF Hk) as (ev & _ & ->). done. }
  split; [done |]. split; [by apply Forall_forall |].
  split; [done |]. split; [done |].
  (* the next call *)
  unfold fetch_batch, _fetch_unconsumed.
  cbn [rd_running rd_last_audit_id rd_batch_size negb]. rewrite Hav.
  destruct (select_unconsumed_split (audit_rows src) c n) as (more & Hsplit & _).
  assert (Hnew : ∃ tl, select_unconsumed (audit_rows src) c' n = x :: tl).
  { unfold select_unconsumed at 1.
    rewrite (eligible_advance (audit_rows src) c c' Hle), Hsplit, Esplit.
    rewrite <- !app_assoc, filter_app.
    rewrite (filter_none _ done).
    2:{ intros y Hy [Hy1 _]. specialize (Hd y Hy). lia. }
    simpl. rewrite filter_cons_True.
    2:{ split; [done |]. destruct x as [i r].
        apply (select_unconsumed_elem (audit_rows src) c n i r).
        rewrite Esplit. apply elem_of_app. right. by left. }
    unfold sql_limit. destruct (n <? 0) eqn:En; [by eexists |].
    destruct (Z.to_nat n) as [| k] eqn:Ek; [| by eexists].
    exfalso. unfold select_unconsumed, sql_limit in Esplit.
    rewrite En, Ek in Esplit. simpl in Esplit. by destruct done. }
  destruct Hnew as (tl & ->). cbn [convert_rows]. by rewrite Hx.
Qed.

End ReaderFailure.

Lemma fetch_batch_failure_skips_and_blocks_witness :
  ∃ done x rest,
    _fetch_unconsumed src_bad_after (rd_last_audit_id (reader_at 10 0))
      (rd_batch_size (reader_at 10 0))
    = done ++ x :: rest
    ∧ Forall (λ y, is_ok (row_to_event json_loads_demo fromisoformat_demo y)
                   = true) done
    ∧ row_to_event json_loads_demo fromisoformat_demo x = Raise ValidationError
    ∧ Forall (λ y, y.1 <= rd_last_audit_id (mkAuditReader 10 true 1)) done
    ∧ rd_last_audit_id (reader_at 10 0)
      <= rd_last_audit_id (mkAuditReader 10 true 1)
    ∧ rd_last_audit_id (mkAuditReader 10 true 1) < x.1
    ∧ fetch_batch json_loads_demo fromisoformat_demo src_bad_after
        (mkAuditReader 10 true 1)
      = (Raise ValidationError, mkAuditReader 10 true 1).
Proof.
  apply (fetch_batch_failure_skips_and_blocks json_loads_demo
           fromisoformat_demo src_bad_after (reader_at 10 0) ValidationError
           (mkAuditReader 10 true 1)).
  vm_compute. reflexivity.
Defined.

Section ReaderBatches.

Variable json_loads : string → PyResult PyVal.
Variable fromisoformat : string → PyResult datetime.

(** X4.  No row is read twice: when a reader has returned a batch,
    every event of any batch it returns later, whatever was added to
    the audit table or marked in it in between, has an audit id greater
    than every audit id of the earlier batch. *)
Theorem later_batches_are_beyond_earlier_ones (src src' : Source)
    (rd rd1 rd2 : AuditReader) (events1 events2 : list ChangeEvent) :
  fetch_batch json_loads fromisoformat src rd = (Ok events1, rd1) →
  fetch_batch json_loads fromisoformat src' rd1 = (Ok events2, rd2) →
  ∀ e1 e2, e1 ∈ events1 → e2 ∈ events2 → audit_id e1 < audit_id e2.
Proof.
  intros H1 H2 e1 e2 He1 He2.
  assert (Hne : events1 ≠ []) by (intros ->; by apply elem_of_nil in He1).
  destruct (fetch_batch_cursor_max json_loads fromisoformat _ _ _ _ H1 Hne)
    as (_ & _ & Hmax).
  destruct (fetch_batch_events_beyond json_loads fromisoformat _ _ _ _ e2 H2 He2)
    as (_ & r & _ & _ & Hlt).
  specialize (Hmax e1 He1). lia.
Qed.

End ReaderBatches.

Lemma later_batches_are_beyond_earlier_ones_witness :
  fetch_batch json_loads_demo fromisoformat_demo src_three (reader_at 2 0)
  = (Ok (take 2 batch_three), mkAuditReader 2 true 2)
  ∧ fetch_batch json_loads_demo fromisoformat_demo src_three
      (mkAuditReader 2 true 2)
    = (Ok (drop 2 batch_three), mkAuditReader 2 true 3)
  ∧ ∀ e1 e2, e1 ∈ take 2 batch_three → e2 ∈ drop 2 batch_three →
      audit_id e1 < audit_id e2.
Proof.
  split; [vm_compute; reflexivity |]. split; [vm_compute; reflexivity |].
  apply (later_batches_are_beyond_earlier_ones json_loads_demo
           fromisoformat_demo src_three src_three (reader_at 2 0)
           (mkAuditReader 2 true 2) (mkAuditReader 2 true 3));
    vm_compute; reflexivity.
Defined.

(** *** Marking rows consumed *)

Lemma set_consumed_lookup (now : string) (ids : list Z)
    (rows : gmap Z AuditRow) (i : Z) :
  set_consumed now ids rows !! i
  = if decide (i ∈ ids) then consumed_row now <$> rows !! i else rows !! i.
Proof.
  induction ids as [| j ids IH]; [done |].
  change (set_consumed now (j :: ids) rows)
    with (alter (consumed_row now) j (set_consumed now ids rows)).
  destruct (decide (i = j)) as [-> | Hne].
  - rewrite lookup_alter_eq, IH.
    rewrite (decide_True (P := j ∈ j :: ids)) by left.
    case_decide; [| done]. by destruct (rows !! j).
  - rewrite lookup_alter_ne, IH by done.
    destruct (decide (i ∈ ids)) as [Hin | Hin].
    + by rewrite decide_True by by right.
    + rewrite decide_False; [done |].
      intros H. apply elem_of_cons in H as [? | ?]; done.
Qed.

(** X5.  [mark_consumed]: the empty list changes nothing and cannot
    fail; a failing database makes it raise; when it returns, every
    listed row that exists has [consumed_at] set and is otherwise as it
    was, every other row is untouched, no row is added or removed, and
    no later query for unconsumed rows, whatever its cursor and limit,
    returns a listed id. *)
Theorem mark_consumed_hides_rows (now : string) (ids : list Z) (src : Source) :
  (ids = [] → mark_consumed now ids src = Ok src)
  ∧ (ids ≠ [] → src_available src = false →
     is_ok (mark_consumed now ids src) = false)
  ∧ ∀ src', mark_consumed now ids src = Ok src' →
      (∀ i, audit_rows src' !! i
            = if decide (i ∈ ids) then consumed_row now <$> audit_rows src !! i
              else audit_rows src !! i)
      ∧ (∀ last limit x, x ∈ _fetch_unconsumed src' last limit →
           (x.1 ∉ ids) ∧ audit_rows src !! x.1 = Some x.2
           ∧ r_consumed_at x.2 = None).
Proof.
  split; [intros ->; done |]. split.
  { intros Hne Hav. unfold mark_consumed. rewrite Hav. by destruct ids. }
  intros src' Hm.
  assert (Hrows : ∀ i, audit_rows src' !! i
            = if decide (i ∈ ids) then consumed_row now <$> audit_rows src !! i
              else audit_rows src !! i).
  { intros i. unfold mark_consumed in Hm. destruct ids as [| j ids].
    - inversion Hm; subst. by rewrite decide_False by apply not_elem_of_nil.
    - destruct (src_available src); [| done]. injection Hm as <-.
      apply (set_consumed_lookup now (j :: ids)). }
  split; [done |]. intros last limit [i r] Hx. simpl.
  unfold _fetch_unconsumed in Hx.
  destruct (src_available src'); [| by apply elem_of_nil in Hx].
  apply select_unconsumed_elem in Hx as (Hi & _ & Hc).
  rewrite Hrows in Hi. case_decide as Hin.
  - destruct (audit_rows src !! i); [| done]. simpl in Hi.
    inversion Hi; subst. done.
  - done.
Qed.

(** *** The statistics *)

Lemma nodup_range_length (l : list Z) (a b : Z) :
  NoDup l → (∀ x, x ∈ l → a < x <= b) →
  Z.of_nat (length l) <= Z.max 0 (b - a).
Proof.
  intros Hnd Hl.
  assert (Hsub : l ⊆+ seqZ (a + 1) (b - a)).
  { apply NoDup_submseteq; [done |]. intros x Hx. apply elem_of_seqZ.
    specialize (Hl x Hx). lia. }
  apply submseteq_length in Hsub. rewrite length_seqZ in Hsub. lia.
Qed.

Lemma coalesce_max_upper (ids : list Z) (i : Z) :
  i ∈ ids → i <= coalesce_max ids.
Proof.
  destruct ids as [| j ids]; [by intros H; apply elem_of_nil in H |].
  intros Hi. by apply (foldl_max_spec ids j).
Qed.

Lemma strict_sorted_nodup_keys (l : list (Z * AuditRow)) :
  StronglySorted id_lt l → NoDup l.*1.
Proof.
  induction 1 as [| x l Hs IH Hall]; [constructor |].
  rewrite fmap_cons. constructor; [| done].
  intros Hin. apply list_elem_of_fmap in Hin as (y & E & Hy).
  rewrite Forall_forall in Hall. specialize (Hall y Hy).
  unfold id_lt in Hall. lia.
Qed.

(** X6.  [get_stats]: [pending] is an upper bound on the number of rows
    that a query for unconsumed rows after the reader's cursor returns,
    whatever its limit; when [pending] is 0 the reader gets the empty
    batch and keeps its cursor; [unconsumed] is at most [total]. *)
Theorem get_stats_pending_bound
    (json_loads : string → PyResult PyVal)
    (fromisoformat : string → PyResult datetime)
    (src : Source) (rd : AuditReader) (limit : Z) :
  let stats := get_stats src rd in
  Z.of_nat (length (_fetch_unconsumed src (rd_last_audit_id rd) limit))
  <= rs_pending stats
  ∧ (rs_pending stats = 0 →
     fetch_batch json_loads fromisoformat src rd = (Ok [], rd))
  ∧ 0 <= rs_unconsumed stats <= rs_total stats
  ∧ rs_last_read_id stats = rd_last_audit_id rd.
Proof.
  intros stats.
  assert (Hb : ∀ n, Z.of_nat (length (_fetch_unconsumed src
                                        (rd_last_audit_id rd) n))
                    <= rs_pending stats).
  { intros n. subst stats. unfold get_stats, _fetch_unconsumed.
    destruct (src_available src); [| done]. simpl.
    rewrite <- (length_fmap fst). apply nodup_range_length.
    - apply strict_sorted_nodup_keys, select_unconsumed_sorted.
    - intros i Hi. apply list_elem_of_fmap in Hi as ([i' r] & -> & Hi).
      apply select_unconsumed_elem in Hi as (Hi & Hlt & _). simpl.
      split; [done |]. apply coalesce_max_upper.
      apply (list_elem_of_fmap_2 fst (map_to_list (audit_rows src)) (i', r)).
      by apply elem_of_map_to_list. }
  split; [apply Hb |]. split.
  { intros Hz. specialize (Hb (rd_batch_size rd)). rewrite Hz in Hb.
    unfold fetch_batch. destruct (rd_running rd); [| done]. simpl.
    destruct (_fetch_unconsumed src (rd_last_audit_id rd) (rd_batch_size rd));
      [done |]. simpl in Hb. lia. }
  subst stats. unfold get_stats.
  destruct (src_available src); simpl; [| split; [lia | done]].
  split; [| done]. split; [lia |].
  apply inj_le, length_filter.
Qed.

(** ** More about the engine *)

Section EngineMore.

Variable json_loads : string → PyResult PyVal.
Variable fromisoformat : string → PyResult datetime.
Variable convert : PyVal → ConverterType → Dict → PyVal.
Variable World : Type.
Variable batch_upsert : string → string → list Dict → World → PyResult unit * World.
Variable delete : string → string → RowId → World → PyResult unit * World.

#[local] Abbreviation fetch := (fetch_batch json_loads fromisoformat).
#[local] Abbreviation process_table :=
  (_process_table_events convert World batch_upsert delete).
#[local] Abbreviation process := (_process_events convert World batch_upsert delete).
#[local] Abbreviation iter :=
  (iteration json_loads fromisoformat convert World batch_upsert delete).
#[local] Abbreviation loop :=
  (consume_loop json_loads fromisoformat convert World batch_upsert delete).
#[local] Abbreviation State := (EngineState World).

(** *** The status over the loop *)

Lemma process_groups_state cfg (groups : list (string * list ChangeEvent))
    (s : State) :
  st_state (eng_status World
              (foldl (process_group convert World batch_upsert delete cfg)
                 s groups))
  = st_state (eng_status World s).
Proof.
  revert s. induction groups as [| g groups IH]; intros s; [done |].
  cbn [foldl]. rewrite IH. unfold process_group, _process_table_events.
  by destruct (get_table_mapping cfg g.1).
Qed.

Lemma process_state cfg events (s : State) :
  st_state (eng_status World (process cfg events s))
  = st_state (eng_status World s).
Proof. unfold _process_events. simpl. apply process_groups_state. Qed.

(** One turn: the state is kept or becomes [ERROR]; an error recorded
    earlier is not forgotten; a failing read leaves [ERROR]. *)
Lemma iteration_status cfg (now : datetime) src (s : State) :
  let s' := (iter cfg now src s).2 in
  (st_state (eng_status World s') = st_state (eng_status World s)
   ∨ st_state (eng_status World s') = ERROR)
  ∧ (is_Some (st_last_error (eng_status World s)) →
     is_Some (st_last_error (eng_status World s')))
  ∧ (is_ok (fetch src (eng_reader World s)).1 = false →
     st_state (eng_status World s') = ERROR
     ∧ is_Some (st_last_error (eng_status World s'))).
Proof.
  unfold iteration.
  destruct (fetch src (eng_reader World s)) as [[events | e] rd'] eqn:Hf;
    cbn [fst is_ok].
  2:{ simpl. split; [by right |]. split; [by eexists |].
      intros _. split; [done | by eexists]. }
  destruct events as [| e0 events0] eqn:Eev.
  { simpl. split; [by left |]. split; [done | done]. }
  rewrite <- Eev.
  pose proof (process_state cfg events (with_reader World rd' s)) as Hst.
  destruct (process_frame convert World batch_upsert delete cfg events
              (with_reader World rd' s)) as (_ & _ & _ & _ & Herr).
  set (s1 := process cfg events (with_reader World rd' s)) in *.
  clearbody s1. cbn [with_reader eng_status] in Hst, Herr.
  destruct (eng_consumed_ids World s1) as [| i ids].
  { simpl. rewrite Hst, Herr. split; [by left |]. done. }
  destruct (_save_checkpoints World cfg now (i :: ids) s1) as [[[] | e] store].
  - simpl. rewrite Hst, Herr. split; [by left |]. done.
  - simpl. split; [by right |]. split; [by eexists | done].
Qed.


(** *** Events of tables without mapping *)

(** Every group's key is the table of one of the events. *)
Lemma group_add_keys (groups : list (string * list ChangeEvent)) e g :
  g ∈ group_add groups e →
  g.1 = table_name e ∨ g.1 ∈ groups.*1.
Proof.
  induction groups as [| [t es] groups IH]; simpl.
  - intros H. apply list_elem_of_singleton in H as ->. by left.
  - destruct (String.eqb t (table_name e)) eqn:E.
    + intros H. apply elem_of_cons in H as [-> | H].
      * right. simpl. by left.
      * right. right. by apply (list_elem_of_fmap_2 fst) in H.
    + intros H. apply elem_of_cons in H as [-> | H].
      * right. simpl. by left.
      * destruct (IH H) as [? | ?]; [by left | right; by right].
Qed.

Lemma group_by_table_keys (events : list ChangeEvent) g :
  g ∈ group_by_table events → ∃ e, e ∈ events ∧ g.1 = table_name e.
Proof.
  unfold group_by_table.
  assert (H : ∀ groups,
            g ∈ foldl group_add groups events →
            (∃ e, e ∈ events ∧ g.1 = table_name e) ∨ g.1 ∈ groups.*1).
  { induction events as [| e events IH]; intros groups Hg.
    - right. by apply (list_elem_of_fmap_2 fst) in Hg.
    - cbn [foldl] in Hg. destruct (IH _ Hg) as [(e' & He' & E) | Hk].
      + left. exists e'. split; [by right | done].
      + apply list_elem_of_fmap in Hk as (g' & E & Hg').
        destruct (group_add_keys _ _ _ Hg') as [Ht | Ht].
        * left. exists e. split; [by left | congruence].
        * right. by rewrite E. }
  intros Hg. destruct (H [] Hg) as [? | Hk]; [done |].
  by apply elem_of_nil in Hk.
Qed.

Lemma process_groups_unmapped cfg (groups : list (string * list ChangeEvent))
    (s : State) :
  (∀ g, g ∈ groups → get_table_mapping cfg g.1 = None) →
  let s' := foldl (process_group convert World batch_upsert delete cfg)
              s groups in
  eng_world World s' = eng_world World s
  ∧ st_table_stats (eng_status World s') = st_table_stats (eng_status World s).
Proof.
  revert s. induction groups as [| g groups IH]; intros s Hg; [done |].
  cbn [foldl]. cbv zeta.
  destruct (IH (process_group convert World batch_upsert delete cfg s g))
    as [-> ->]; [intros g' Hg'; apply Hg; by right |].
  unfold process_group, _process_table_events.
  by rewrite (Hg g) by left.
Qed.

(** What a turn with a batch leaves to the targets and in the
    statistics is what [_process_events] leaves. *)
Lemma iteration_world cfg (now : datetime) src (s : State) events rd' :
  fetch src (eng_reader World s) = (Ok events, rd') → events ≠ [] →
  let s' := (iter cfg now src s).2 in
  let s1 := process cfg events (with_reader World rd' s) in
  eng_world World s' = eng_world World s1
  ∧ st_table_stats (eng_status World s')
    = st_table_stats (eng_status World s1).
Proof.
  intros Hf Hne. unfold iteration. rewrite Hf.
  destruct events as [| e0 events0] eqn:Eev; [done |]. rewrite <- Eev.
  set (s1 := process cfg events (with_reader World rd' s)). cbv zeta.
  destruct (eng_consumed_ids World s1) as [| i ids]; [done |].
  by destruct (_save_checkpoints World cfg now (i :: ids) s1) as [[[] | e] store].
Qed.

(** X8.  Events of tables without mapping are passed over: a turn whose
    batch holds only such events writes nothing to any target and
    counts nothing in the table statistics, and yet it counts the
    events in [total_events] and saves, for every target, the batch's
    greatest audit id as the cursor. *)
Theorem unmapped_events_are_passed_over (cfg : SyncConfig) (now : datetime)
    (src : Source) (s : EngineState World) (events : list ChangeEvent)
    (rd' : AuditReader) :
  eng_consumed_ids World s = [] →
  0 <= st_total_events (eng_status World s) →
  fetch_batch json_loads fromisoformat src (eng_reader World s)
  = (Ok events, rd') →
  events ≠ [] →
  (∀ e, e ∈ events → get_table_mapping cfg (table_name e) = None) →
  let out := iteration json_loads fromisoformat convert World batch_upsert
               delete cfg now src s in
  eng_world World out.2 = eng_world World s
  ∧ st_table_stats (eng_status World out.2)
    = st_table_stats (eng_status World s)
  ∧ st_total_events (eng_status World out.2)
    = st_total_events (eng_status World s) + Z.of_nat (length events)
  ∧ rd_last_audit_id (eng_reader World out.2) = py_max (audit_id <$> events)
  ∧ (∀ t, t ∈ cfg_targets cfg →
       stored_cursor (eng_store World out.2) (cfg_db_path cfg) t
       = py_max (audit_id <$> events)).
Proof.
  intros Hc Htot Hf Hne Hun out.
  destruct (iteration_world cfg now src s events rd' Hf Hne) as [Hw Hs].
  destruct (iteration_nonempty json_loads fromisoformat convert World
              batch_upsert delete cfg now src s events rd' Hc Htot Hf Hne)
    as (s' & Hi & Hr & _ & Ht & _ & Hm & Hstore).
  subst out. rewrite Hi in *. cbn [snd] in *.
  destruct (process_groups_unmapped cfg (group_by_table events)
              (with_reader World rd' s)) as [Hw1 Hs1].
  { intros g Hg. destruct (group_by_table_keys events g Hg) as (e & He & ->).
    by apply Hun. }
  split; [by rewrite Hw |]. split; [by rewrite Hs |].
  split; [done |]. split; [by rewrite Hr |].
  intros t Hin. unfold stored_cursor. rewrite Hstore.
  rewrite decide_True by done. simpl. by rewrite Hm.
Qed.

End EngineMore.

(** *** What reaches recording targets *)

Section EngineApplied.

Variable convert : PyVal → ConverterType → Dict → PyVal.

Lemma gather_upsert_ok (targets : list string) (table : string)
    (rows : list Dict) (w : list Applied) :
  (gather (list Applied) ((λ t, batch_upsert_ok t table rows) <$> targets) w).2
  = w ++ ((λ t, Upserted t table rows) <$> targets).
Proof.
  revert w. induction targets as [| t targets IH]; intros w; simpl.
  - by rewrite app_nil_r.
  - specialize (IH (w ++ [Upserted t table rows])).
    destruct (gather _ _ _) as [rs w2]. simpl in *.
    by rewrite IH, <- app_assoc.
Qed.

Lemma gather_delete_ok (targets : list string) (table : string)
    (rid : RowId) (w : list Applied) :
  (gather (list Applied) ((λ t, delete_ok t table rid) <$> targets) w).2
  = w ++ ((λ t, Deleted t table rid) <$> targets).
Proof.
  revert w. induction targets as [| t targets IH]; intros w; simpl.
  - by rewrite app_nil_r.
  - specialize (IH (w ++ [Deleted t table rid])).
    destruct (gather _ _ _) as [rs w2]. simpl in *.
    by rewrite IH, <- app_assoc.
Qed.


End EngineApplied.


(** The row deleted and inserted again in one batch ends up deleted in
    both targets. *)
Example delete_then_insert_applied :
  eng_world _ (_process_table_events convert_id (list Applied) batch_upsert_ok
                 delete_ok cfg_two "users" [ev_delete_1; ev_insert_1]
                 engine_fresh)
  = [Upserted "T1" "users" [[("id", VInt 1)]];
     Upserted "T2" "users" [[("id", VInt 1)]];
     Deleted "T1" "users" (RInt 1); Deleted "T2" "users" (RInt 1)].
Proof. reflexivity. Qed.

Lemma unmapped_events_are_passed_over_witness :
  let out := iteration json_loads_demo fromisoformat_demo convert_id
               (list Applied) batch_upsert_ok delete_ok cfg_orders_only "now"
               src_one engine_fresh in
  eng_world _ out.2 = eng_world _ engine_fresh
  ∧ st_table_stats (eng_status _ out.2)
    = st_table_stats (eng_status _ engine_fresh)
  ∧ st_total_events (eng_status _ out.2)
    = st_total_events (eng_status _ engine_fresh) + Z.of_nat (length [ev_one])
  ∧ rd_last_audit_id (eng_reader _ out.2) = py_max (audit_id <$> [ev_one])
  ∧ (∀ t, t ∈ cfg_targets cfg_orders_only →
       stored_cursor (eng_store _ out.2) (cfg_db_path cfg_orders_only) t
       = py_max (audit_id <$> [ev_one])).
Proof.
  apply (unmapped_events_are_passed_over json_loads_demo fromisoformat_demo
           convert_id (list Applied) batch_upsert_ok delete_ok cfg_orders_only
           "now" src_one engine_fresh [ev_one] (mkAuditReader 2 true 1)).
  - reflexivity.
  - simpl. lia.
  - vm_compute. reflexivity.
  - done.
  - intros e He. apply list_elem_of_singleton in He as ->. reflexivity.
Defined.

(** ** More about the initial sync *)

Section InitialMore.

Variable convert : PyVal → ConverterType → Dict → PyVal.
Variable Src : Type.
Variable source_execute :
  string → list PyVal → Src → PyResult (list string * list (list PyVal)) * Src.
Variable pragma_database_path : Src → string.
Variable pragma_table_info : string → Src → PyResult (list (list PyVal)).
Variable World : Type.
Variable batch_upsert : string → string → list Dict → World → PyResult unit * World.

#[local] Abbreviation Env := (SyncEnv Src World).
#[local] Abbreviation sync :=
  (sync_table convert Src source_execute pragma_database_path
     pragma_table_info World batch_upsert).
#[local] Abbreviation gather_all := (gather_upserts World batch_upsert).

(** The world after the first targets of a list were given the batch. *)
#[local] Abbreviation world_after table batch w targets :=
  (foldl (λ w t, (batch_upsert t table batch w).2) w targets).

Lemma gather_upserts_world targets table batch w :
  (gather_all targets table batch w).2 = world_after table batch w targets.
Proof.
  revert w. induction targets as [| t targets IH]; intros w; [done |].
  simpl. specialize (IH (batch_upsert t table batch w).2).
  destruct (batch_upsert t table batch w) as [r w1]. simpl in IH.
  destruct (gather_all targets table batch w1) as [rs w2]. done.
Qed.

Lemma gather_upserts_first targets table batch w :
  match first_exception (gather_all targets table batch w).1 with
  | Ok _ =>
      ∀ pre t post, targets = pre ++ t :: post →
        is_ok (batch_upsert t table batch (world_after table batch w pre)).1
        = true
  | Raise e =>
      ∃ pre t post, targets = pre ++ t :: post
        ∧ (batch_upsert t table batch (world_after table batch w pre)).1
          = Raise e
        ∧ ∀ pre' t' post', pre = pre' ++ t' :: post' →
            is_ok (batch_upsert t' table batch
                     (world_after table batch w pre')).1 = true
  end.
Proof.
  revert w. induction targets as [| t targets IH]; intros w.
  - simpl. intros pre t post H. by destruct pre.
  - simpl. specialize (IH (batch_upsert t table batch w).2).
    destruct (batch_upsert t table batch w) as [r w1] eqn:Et. simpl in IH.
    destruct (gather_all targets table batch w1) as [rs w2]. simpl in *.
    destruct r as [[] | e].
    + destruct (first_exception rs) as [[] | e].
      * intros pre t' post H. destruct pre as [| p pre].
        -- simpl in H. inversion H; subst. simpl. by rewrite Et.
        -- simpl in H. inversion H; subst. simpl. rewrite Et. simpl.
           by eapply IH.
      * destruct IH as (pre & t' & post & -> & Hr & Hpre).
        exists (t :: pre), t', post. split; [done |]. simpl. rewrite Et.
        split; [done |]. intros pre' t'' post' H.
        destruct pre' as [| p pre'].
        -- simpl in H. inversion H; subst. simpl. by rewrite Et.
        -- simpl in H. inversion H; subst. simpl. rewrite Et. simpl.
           by eapply Hpre.
    + exists [], t, targets. split; [done |]. simpl. rewrite Et.
      split; [done |]. intros pre' t' post' H. by destruct pre'.
Qed.

(** X10.  [_sync_batch_to_all_targets] on a batch with rows gives the
    batch to every configured target, in configuration order, also to
    the targets that come after one that failed; it returns when all of
    them succeeded and otherwise raises the exception of the first
    target, in that order, that failed.  The empty batch reaches no
    target. *)
Theorem sync_batch_reaches_all_targets (cfg : SyncConfig) (table : string)
    (batch : list Dict) (w : World) :
  let out := _sync_batch_to_all_targets World batch_upsert cfg table batch w in
  (batch = [] → out = (Ok (), w))
  ∧ (batch ≠ [] →
     out.2 = foldl (λ w t, (batch_upsert t table batch w).2) w (cfg_targets cfg)
     ∧ match out.1 with
       | Ok _ =>
           ∀ pre t post, cfg_targets cfg = pre ++ t :: post →
             is_ok (batch_upsert t table batch
                      (foldl (λ w t, (batch_upsert t table batch w).2) w pre)).1
             = true
       | Raise e =>
           ∃ pre t post, cfg_targets cfg = pre ++ t :: post
             ∧ (batch_upsert t table batch
                  (foldl (λ w t, (batch_upsert t table batch w).2) w pre)).1
               = Raise e
             ∧ ∀ pre' t' post', pre = pre' ++ t' :: post' →
                 is_ok (batch_upsert t' table batch
                          (foldl (λ w t, (batch_upsert t table batch w).2)
                             w pre')).1 = true
       end).
Proof.
  intros out. subst out. split; [by intros -> |].
  intros Hne. unfold _sync_batch_to_all_targets.
  destruct batch as [| row batch]; [done |].
  pose proof (gather_upserts_world (cfg_targets cfg) table (row :: batch) w) as Hw.
  pose proof (gather_upserts_first (cfg_targets cfg) table (row :: batch) w) as Hr.
  destruct (gather_all (cfg_targets cfg) table (row :: batch) w) as [rs w'].
  simpl in *. split; [done |]. done.
Qed.

(** *** Running [sync_table] again *)

(** How [sync_table] comes to return a count: from a completed
    checkpoint, or from the pagination followed by the save of the
    final checkpoint. *)
Lemma sync_table_ok_inv fuel cfg table resume (env : Env) n env' :
  sync fuel cfg table resume env = (Some (Ok n), env') →
  ∃ m, get_table_mapping cfg table = Some m
    ∧ ((resume = true ∧ env' = env
        ∧ ∃ lp, load_initial_checkpoint (env_checkpoints _ _ env)
                  (pragma_database_path (env_src _ _ env)) table
                = Ok (Some (mkInitialSyncCheckpoint table lp n COMPLETED)))
       ∨ (0 <= n
          ∧ ∃ env2,
              env' = mkSyncEnv Src World (env_src _ _ env2) (env_world _ _ env2)
                       (save_initial_checkpoint (env_checkpoints _ _ env2)
                          (pragma_database_path (env_src _ _ env))
                          (mkInitialSyncCheckpoint table None n COMPLETED)))).
Proof.
  unfold sync_table. intros H.
  destruct (get_table_mapping cfg table) as [m |] eqn:Hm; [| done].
  exists m. split; [done |]. cbv zeta in H.
  destruct (if resume then _ else _) as [ck | e] eqn:Hl; [| done].
  assert (Htail : ∀ last_pk,
    match _sync_with_pagination convert Src source_execute pragma_database_path
            World batch_upsert fuel cfg table m
            (_get_effective_primary_key Src pragma_table_info table m
               (env_src _ _ env)) 0 last_pk 0 env with
    | (Some (Ok synced), env2) =>
        match InitialSyncCheckpoint_new table None synced COMPLETED with
        | Raise e => (Some (Raise e), env2)
        | Ok final_checkpoint =>
            (Some (Ok synced),
             mkSyncEnv Src World (env_src _ _ env2) (env_world _ _ env2)
               (save_initial_checkpoint (env_checkpoints _ _ env2)
                  (pragma_database_path (env_src _ _ env)) final_checkpoint))
        end
    | other => other
    end = (Some (Ok n), env') →
    0 <= n
    ∧ ∃ env2,
        env' = mkSyncEnv Src World (env_src _ _ env2) (env_world _ _ env2)
                 (save_initial_checkpoint (env_checkpoints _ _ env2)
                    (pragma_database_path (env_src _ _ env))
                    (mkInitialSyncCheckpoint table None n COMPLETED))).
  { clear H Hl. intros last_pk Ht.
    destruct (_sync_with_pagination _ _ _ _ _ _ _ _ _ _ _ _ _ _ _)
      as [[[synced | e] |] env2]; try done.
    unfold InitialSyncCheckpoint_new in Ht. simpl in Ht.
    destruct (0 <=? synced) eqn:E; [| done]. simpl in Ht.
    injection Ht as -> <-. apply Z.leb_le in E. split; [done |]. by exists env2. }
  destruct ck as [[t lp tot st] |].
  - destruct st; try (right; by apply (Htail lp)).
    left. injection H as -> <-.
    destruct resume; [| done]. split; [done |]. split; [done |].
    exists lp. rewrite Hl. unfold load_initial_checkpoint in Hl.
    destruct (env_checkpoints _ _ env !! _) as [row |]; [| done].
    destruct (SyncState_of_value (c_status row)); [| done].
    unfold InitialSyncCheckpoint_new in Hl.
    destruct (negb _ || negb _); [done |]. simpl in Hl. by injection Hl as <- _ _.
  - right. by apply (Htail None).
Qed.

(** X11.  [sync_table] is idempotent: when it has returned a count, the
    checkpoint store holds for that table a completed checkpoint with
    that count as [total_synced]; and as long as the source database
    reports the same file, running [sync_table] again with
    [resume=True] returns the same count and changes nothing: no page
    is read, no target is written, no checkpoint is saved. *)
Theorem sync_table_again_is_noop (fuel : nat) (cfg : SyncConfig) (table : string)
    (resume : bool) (env : SyncEnv Src World) (n : Z) (env' : SyncEnv Src World) :
  sync_table convert Src source_execute pragma_database_path pragma_table_info
    World batch_upsert fuel cfg table resume env = (Some (Ok n), env') →
  (∃ ck, load_initial_checkpoint (env_checkpoints _ _ env')
           (pragma_database_path (env_src _ _ env)) table = Ok (Some ck)
     ∧ ck_status ck = COMPLETED ∧ ck_total_synced ck = n)
  ∧ (pragma_database_path (env_src _ _ env')
     = pragma_database_path (env_src _ _ env) →
     ∀ fuel', sync_table convert Src source_execute pragma_database_path
                pragma_table_info World batch_upsert fuel' cfg table true env'
              = (Some (Ok n), env')).
Proof.
  intros H. apply sync_table_ok_inv in H as (m & Hm & H).
  assert (Hload : ∃ lp, load_initial_checkpoint (env_checkpoints _ _ env')
            (pragma_database_path (env_src _ _ env)) table
            = Ok (Some (mkInitialSyncCheckpoint table lp n COMPLETED))).
  { destruct H as [(_ & -> & H) | (Hn & env2 & ->)]; [done |].
    exists None. unfold load_initial_checkpoint, save_initial_checkpoint.
    cbn [env_checkpoints ck_table_name]. rewrite lookup_insert_eq.
    cbn. unfold InitialSyncCheckpoint_new. simpl.
    apply Z.leb_le in Hn. by rewrite Hn. }
  destruct Hload as (lp & Hload). split.
  - by eexists.
  - intros Hpath fuel'. unfold sync_table. rewrite Hm. cbv zeta.
    by rewrite Hpath, Hload.
Qed.

(** *** A run that fails *)

Lemma paginate_saves_running fuel cfg table m pk_column synced last_pk
    batch_num (env : Env) key row :
  env_checkpoints _ _
    (_sync_with_pagination convert Src source_execute pragma_database_path
       World batch_upsert fuel cfg table m pk_column synced last_pk batch_num
       env).2 !! key = Some row →
  env_checkpoints _ _ env !! key = Some row
  ∨ c_status row = SyncState_value RUNNING.
Proof.
  revert synced last_pk batch_num env.
  induction fuel as [| fuel IH]; intros synced last_pk batch_num env;
    [by left |].
  cbn [_sync_with_pagination].
  destruct (_fetch_batch Src source_execute table pk_column last_pk
              (cfg_batch_size cfg) (env_src _ _ env))
    as [[[| d ds] | e] src']; [by left | | by left].
  destruct (_sync_batch_to_all_targets World batch_upsert cfg
              (get_target_table m) (transform_batch convert m (d :: ds))
              (env_world _ _ env)) as [[[] | e] w']; [| by left].
  destruct ((batch_num + 1) mod 10 =? 0).
  - destruct (InitialSyncCheckpoint_new table
                (last_pk_of pk_column (d :: ds))
                (synced + Z.of_nat (length (d :: ds))) RUNNING)
      as [checkpoint | e] eqn:Enew; [| by left].
    intros H. apply IH in H. cbn [env_checkpoints] in H.
    destruct H as [H | H]; [| by right].
    unfold save_initial_checkpoint in H.
    destruct (decide (key = (pragma_database_path src',
                             ck_table_name checkpoint))) as [-> | Hne].
    + rewrite lookup_insert_eq in H. injection H as <-. right. simpl.
      unfold InitialSyncCheckpoint_new in Enew.
      destruct (negb _ || negb _); [done |]. by injection Enew as <-.
    + rewrite lookup_insert_ne in H by done. by left.
  - intros H. apply IH in H. done.
Qed.


End InitialMore.

(** *** Completeness of the copy *)

Section InitialComplete.

Variable convert : PyVal → ConverterType → Dict → PyVal.
Variable Src : Type.
Variable source_execute :
  string → list PyVal → Src → PyResult (list string * list (list PyVal)) * Src.
Variable pragma_database_path : Src → string.
Variable pragma_table_info : string → Src → PyResult (list (list PyVal)).
Variable World : Type.
Variable batch_upsert : string → string → list Dict → World → PyResult unit * World.

Variable R : Type.
Variable key : R → Z.
Variable render : R → list PyVal.

Variable cfg : SyncConfig.
Variable table pk : string.
Variable m : TableMapping.
Variable columns : list string.
Variable content : list R.
Variable src : Src.

#[local] Unset Default Proof Using.

Hypothesis Hsource :
  answers_page_queries source_execute key render table pk (cfg_batch_size cfg)
    columns content src.
Hypothesis Hrows : keyed_rows key render pk columns content.
Hypothesis Hsize : 1 <= cfg_batch_size cfg.
Hypothesis Htargets : ∀ t tbl rows w, (batch_upsert t tbl rows w).1 = Ok ().

#[local] Abbreviation to_dict := (λ r, dict_of_pairs (zip columns (render r))).
#[local] Abbreviation n := (Z.to_nat (cfg_batch_size cfg)).

(** The world after every target was given a page. *)
#[local] Abbreviation give_page :=
  (λ (w : World) (page : list R),
     foldl (λ w t, (batch_upsert t (get_target_table m)
                      (transform_batch convert m (to_dict <$> page)) w).2)
       w (cfg_targets cfg)).

#[local] Abbreviation paginate :=
  (_sync_with_pagination convert Src source_execute pragma_database_path
     World batch_upsert).

Lemma filter_after (k : Z) (done rest : list R) :
  Forall (λ r, key r <= k) done → Forall (λ r, k < key r) rest →
  List.filter (λ r, k <? key r) (done ++ rest) = rest.
Proof.
  intros Hd Hr. rewrite List.filter_app.
  assert (E1 : List.filter (λ r, k <? key r) done = []).
  { induction Hd as [| r done Hr' _ IH]; [done |]. simpl.
    destruct (k <? key r) eqn:E; [apply Z.ltb_lt in E; lia | done]. }
  assert (E2 : List.filter (λ r, k <? key r) rest = rest).
  { induction Hr as [| r rest Hr' _ IH]; [done |]. simpl.
    destruct (k <? key r) eqn:E; [by rewrite IH | apply Z.ltb_ge in E; lia]. }
  by rewrite E1, E2.
Qed.

#[local] Abbreviation stands := (stands_at key content).

Lemma fetch_page last_pk done rest :
  stands last_pk done rest →
  _fetch_batch Src source_execute table pk last_pk (cfg_batch_size cfg) src
  = (Ok (to_dict <$> take n rest), src).
Proof.
  intros [Hc Hl]. destruct Hsource as [Hfirst Hnext]. unfold _fetch_batch.
  destruct last_pk as [v |].
  - destruct Hl as (k & -> & Hd & Hr). simpl. rewrite Hnext, Hc.
    rewrite (filter_after k done rest Hd Hr). by rewrite <- list_fmap_compose.
  - subst done. simpl in Hc. subst content. simpl. rewrite Hfirst.
    by rewrite <- list_fmap_compose.
Qed.

Lemma gather_upserts_all_ok targets tbl batch w :
  first_exception (gather_upserts World batch_upsert targets tbl batch w).1
  = Ok ().
Proof.
  revert w. induction targets as [| t targets IH]; intros w; [done |].
  simpl. pose proof (Htargets t tbl batch w) as Ht.
  destruct (batch_upsert t tbl batch w) as [r w1]. simpl in Ht. subst r.
  specialize (IH w1).
  by destruct (gather_upserts World batch_upsert targets tbl batch w1).
Qed.

Lemma sync_batch_ok tbl batch w :
  batch ≠ [] →
  _sync_batch_to_all_targets World batch_upsert cfg tbl batch w
  = (Ok (), foldl (λ w t, (batch_upsert t tbl batch w).2) w (cfg_targets cfg)).
Proof.
  intros Hne. unfold _sync_batch_to_all_targets.
  destruct batch as [| row batch]; [done |].
  pose proof (gather_upserts_all_ok (cfg_targets cfg) tbl (row :: batch) w) as H1.
  pose proof (gather_upserts_world World batch_upsert (cfg_targets cfg) tbl
                (row :: batch) w) as H2.
  destruct (gather_upserts World batch_upsert (cfg_targets cfg) tbl
              (row :: batch) w) as [rs w']. simpl in *. by rewrite H1, H2.
Qed.

(** The last row of a page separates it from the rows after it. *)
Lemma page_separates (page rest : list R) (r : R) :
  StronglySorted Z.lt (key <$> (page ++ rest)) → last page = Some r →
  Forall (λ x, key x <= key r) page ∧ Forall (λ x, key r < key x) rest.
Proof.
  intros Hs Hl.
  apply last_Some in Hl as (front & ->).
  rewrite <- app_assoc, !fmap_app in Hs. simpl in Hs.
  split.
  - apply Forall_app. split; [| by repeat constructor].
    apply Forall_forall. intros x Hx.
    assert (key x < key r); [| lia].
    apply (StronglySorted_app_1_elem_of _ _ _ _ _ Hs).
    + by apply list_elem_of_fmap_2.
    + by left.
  - apply StronglySorted_app_1_r in Hs.
    apply StronglySorted_cons in Hs as [Hall _].
    apply Forall_forall. intros x Hx. rewrite Forall_forall in Hall.
    apply Hall. by apply list_elem_of_fmap_2.
Qed.

Lemma last_pk_of_page (page : list R) (r : R) :
  last page = Some r → r ∈ content →
  last_pk_of pk (to_dict <$> page) = Some (VInt (key r)).
Proof.
  intros Hl Hin. unfold last_pk_of. rewrite fmap_last, Hl. simpl.
  destruct Hrows as [_ Hk]. rewrite Forall_forall in Hk.
  by rewrite (Hk r Hin).
Qed.

Lemma paginate_complete (fuel : nat) :
  ∀ done rest synced last_pk batch_num w store,
    stands last_pk done rest →
    0 <= synced → (length rest < fuel)%nat →
    ∃ pages store',
      paginate fuel cfg table m pk synced last_pk batch_num
        (mkSyncEnv Src World src w store)
      = (Some (Ok (synced + Z.of_nat (length rest))),
         mkSyncEnv Src World src (foldl give_page w pages) store')
      ∧ concat pages = rest
      ∧ Forall (λ p, p ≠ [] ∧ (length p <= n)%nat) pages
      ∧ (store' = store
         ∨ ∃ row, store' = <[(pragma_database_path src, table) := row]> store).
Proof.
  induction fuel as [| fuel IH];
    intros done rest synced last_pk batch_num w store Hst Hsy Hfuel; [lia |].
  cbn [_sync_with_pagination env_src env_world env_checkpoints].
  rewrite (fetch_page last_pk done rest Hst).
  destruct rest as [| r0 rest0] eqn:Erest.
  { rewrite take_nil. simpl. exists [], store.
    rewrite Z.add_0_r. repeat split; [constructor | by left]. }
  rewrite <- Erest in *.
  assert (Hn : ∃ k, n = S k) by (exists (Nat.pred n); lia).
  destruct Hn as (k & Hn).
  set (page := take n rest).
  assert (Hpage : ∃ r1 page1, page = r1 :: page1).
  { unfold page. rewrite Hn, Erest. simpl. by eexists _, _. }
  destruct Hpage as (r1 & page1 & Epage).
  assert (Hlast : ∃ r, last page = Some r).
  { rewrite Epage. destruct (last (r1 :: page1)) eqn:E; [by eexists |].
    by apply last_None in E. }
  destruct Hlast as (rl & Hlast).
  assert (Hsplit : rest = page ++ drop n rest)
    by (unfold page; by rewrite take_drop).
  destruct Hst as [Hc Hl].
  assert (Hrl : rl ∈ content).
  { rewrite Hc, Hsplit. apply elem_of_app. right. apply elem_of_app. left.
    apply last_Some in Hlast as (front & ->). apply elem_of_app. right. by left. }
  assert (Hsorted : StronglySorted Z.lt (key <$> (page ++ drop n rest))).
  { destruct Hrows as [Hs _]. rewrite Hc, fmap_app in Hs.
    apply StronglySorted_app_1_r in Hs. by rewrite <- Hsplit. }
  destruct (page_separates page (drop n rest) rl Hsorted Hlast) as [Hp1 Hp2].
  assert (Hnext : stands (Some (VInt (key rl))) (done ++ page) (drop n rest)).
  { split; [by rewrite <- app_assoc, <- Hsplit |].
    exists (key rl). split; [done |]. split; [| done].
    apply Forall_app. split; [| done].
    destruct last_pk as [v |]; [| by subst done].
    destruct Hl as (k0 & _ & Hd & Hr).
    assert (k0 < key rl).
    { rewrite Forall_forall in Hr. apply Hr. rewrite Hsplit.
      apply elem_of_app. left. apply last_Some in Hlast as (front & ->).
      apply elem_of_app. right. by left. }
    eapply Forall_impl; [exact Hd |]. simpl. intros x Hx. lia. }
  assert (Hlen : (length page + length (drop n rest) = length rest)%nat).
  { rewrite <- length_app. by rewrite <- Hsplit. }
  assert (Hplen : (1 <= length page <= n)%nat).
  { split; [rewrite Epage; simpl; lia |]. unfold page. rewrite length_take. lia. }
  destruct (to_dict <$> page) as [| d ds] eqn:Ed;
    [by rewrite Epage in Ed |].
  cbv iota. rewrite <- Ed.
  unfold transform_batch.
  rewrite sync_batch_ok by (rewrite Epage; done).
  rewrite (last_pk_of_page page rl Hlast Hrl). rewrite length_fmap.
  assert (Hsy' : 0 <= synced + Z.of_nat (length page)) by lia.
  destruct (IH (done ++ page) (drop n rest)
              (synced + Z.of_nat (length page)) (Some (VInt (key rl)))
              (batch_num + 1) (give_page w page)
              store Hnext Hsy' ltac:(lia))
    as (pages1 & store1 & Hrun1 & Hcat1 & Hall1 & Hstore1).
  destruct (IH (done ++ page) (drop n rest)
              (synced + Z.of_nat (length page)) (Some (VInt (key rl)))
              (batch_num + 1) (give_page w page)
              (save_initial_checkpoint store (pragma_database_path src)
                 (mkInitialSyncCheckpoint table (Some (VInt (key rl)))
                    (synced + Z.of_nat (length page)) RUNNING))
              Hnext Hsy' ltac:(lia))
    as (pages2 & store2 & Hrun2 & Hcat2 & Hall2 & Hstore2).
  assert (Hsum : synced + Z.of_nat (length page)
                 + Z.of_nat (length (drop n rest))
                 = synced + Z.of_nat (length rest)) by lia.
  destruct ((batch_num + 1) mod 10 =? 0).
  - unfold InitialSyncCheckpoint_new. cbn [negb orb].
    apply Z.leb_le in Hsy' as Hleb. rewrite Hleb. cbn [negb].
    unfold transform_batch in Hrun2. rewrite Hrun2, Hsum.
    exists (page :: pages2), store2. split; [done |].
    split; [simpl; by rewrite Hcat2, <- Hsplit |].
    split; [constructor; [split; [by rewrite Epage | lia] | done] |].
    right. unfold save_initial_checkpoint in Hstore2. cbn in Hstore2.
    destruct Hstore2 as [-> | (row & ->)]; [by eexists |].
    exists row. by rewrite insert_insert_eq.
  - unfold transform_batch in Hrun1. rewrite Hrun1, Hsum.
    exists (page :: pages1), store1. split; [done |].
    split; [simpl; by rewrite Hcat1, <- Hsplit |].
    split; [constructor; [split; [by rewrite Epage | lia] | done] |].
    done.
Qed.

Lemma SyncState_of_value_value (st : SyncState) :
  SyncState_of_value (SyncState_value st) = Some st.
Proof. by destruct st. Qed.

(** The rows in key order split at any key. *)
Lemma split_at_key (k : Z) (l : list R) :
  StronglySorted Z.lt (key <$> l) →
  ∃ done, l = done ++ List.filter (λ r, k <? key r) l
    ∧ Forall (λ r, key r <= k) done
    ∧ Forall (λ r, k < key r) (List.filter (λ r, k <? key r) l).
Proof.
  induction l as [| x l IH]; intros Hs.
  - exists []. by repeat split.
  - rewrite fmap_cons in Hs. apply StronglySorted_cons in Hs as [Hall Hs].
    destruct (IH Hs) as (done & Hl & Hd & Hr). simpl.
    destruct (k <? key x) eqn:E.
    + apply Z.ltb_lt in E. exists [].
      assert (Hkeep : List.filter (λ r, k <? key r) l = l).
      { clear -Hall E. induction l as [| y l IH]; [done |].
        rewrite fmap_cons in Hall. apply Forall_cons in Hall as [Hy Hall].
        simpl. destruct (k <? key y) eqn:Ey; [by rewrite IH |].
        apply Z.ltb_ge in Ey. lia. }
      rewrite Hkeep. split; [done |]. split; [constructor |].
      constructor; [done |]. rewrite <- Hkeep. done.
    + apply Z.ltb_ge in E. exists (x :: done). split; [simpl; congruence |].
      split; [by constructor | done].
Qed.



End InitialComplete.

Lemma sync_table_again_is_noop_witness :
  (∃ ck, load_initial_checkpoint (env_checkpoints _ _ (sync_users 4 ∅).2)
           (path_demo (env_src _ _ users_logged_env)) "users" = Ok (Some ck)
     ∧ ck_status ck = COMPLETED ∧ ck_total_synced ck = 5)
  ∧ (path_demo (env_src _ _ (sync_users 4 ∅).2)
     = path_demo (env_src _ _ users_logged_env) →
     ∀ fuel', sync_table convert_id _ (logged_source source_execute_demo)
                path_demo table_info_demo _ batch_upsert_ok fuel' cfg_two
                "users" true (sync_users 4 ∅).2
              = (Some (Ok 5), (sync_users 4 ∅).2)).
Proof.
  apply (sync_table_again_is_noop convert_id _
           (logged_source source_execute_demo) path_demo table_info_demo _
           batch_upsert_ok 4 cfg_two "users" true users_logged_env 5
           (sync_users 4 ∅).2).
  vm_compute. reflexivity.
Defined.



(** The fresh run on the five rows of [users]: three pages to each of
    the two targets, and the completed checkpoint. *)
Example sync_users_copied :
  sync_table convert_id _ source_execute_demo path_demo table_info_demo
    (list Applied) batch_upsert_ok 6 cfg_two "users" true
    (mkSyncEnv _ _ users_five [] ∅)
  = (Some (Ok 5),
     mkSyncEnv _ _ users_five
       [ Upserted "T1" "users" (users_dict <$> [(1, "a"); (2, "b")]);
         Upserted "T2" "users" (users_dict <$> [(1, "a"); (2, "b")]);
         Upserted "T1" "users" (users_dict <$> [(3, "c"); (4, "d")]);
         Upserted "T2" "users" (users_dict <$> [(3, "c"); (4, "d")]);
         Upserted "T1" "users" (users_dict <$> [(5, "e")]);
         Upserted "T2" "users" (users_dict <$> [(5, "e")]) ]
       checkpoints_completed).
Proof. vm_compute. reflexivity. Qed.


(** The run in which target T2 refuses the first page: T1 has it, the
    run raises, and the checkpoint is the one of the interrupted run. *)
Example sync_users_T2_down :
  sync_table convert_id _ source_execute_demo path_demo table_info_demo
    (list Applied) batch_upsert_T2_down 6 cfg_two "users" true
    (mkSyncEnv _ _ users_five [] checkpoints_running)
  = (Some (Raise (DatabaseError "connection refused")),
     mkSyncEnv _ _ users_five
       [Upserted "T1" "users" (users_dict <$> [(3, "c"); (4, "d")])]
       checkpoints_running).
Proof. vm_compute. reflexivity. Qed.

(** ** More about the checkpoint store *)

(** X15.  A saved position is loaded back: after [save_position] under
    a key, [load_position] for that key returns the saved
    [last_audit_id], [total_events] and time, with the key's path and
    target name (the position's own two names are not stored); the
    positions under other keys are as before; and a key without row
    loads as the position at 0. *)
Theorem position_round_trip (now : datetime)
    (store : gmap (string * string) PositionRow) (src tgt : string)
    (position : SyncPosition) :
  0 <= last_audit_id position → 0 <= total_events position →
  load_position now (save_position store src tgt position) src tgt
  = Ok (mkSyncPosition src tgt (last_audit_id position)
          (last_processed_at position) (total_events position))
  ∧ (∀ src' tgt', (src', tgt') ≠ (src, tgt) →
       load_position now (save_position store src tgt position) src' tgt'
       = load_position now store src' tgt')
  ∧ (∀ src' tgt', store !! (src', tgt') = None →
       load_position now store src' tgt'
       = Ok (mkSyncPosition src' tgt' 0 now 0)).
Proof.
  intros Hl Ht. unfold load_position, save_position. split; [| split].
  - rewrite lookup_insert_eq. unfold SyncPosition_new. simpl.
    apply Z.leb_le in Hl, Ht. by rewrite Hl, Ht.
  - intros src' tgt' Hne. by rewrite lookup_insert_ne.
  - intros src' tgt' ->. done.
Qed.

Lemma InitialSyncCheckpoint_valid_inv (ck : InitialSyncCheckpoint) :
  InitialSyncCheckpoint_valid ck →
  0 <= ck_total_synced ck
  ∧ match ck_last_pk ck with
    | None | Some (VInt _) | Some (VStr _) => True
    | Some _ => False
    end.
Proof.
  unfold InitialSyncCheckpoint_valid, InitialSyncCheckpoint_new. intros H.
  destruct (0 <=? ck_total_synced ck) eqn:E.
  - apply Z.leb_le in E. split; [done |].
    destruct (ck_last_pk ck) as [[] |]; done.
  - by rewrite orb_true_r in H.
Qed.



Lemma load_initial_checkpoint_inv
    (store : gmap (string * string) CheckpointRow) (path table : string)
    (ck : InitialSyncCheckpoint) :
  load_initial_checkpoint store path table = Ok (Some ck) →
  ∃ row status,
    store !! (path, table) = Some row
    ∧ SyncState_of_value (c_status row) = Some status
    ∧ ∀ status',
        InitialSyncCheckpoint_new table
          ((λ text, match Py.int text with
                    | Some z => VInt z
                    | None => VStr text
                    end) <$> c_last_pk row)
          (c_total_synced row) status'
        = Ok (mkInitialSyncCheckpoint (ck_table_name ck) (ck_last_pk ck)
                (ck_total_synced ck) status').
Proof.
  unfold load_initial_checkpoint. intros H.
  destruct (store !! (path, table)) as [row |]; [| done].
  destruct (SyncState_of_value (c_status row)) as [status |] eqn:Est; [| done].
  exists row, status. split; [done |]. split; [done |]. intros status'.
  unfold InitialSyncCheckpoint_new in *.
  destruct (negb _ || negb _); [done |]. simpl in H. by injection H as <-.
Qed.

Section StoreAndSync.

Variable convert : PyVal → ConverterType → Dict → PyVal.
Variable Src : Type.
Variable source_execute :
  string → list PyVal → Src → PyResult (list string * list (list PyVal)) * Src.
Variable pragma_database_path : Src → string.
Variable pragma_table_info : string → Src → PyResult (list (list PyVal)).
Variable World : Type.
Variable batch_upsert : string → string → list Dict → World → PyResult unit * World.

(** X17.  [mark_initial_complete] makes [sync_table] pass the table
    over: when the store holds a checkpoint for the table, of whatever
    status, then after [mark_initial_complete] the checkpoint loads
    with the same key and count and the status completed, and
    [sync_table] with [resume=True] returns that count without reading
    a page or writing anything; when the store holds no checkpoint for
    the table, [mark_initial_complete] changes nothing. *)
Theorem marked_complete_is_passed_over (fuel : nat) (cfg : SyncConfig)
    (table : string) (m : TableMapping)
    (store : gmap (string * string) CheckpointRow)
    (src : Src) (w : World) (ck : InitialSyncCheckpoint) :
  get_table_mapping cfg table = Some m →
  load_initial_checkpoint store (pragma_database_path src) table
  = Ok (Some ck) →
  let store' := mark_initial_complete store (pragma_database_path src) table in
  load_initial_checkpoint store' (pragma_database_path src) table
  = Ok (Some (mkInitialSyncCheckpoint (ck_table_name ck) (ck_last_pk ck)
                (ck_total_synced ck) COMPLETED))
  ∧ sync_table convert Src source_execute pragma_database_path
      pragma_table_info World batch_upsert fuel cfg table true
      (mkSyncEnv Src World src w store')
    = (Some (Ok (ck_total_synced ck)), mkSyncEnv Src World src w store')
  ∧ (∀ path' table', store !! (path', table') = None →
       mark_initial_complete store path' table' = store).
Proof.
  intros Hm Hload store'.
  apply load_initial_checkpoint_inv in Hload as (row & status & Hrow & _ & Hnew).
  assert (Hload' : load_initial_checkpoint store' (pragma_database_path src)
                     table
                   = Ok (Some (mkInitialSyncCheckpoint (ck_table_name ck)
                                 (ck_last_pk ck) (ck_total_synced ck)
                                 COMPLETED))).
  { unfold load_initial_checkpoint. subst store'.
    unfold mark_initial_complete. rewrite lookup_alter_eq, Hrow. simpl.
    change (SyncState_of_value "completed") with (Some COMPLETED).
    by rewrite Hnew. }
  split; [done |]. split.
  - unfold sync_table. rewrite Hm. cbv zeta. cbn [env_src env_checkpoints].
    by rewrite Hload'.
  - intros path' table' Hnone. unfold mark_initial_complete.
    apply map_eq. intros k. destruct (decide (k = (path', table'))) as [-> | Hne].
    + by rewrite lookup_alter_eq, Hnone.
    + by rewrite lookup_alter_ne.
Qed.

(** X18.  [delete_initial_checkpoint] makes a resumed run a fresh run:
    after it no checkpoint loads for the table, the checkpoints of the
    other tables load as before, and [sync_table] with [resume=True]
    does what it does with [resume=False]. *)
Theorem deleted_checkpoint_starts_afresh (fuel : nat) (cfg : SyncConfig)
    (table : string) (store : gmap (string * string) CheckpointRow)
    (src : Src) (w : World) :
  let store' := delete_initial_checkpoint store (pragma_database_path src)
                  table in
  load_initial_checkpoint store' (pragma_database_path src) table = Ok None
  ∧ (∀ path' table', (path', table') ≠ (pragma_database_path src, table) →
       load_initial_checkpoint store' path' table'
       = load_initial_checkpoint store path' table')
  ∧ sync_table convert Src source_execute pragma_database_path
      pragma_table_info World batch_upsert fuel cfg table true
      (mkSyncEnv Src World src w store')
    = sync_table convert Src source_execute pragma_database_path
        pragma_table_info World batch_upsert fuel cfg table false
        (mkSyncEnv Src World src w store').
Proof.
  intros store'.
  assert (Hload : load_initial_checkpoint store' (pragma_database_path src)
                    table = Ok None).
  { unfold load_initial_checkpoint. subst store'.
    unfold delete_initial_checkpoint. by rewrite lookup_delete_eq. }
  split; [done |]. split.
  - intros path' table' Hne. unfold load_initial_checkpoint. subst store'.
    unfold delete_initial_checkpoint. by rewrite lookup_delete_ne.
  - unfold sync_table. destruct (get_table_mapping cfg table); [| done].
    cbv zeta. cbn [env_src env_checkpoints]. by rewrite Hload.
Qed.

End StoreAndSync.

Lemma position_round_trip_witness :
  load_position "now" (save_position ∅ "source.db" "T1" pos_T1) "source.db" "T1"
  = Ok (mkSyncPosition "source.db" "T1" (last_audit_id pos_T1)
          (last_processed_at pos_T1) (total_events pos_T1))
  ∧ (∀ src' tgt', (src', tgt') ≠ ("source.db", "T1") →
       load_position "now" (save_position ∅ "source.db" "T1" pos_T1) src' tgt'
       = load_position "now" ∅ src' tgt')
  ∧ (∀ src' tgt', (∅ : gmap (string * string) PositionRow) !! (src', tgt') = None →
       load_position "now" ∅ src' tgt'
       = Ok (mkSyncPosition src' tgt' 0 "now" 0)).
Proof.
  apply (position_round_trip "now" ∅ "source.db" "T1" pos_T1); simpl; lia.
Defined.


(** The checkpoint at key 0 is read back without key, the one at the
    text key ["007"] with the integer 7. *)
Example checkpoint_at_zero_loses_key :
  load_initial_checkpoint (save_initial_checkpoint ∅ "source.db" ck_at_zero)
    "source.db" "users"
  = Ok (Some (mkInitialSyncCheckpoint "users" None 1 RUNNING)).
Proof. vm_compute. reflexivity. Qed.

Example checkpoint_at_text_key_becomes_integer :
  load_initial_checkpoint (save_initial_checkpoint ∅ "source.db" ck_at_text)
    "source.db" "users"
  = Ok (Some (mkInitialSyncCheckpoint "users" (Some (VInt 7)) 7 RUNNING)).
Proof. vm_compute. reflexivity. Qed.

Lemma marked_complete_is_passed_over_witness :
  let store' := mark_initial_complete checkpoints_running
                  (path_demo users_five) "users" in
  load_initial_checkpoint store' (path_demo users_five) "users"
  = Ok (Some (mkInitialSyncCheckpoint "users" (Some (VInt 2)) 2 COMPLETED))
  ∧ sync_table convert_id _ source_execute_demo path_demo table_info_demo
      (list Applied) batch_upsert_ok 0 cfg_two "users" true
      (mkSyncEnv _ _ users_five [] store')
    = (Some (Ok 2), mkSyncEnv _ _ users_five [] store')
  ∧ (∀ path' table', checkpoints_running !! (path', table') = None →
       mark_initial_complete checkpoints_running path' table'
       = checkpoints_running).
Proof.
  apply (marked_complete_is_passed_over convert_id _ source_execute_demo
           path_demo table_info_demo (list Applied) batch_upsert_ok 0 cfg_two
           "users" users_mapping checkpoints_running users_five []
           (mkInitialSyncCheckpoint "users" (Some (VInt 2)) 2 RUNNING));
    reflexivity.
Defined.

(** ** More about the capture interceptor *)


Section ConnectionMore.

Variable DB : Type.
Variable raw_execute : string → Params → DB → PyResult Cursor * DB.
Variable json_dumps : Dict → PyResult string.
Variable repr : PyVal → string.
Variable sqlparse_parse : string → PyResult (list (list Token)).

(** X20.  The row id of an UPDATE or DELETE comes from the before-image
    or from the first parameter: [_extract_row_id_from_where] returns
    the text of the before-image's [ROWID] entry when there is one, and
    otherwise nothing or the text of the first parameter of the
    statement, whatever placeholder that parameter is bound to. *)
Theorem row_id_from_image_or_first_parameter (sql : string)
    (params : list PyVal) (before_data : option Dict) :
  match opt_bind before_data (λ d, dict_get d "ROWID") with
  | Some v =>
      _extract_row_id_from_where repr sql params before_data
      = Some (str_val repr v)
  | None =>
      _extract_row_id_from_where repr sql params before_data = None
      ∨ ∃ v rest, params = v :: rest
          ∧ _extract_row_id_from_where repr sql params before_data
            = Some (str_val repr v)
  end.
Proof.
  unfold _extract_row_id_from_where.
  destruct (opt_bind before_data (λ d, dict_get d "ROWID")); [done |].
  destruct (_extract_where_clause sql) as [w |]; [| by left].
  destruct (negb (String.eqb w "") && Py.contains "ROWID" (Py.upper w));
    [| by left].
  destruct (Py.split (Py.upper w) "ROWID") as [| p0 [| part parts]];
    [by left | by left |].
  destruct (Py.contains "=" part); [| by left].
  destruct params as [| v rest]; [by left |].
  right. by exists v, rest.
Qed.

Lemma extract_row_id_none (sql : string) (params : list PyVal)
    (before_data : option Dict) :
  (∀ d, before_data = Some d → dict_get d "ROWID" = None) →
  (∀ w, _extract_where_clause sql = Some w →
     Py.contains "ROWID" (Py.upper w) = false) →
  _extract_row_id_from_where repr sql params before_data = None.
Proof.
  intros Hb Hw. unfold _extract_row_id_from_where.
  assert (E : opt_bind before_data (λ d, dict_get d "ROWID") = None).
  { destruct before_data as [d |]; [by apply Hb | done]. }
  rewrite E. destruct (_extract_where_clause sql) as [w |]; [| done].
  rewrite (Hw w eq_refl). by rewrite andb_false_r.
Qed.

(** X21.  An UPDATE or DELETE that does not name its row by [ROWID] is
    audited without row id: when neither the WHERE clause of the
    statement mentions [ROWID] nor the before-image has a [ROWID]
    entry, [execute] fetches the before-image with the statement's whole
    parameter tuple, runs the statement, fetches no after-image, and
    inserts an audit row whose [row_id] and whose [after_data] are
    NULL, for an UPDATE as for a DELETE. *)
Theorem write_without_rowid_audited_without_row_id (conn : CDCConnection)
    (sql : string) (parameters : Params) (op : OperationType)
    (table : option string) (db : DB) :
  parse_sql sqlparse_parse sql = (Some op, table) →
  _should_audit conn table = true →
  op ≠ INSERT →
  (∀ w, _extract_where_clause sql = Some w →
     Py.contains "ROWID" (Py.upper w) = false) →
  let params := _convert_parameters parameters in
  let fetched := _fetch_before_data DB raw_execute sql params table db in
  (∀ d, fetched.1 = Some d → dict_get d "ROWID" = None) →
  execute DB raw_execute json_dumps repr sqlparse_parse conn sql parameters db
  = match raw_execute sql (PTuple params) fetched.2 with
    | (Raise e, db2) => (Raise e, db2)
    | (Ok cursor, db2) =>
        match dumps_or_null json_dumps fetched.1 with
        | Raise e => (Raise e, db2)
        | Ok before_json =>
            match raw_execute (audit_insert_sql (conn_audit_table conn))
                    (audit_params table op None before_json VNone) db2 with
            | (Raise e, db3) => (Raise e, db3)
            | (Ok _, db3) => (Ok cursor, db3)
            end
        end
    end.
Proof.
  intros Hp Ha Hop Hw params fetched Hb.
  rewrite (execute_audited DB raw_execute json_dumps repr sqlparse_parse
             conn sql parameters op table db Hp Ha).
  unfold _execute_with_audit. fold params.
  assert (Hcb : capture_before DB raw_execute repr sql params op table db
                = ((fetched.1, None), fetched.2)).
  { unfold capture_before. subst fetched.
    destruct (_fetch_before_data DB raw_execute sql params table db)
      as [before db1] eqn:Ef. simpl in *.
    rewrite (extract_row_id_none sql params before Hb Hw).
    by destruct op. }
  rewrite Hcb.
  destruct (raw_execute sql (PTuple params) fetched.2) as [[cursor | e] db2];
    [| done].
  assert (Hca : capture_after DB raw_execute op table None cursor db2
                = ((None, None), db2)) by by destruct op.
  rewrite Hca. unfold _write_audit_log.
  destruct (dumps_or_null json_dumps fetched.1) as [before_json | e]; [| done].
  simpl. by destruct (raw_execute _ _ db2) as [[c | e] db3].
Qed.

(** X22.  No audit row without an audited write that succeeded.  On a
    connection that records the calls made on it: a statement that
    [parse_sql] does not classify, or whose table is not audited, is
    passed on in one call and nothing else is called; and when the
    statement of an audited write raises, [execute] raises the same
    exception and the statement is the last call made, so that no audit
    row is inserted. *)
Theorem no_audit_row_without_write (conn : CDCConnection) (sql : string)
    (parameters : Params) (st : DB * list (string * Params)) :
  let out := execute (DB * list (string * Params)) (logged raw_execute)
               json_dumps repr sqlparse_parse conn sql parameters st in
  let params := _convert_parameters parameters in
  ((parse_sql sqlparse_parse sql).1 = None
   ∨ _should_audit conn (parse_sql sqlparse_parse sql).2 = false →
   out = logged raw_execute sql (PTuple params) st
   ∧ out.2.2 = st.2 ++ [(sql, PTuple params)])
  ∧ (∀ op table,
       parse_sql sqlparse_parse sql = (Some op, table) →
       _should_audit conn table = true →
       let mid := capture_before (DB * list (string * Params))
                    (logged raw_execute) repr sql params op table st in
       ∀ e db2, raw_execute sql (PTuple params) mid.2.1 = (Raise e, db2) →
         out = (Raise e, (db2, mid.2.2 ++ [(sql, PTuple params)]))).
Proof.
  intros out params. split.
  - intros H. subst out. unfold execute.
    assert (E : (logged raw_execute sql (PTuple params) st).2.2
                = st.2 ++ [(sql, PTuple params)]).
    { unfold logged. by destruct (raw_execute _ _ _). }
    destruct (parse_sql sqlparse_parse sql) as [[op |] table]; simpl in H.
    + destruct H as [H | H]; [done |]. rewrite H. split; [done | exact E].
    + split; [done | exact E].
  - intros op table Hp Ha mid e db2 Hr. subst out.
    rewrite (execute_audited _ (logged raw_execute) json_dumps repr
               sqlparse_parse conn sql parameters op table st Hp Ha).
    unfold _execute_with_audit. fold params. subst mid.
    destruct (capture_before _ (logged raw_execute) repr sql params op table st)
      as [[before row_id] [db1 log1]]. simpl in *.
    unfold logged at 1. simpl. by rewrite Hr.
Qed.

End ConnectionMore.

(** The UPDATE of the package's own tests, which names its row by a
    column: the audit row holds neither row id nor image. *)
Example update_by_name_audit_row :
  (execute _ raw_execute_fine json_dumps_demo repr_demo sqlparse_demo conn_all
     "UPDATE users SET email = ? WHERE name = ?"
     (PTuple [VStr "new@example.com"; VStr "zhang"]) []).2
  = [ ("SELECT * FROM users WHERE name = ? LIMIT 1",
       PTuple [VStr "new@example.com"; VStr "zhang"]);
      ("UPDATE users SET email = ? WHERE name = ?",
       PTuple [VStr "new@example.com"; VStr "zhang"]);
      (audit_insert_sql "_cdc_audit_log",
       PTuple [VStr "users"; VStr "UPDATE"; VNone; VNone; VNone]) ].
Proof. vm_compute. reflexivity. Qed.

(** An UPDATE that names its row by [ROWID] after a placeholder in the
    SET clause: the row id recorded is the new name. *)
Example update_by_rowid_takes_first_parameter :
  _extract_row_id_from_where repr_demo
    "UPDATE users SET name = ? WHERE ROWID = ?" [VStr "bob"; VInt 5] None
  = Some "bob".
Proof. vm_compute. reflexivity. Qed.

Lemma write_without_rowid_audited_without_row_id_witness :
  let sql := "UPDATE users SET email = ? WHERE name = ?" in
  let parameters := PTuple [VStr "new@example.com"; VStr "zhang"] in
  let params := _convert_parameters parameters in
  let fetched := _fetch_before_data _ raw_execute_fine sql params (Some "users")
                   [] in
  execute _ raw_execute_fine json_dumps_demo repr_demo sqlparse_demo conn_all
    sql parameters []
  = match raw_execute_fine sql (PTuple params) fetched.2 with
    | (Raise e, db2) => (Raise e, db2)
    | (Ok cursor, db2) =>
        match dumps_or_null json_dumps_demo fetched.1 with
        | Raise e => (Raise e, db2)
        | Ok before_json =>
            match raw_execute_fine (audit_insert_sql (conn_audit_table conn_all))
                    (audit_params (Some "users") UPDATE None before_json VNone)
                    db2 with
            | (Raise e, db3) => (Raise e, db3)
            | (Ok _, db3) => (Ok cursor, db3)
            end
        end
    end.
Proof.
  apply (write_without_rowid_audited_without_row_id _ raw_execute_fine
           json_dumps_demo repr_demo sqlparse_demo conn_all
           "UPDATE users SET email = ? WHERE name = ?"
           (PTuple [VStr "new@example.com"; VStr "zhang"]) UPDATE
           (Some "users") []).
  - vm_compute. reflexivity.
  - reflexivity.
  - discriminate.
  - intros w Hw. vm_compute in Hw. injection Hw as <-. vm_compute. reflexivity.
  - intros d Hd. vm_compute in Hd. discriminate.
Defined.

(** ** The transformer *)

Section TransformerMore.

Variable convert : PyVal → ConverterType → Dict → PyVal.

Lemma transform_as_pairs (m : TableMapping) (row : Dict) :
  transform convert m row
  = dict_of_pairs (transformed_field convert m <$> row).
Proof.
  unfold transform, dict_of_pairs.
  assert (H : ∀ d, foldl (λ result kv,
                match field_converter m kv.1 with
                | Some fm =>
                    let value := match converter fm with
                                 | Some c => convert kv.2 c (converter_params fm)
                                 | None => kv.2
                                 end in
                    dict_set result (str_or (target_field fm) kv.1) value
                | None => dict_set result kv.1 kv.2
                end) d row
              = foldl (λ d kv, dict_set d kv.1 kv.2) d
                  (transformed_field convert m <$> row)).
  { induction row as [| kv row IH]; intros d; [done |].
    simpl. rewrite <- IH. f_equal. unfold transformed_field.
    by destruct (field_converter m kv.1). }
  apply H.
Qed.


End TransformerMore.

(** Two fields written to one column: the later one is kept. *)
Example transform_collision :
  transform convert_id colliding_mapping
    [("id", VInt 1); ("name", VStr "Zhang San"); ("nick", VStr "zs")]
  = [("id", VInt 1); ("label", VStr "zs")].
Proof. reflexivity. Qed.

(** ** The converters *)

Section TextFacts.

Lemma upper_char_idem (c : ascii) : Py.upper_char (Py.upper_char c) = Py.upper_char c.
Proof.
  destruct c as [[] [] [] [] [] [] [] []]; reflexivity.
Qed.

Lemma lower_char_idem (c : ascii) : lower_char (lower_char c) = lower_char c.
Proof.
  destruct c as [[] [] [] [] [] [] [] []]; reflexivity.
Qed.

Lemma upper_idem (s : string) : Py.upper (Py.upper s) = Py.upper s.
Proof.
  induction s as [| c s IH]; [done |]. simpl. by rewrite upper_char_idem, IH.
Qed.

Lemma str_lower_idem (s : string) : str_lower (str_lower s) = str_lower s.
Proof.
  induction s as [| c s IH]; [done |]. simpl. by rewrite lower_char_idem, IH.
Qed.

Lemma rstrip_idem (s : string) : Py.rstrip (Py.rstrip s) = Py.rstrip s.
Proof.
  induction s as [| c s IH]; [done |]. simpl.
  destruct (Py.rstrip s) as [| c' r] eqn:E.
  - destruct (Py.is_space c) eqn:Ec; [done |]. simpl. by rewrite Ec.
  - simpl. simpl in IH. by rewrite IH.
Qed.

(** A text that does not start with white space keeps its start when
    white space is taken from its end. *)
Lemma lstrip_rstrip_fixed (s : string) :
  Py.lstrip s = s → Py.lstrip (Py.rstrip s) = Py.rstrip s.
Proof.
  destruct s as [| c s]; [done |]. simpl.
  destruct (Py.is_space c) eqn:Ec.
  - intros H. exfalso.
    assert (Hlen : ∀ t, (String.length (Py.lstrip t) <= String.length t)%nat).
    { clear. induction t as [| a t IH]; [done |]. simpl.
      destruct (Py.is_space a); simpl; lia. }
    specialize (Hlen s). rewrite H in Hlen. simpl in Hlen. lia.
  - intros _. destruct (Py.rstrip s); simpl; by rewrite Ec.
Qed.

Lemma lstrip_idem (s : string) : Py.lstrip (Py.lstrip s) = Py.lstrip s.
Proof.
  induction s as [| c s IH]; [done |]. simpl.
  destruct (Py.is_space c) eqn:Ec; [done |]. simpl. by rewrite Ec.
Qed.

Lemma strip_idem (s : string) : Py.strip (Py.strip s) = Py.strip s.
Proof.
  unfold Py.strip.
  rewrite (lstrip_rstrip_fixed (Py.lstrip s)) by apply lstrip_idem.
  apply rstrip_idem.
Qed.

End TextFacts.

Section ConvertersMore.

Variable repr : PyVal → string.
Variable float_of_text : string → option string.
Variable float_of_int : Z → option string.
Variable int_of_float : string → Outcome Z.
Variable float_is_zero : string → bool.

#[local] Abbreviation conv :=
  (convert_value repr float_of_text float_of_int int_of_float float_is_zero).

Lemma type_map_fixed (name : string) f v v1 :
  type_map repr float_of_text float_of_int int_of_float float_is_zero name
  = Some f →
  f v = Returns v1 → f v1 = Returns v1 ∧ v1 ≠ VNone.
Proof.
  unfold type_map. intros Hf Hv.
  destruct (String.eqb name "str");
    [injection Hf as <-; unfold to_str in *; injection Hv as <-; done |].
  destruct (String.eqb name "int").
  { injection Hf as <-. unfold to_int in *.
    destruct v as [| b | z | r | s | l | d]; try done.
    - injection Hv as <-. done.
    - injection Hv as <-. done.
    - destruct (int_of_float r); [| done]. injection Hv as <-. done.
    - destruct (Py.int s); [| done]. injection Hv as <-. done. }
  destruct (String.eqb name "float").
  { injection Hf as <-. unfold to_float in *.
    destruct v as [| b | z | r | s | l | d]; try done.
    - injection Hv as <-. done.
    - destruct (float_of_int z); [| done]. injection Hv as <-. done.
    - injection Hv as <-. done.
    - destruct (float_of_text s); [| done]. injection Hv as <-. done. }
  destruct (String.eqb name "bool"); [| done].
  injection Hf as <-. unfold to_bool in *. injection Hv as <-. done.
Qed.

(** X24.  Every converter is idempotent: when [convert] returns a
    value, converting that value again with the same converter and the
    same parameters returns it unchanged. *)
Theorem convert_is_idempotent (value : PyVal) (converter_type : ConverterType)
    (params : Dict) (converted : PyVal) :
  convert_value repr float_of_text float_of_int int_of_float float_is_zero
    value converter_type params = Returns converted →
  convert_value repr float_of_text float_of_int int_of_float float_is_zero
    converted converter_type params = Returns converted.
Proof.
  destruct converter_type; simpl; intros H.
  - injection H as <-. unfold _lowercase.
    destruct value; simpl; by rewrite ?str_lower_idem.
  - injection H as <-. unfold _uppercase.
    destruct value; simpl; by rewrite ?upper_idem.
  - injection H as <-. unfold _trim.
    destruct value; simpl; by rewrite ?strip_idem.
  - injection H as <-. unfold _default.
    destruct (none_or_empty value) eqn:E; [| by rewrite E].
    by destruct (none_or_empty (default VNone (dict_get params "value"))).
  - unfold _typecast in *.
    set (target := default (VStr "str") (dict_get params "target_type")) in *.
    assert (Hsame : value = converted → match converted with
              | VNone => Returns VNone
              | _ => match target with
                     | VList _ | VDict _ => Raises "TypeError"
                     | VStr name =>
                         match type_map repr float_of_text float_of_int
                                 int_of_float float_is_zero name with
                         | Some f =>
                             match f converted with
                             | Returns v => Returns v
                             | Raises e =>
                                 if caught e then Returns converted
                                 else Raises e
                             end
                         | None => Returns converted
                         end
                     | _ => Returns converted
                     end
              end = Returns converted).
    { intros <-. destruct value; try done. }
    destruct value as [| b | z | r | s | l | d];
      [by injection H as <- | | | | | |];
      (destruct target as [| ? | ? | ? | name | ? | ?];
       [by apply Hsame; injection H | by apply Hsame; injection H
       | by apply Hsame; injection H | by apply Hsame; injection H
       | | done | done]);
      (destruct (type_map repr float_of_text float_of_int int_of_float
                   float_is_zero name) as [f |] eqn:Ef;
       [| by apply Hsame; injection H]);
      (match type of H with
       | context [f ?v] => destruct (f v) as [v1 | e] eqn:Ev
       end;
       [ injection H as <-;
         destruct (type_map_fixed name f _ v1 Ef Ev) as [Hfix Hnn];
         destruct v1; [done | | | | | |]; by rewrite Hfix
       | destruct (caught e); [| done]; apply Hsame; by injection H ]).
Qed.


End ConvertersMore.

Lemma convert_is_idempotent_witness :
  convert_value repr_demo float_of_text_demo float_of_int_demo
    int_of_float_demo float_is_zero_demo (VInt 42) TYPECAST
    [("target_type", VStr "int")] = Returns (VInt 42).
Proof.
  apply (convert_is_idempotent repr_demo float_of_text_demo float_of_int_demo
           int_of_float_demo float_is_zero_demo (VStr " 4_2 ") TYPECAST
           [("target_type", VStr "int")] (VInt 42)).
  vm_compute. reflexivity.
Defined.

(** An infinity leaves [typecast] to [int] as an [OverflowError]. *)
Example typecast_infinity_raises :
  convert_value repr_demo float_of_text_demo float_of_int_demo
    int_of_float_demo float_is_zero_demo (VFloat "inf") TYPECAST
    [("target_type", VStr "int")] = Raises "OverflowError".
Proof. reflexivity. Qed.

(** ** More about the classifier *)

Section ParserMore.

Variable sqlparse_parse : string → PyResult (list (list Token)).

Lemma is_space_upper_char (c : ascii) :
  Py.is_space (Py.upper_char c) = Py.is_space c.
Proof. destruct c as [[] [] [] [] [] [] [] []]; reflexivity. Qed.

Lemma upper_lstrip (s : string) : Py.upper (Py.lstrip s) = Py.lstrip (Py.upper s).
Proof.
  induction s as [| c s IH]; [done |]. simpl.
  rewrite is_space_upper_char. by destruct (Py.is_space c).
Qed.

Lemma upper_rstrip (s : string) : Py.upper (Py.rstrip s) = Py.rstrip (Py.upper s).
Proof.
  induction s as [| c s IH]; [done |]. simpl. rewrite <- IH.
  rewrite is_space_upper_char.
  destruct (Py.rstrip s); simpl; [by destruct (Py.is_space c) | done].
Qed.

Lemma upper_strip (s : string) : Py.upper (Py.strip s) = Py.strip (Py.upper s).
Proof. unfold Py.strip. by rewrite upper_rstrip, upper_lstrip. Qed.

(** X26.  The operation of a statement does not depend on the case of
    its letters: two texts with the same upper-case form have the same
    operation, and so [parse_sql] does not classify the one without
    classifying the other; [is_write_operation] holds exactly when
    there is an operation. *)
Theorem parse_operation_ignores_case (sql sql' : string) :
  Py.upper sql = Py.upper sql' →
  parse_operation sql = parse_operation sql'
  ∧ (parse_sql sqlparse_parse sql).1 = (parse_sql sqlparse_parse sql').1
  ∧ is_write_operation sql = is_write_operation sql'
  ∧ (is_write_operation sql = true
     ↔ ∃ op, (parse_sql sqlparse_parse sql).1 = Some op).
Proof.
  intros H.
  assert (E : parse_operation sql = parse_operation sql').
  { unfold parse_operation. by rewrite !upper_strip, H. }
  split; [done |]. split; [| split].
  - unfold parse_sql. rewrite E. by destruct (parse_operation sql').
  - unfold is_write_operation. by rewrite E.
  - unfold is_write_operation, parse_sql.
    destruct (parse_operation sql) as [op |]; simpl.
    + split; [by eexists | done].
    + split; [done | by intros [op ?]].
Qed.

(** *** The regular expressions *)

Lemma take_word_word (s : string) : word_text (take_word s).
Proof.
  unfold word_text. induction s as [| c s IH]; [constructor |]. simpl.
  destruct (is_word c) eqn:E; [by constructor | constructor].
Qed.

Lemma match_name_word (s w : string) :
  match_name s = Some w → w ≠ EmptyString ∧ word_text w.
Proof.
  unfold match_name.
  set (s1 := match s with
             | String c s' => if is_quote c then s' else s
             | EmptyString => s
             end).
  pose proof (take_word_word s1) as Hw.
  destruct (take_word s1) as [| c t]; [done |].
  intros H. injection H as <-. done.
Qed.

Lemma opt_bind_some {A B : Type} (o : option A) (k : A → option B) (b : B) :
  opt_bind o k = Some b → ∃ a, o = Some a ∧ k a = Some b.
Proof. destruct o as [a |]; [by exists a | done]. Qed.

Lemma match_insert_word (s w : string) :
  match_insert s = Some w → w ≠ EmptyString ∧ word_text w.
Proof.
  unfold match_insert. intros H.
  apply opt_bind_some in H as (s1 & _ & H).
  apply opt_bind_some in H as (s2 & _ & H).
  apply opt_bind_some in H as (s3 & _ & H).
  apply opt_bind_some in H as (s4 & _ & H).
  by apply match_name_word in H.
Qed.

Lemma match_update_word (s w : string) :
  match_update s = Some w → w ≠ EmptyString ∧ word_text w.
Proof.
  unfold match_update. intros H.
  apply opt_bind_some in H as (s1 & _ & H).
  apply opt_bind_some in H as (s2 & _ & H).
  by apply match_name_word in H.
Qed.

Lemma match_delete_word (s w : string) :
  match_delete s = Some w → w ≠ EmptyString ∧ word_text w.
Proof.
  unfold match_delete. intros H.
  apply opt_bind_some in H as (s1 & _ & H).
  apply opt_bind_some in H as (s2 & _ & H).
  destruct (opt_bind (match_literal "FROM" s2) _) as [w' |] eqn:E.
  - injection H as <-.
    apply opt_bind_some in E as (s3 & _ & E).
    apply opt_bind_some in E as (s4 & _ & E).
    by apply match_name_word in E.
  - by apply match_name_word in H.
Qed.

Lemma re_search_some (pattern : string → option string) (s w : string) :
  re_search pattern s = Some w → ∃ s', pattern s' = Some w.
Proof.
  induction s as [| c s IH]; simpl.
  - destruct (pattern "") eqn:E; [| done]. intros H. injection H as <-.
    by eexists.
  - destruct (pattern (String c s)) eqn:E.
    + intros H. injection H as <-. by eexists.
    + apply IH.
Qed.


End ParserMore.

Lemma parse_operation_ignores_case_witness :
  parse_operation "insert into Users values (1)"
  = parse_operation "INSERT INTO USERS VALUES (1)"
  ∧ (parse_sql sqlparse_demo "insert into Users values (1)").1
    = (parse_sql sqlparse_demo "INSERT INTO USERS VALUES (1)").1
  ∧ is_write_operation "insert into Users values (1)"
    = is_write_operation "INSERT INTO USERS VALUES (1)"
  ∧ (is_write_operation "insert into Users values (1)" = true
     ↔ ∃ op, (parse_sql sqlparse_demo "insert into Users values (1)").1
             = Some op).
Proof.
  apply (parse_operation_ignores_case sqlparse_demo
           "insert into Users values (1)" "INSERT INTO USERS VALUES (1)").
  reflexivity.
Defined.


(** ** The MySQL writer *)

Section WriterMore.

Lemma range_from_batches (step : nat) (rows : list Dict) :
  (1 <= step)%nat →
  ∀ fuel i, (length rows - i <= fuel)%nat →
    concat ((λ j, take step (drop j rows))
              <$> range_from fuel i (length rows) step)
    = drop i rows
    ∧ Forall (λ b, b ≠ [] ∧ (length b <= step)%nat)
        ((λ j, take step (drop j rows))
           <$> range_from fuel i (length rows) step).
Proof.
  intros Hstep. induction fuel as [| fuel IH]; intros i Hfuel.
  - simpl. rewrite drop_ge by lia. split; [done | constructor].
  - simpl. destruct (i <? length rows)%nat eqn:E.
    + apply Nat.ltb_lt in E.
      destruct (IH (i + step)%nat) as [Hc Hall]; [lia |].
      rewrite fmap_cons. simpl. rewrite Hc. split.
      * rewrite <- (drop_drop rows step i). apply take_drop.
      * constructor; [| done]. split.
        -- intros Hnil. apply (f_equal length) in Hnil.
           rewrite length_take, length_drop in Hnil. simpl in Hnil. lia.
        -- rewrite length_take. lia.
    + apply Nat.ltb_ge in E. simpl. rewrite drop_ge by lia.
      split; [done | constructor].
Qed.

Variable Target : Type.
Variable _upsert_batch : string → list Dict → Target → PyResult unit * Target.

(** X28.  The MySQL writer writes every row once: whatever batch size
    is configured for the target, none and 0 included but no negative
    one, the batches that [batch_upsert] hands to [_upsert_batch], one
    after the other, are the rows in their order, each batch with at
    least one row and at most [batch_size] rows; a batch that fails
    ends the call with its exception, the batches before it having been
    written; and a writer that is not connected raises [RuntimeError]
    without writing. *)
Theorem mysql_writer_writes_each_row_once (configured : option Z)
    (table : string) (rows : list Dict) (w : Target) :
  (∀ n, configured = Some n → 0 <= n) →
  let batch_size := writer_batch_size configured in
  ∃ batches,
    mysql_batches batch_size rows = Ok batches
    ∧ concat batches = rows
    ∧ Forall (λ b, b ≠ [] ∧ Z.of_nat (length b) <= batch_size) batches
    ∧ mysql_batch_upsert Target _upsert_batch true batch_size table rows w
      = upsert_batches Target _upsert_batch table batches w
    ∧ (∀ done batch rest w1 e w2,
         batches = done ++ batch :: rest →
         upsert_batches Target _upsert_batch table done w = (Ok (), w1) →
         _upsert_batch table batch w1 = (Raise e, w2) →
         mysql_batch_upsert Target _upsert_batch true batch_size table rows w
         = (Raise e, w2))
    ∧ mysql_batch_upsert Target _upsert_batch false batch_size table rows w
      = (Raise RuntimeError, w).
Proof.
  intros Hcfg batch_size.
  assert (Hbs : 1 <= batch_size).
  { subst batch_size. destruct configured as [n |]; [| simpl; lia].
    specialize (Hcfg n eq_refl). destruct n; simpl; lia. }
  clearbody batch_size. unfold mysql_batches.
  destruct (batch_size =? 0) eqn:E0; [apply Z.eqb_eq in E0; lia |].
  destruct (batch_size <? 0) eqn:E1; [apply Z.ltb_lt in E1; lia |].
  eexists. split; [reflexivity |].
  destruct (range_from_batches (Z.to_nat batch_size) rows ltac:(lia)
              (length rows) 0%nat ltac:(lia)) as [Hc Hall].
  set (batches := (λ i, take (Z.to_nat batch_size) (drop i rows))
                    <$> range_from (length rows) 0 (length rows)
                          (Z.to_nat batch_size)) in *.
  assert (Hrun : mysql_batch_upsert Target _upsert_batch true batch_size table
                   rows w
                 = upsert_batches Target _upsert_batch table batches w).
  { unfold mysql_batch_upsert, mysql_batches. rewrite E0, E1. simpl.
    destruct rows as [| row rows']; [| done].
    subst batches. done. }
  split; [done |]. split.
  { eapply Forall_impl; [exact Hall |]. simpl. intros b [H1 H2].
    split; [done | lia]. }
  split; [done |]. split; [| done].
  intros done batch rest w1 e w2 Hsplit Hdone Hfail. rewrite Hrun, Hsplit.
  clear -Hdone Hfail. revert w Hdone.
  induction done as [| b done IH]; intros w Hdone.
  - simpl in *. injection Hdone as <-. by rewrite Hfail.
  - simpl in *. destruct (_upsert_batch table b w) as [[[] | e'] w'];
      [by apply IH | done].
Qed.

End WriterMore.

Lemma mysql_writer_writes_each_row_once_witness :
  ∃ batches,
    mysql_batches 2 (users_dict <$> users_five) = Ok batches
    ∧ concat batches = users_dict <$> users_five
    ∧ Forall (λ b, b ≠ [] ∧ Z.of_nat (length b) <= 2) batches
    ∧ mysql_batch_upsert _ upsert_batch_recorded true 2 "users"
        (users_dict <$> users_five) []
      = upsert_batches _ upsert_batch_recorded "users" batches []
    ∧ (∀ done batch rest w1 e w2,
         batches = done ++ batch :: rest →
         upsert_batches _ upsert_batch_recorded "users" done [] = (Ok (), w1) →
         upsert_batch_recorded "users" batch w1 = (Raise e, w2) →
         mysql_batch_upsert _ upsert_batch_recorded true 2 "users"
           (users_dict <$> users_five) []
         = (Raise e, w2))
    ∧ mysql_batch_upsert _ upsert_batch_recorded false 2 "users"
        (users_dict <$> users_five) []
      = (Raise RuntimeError, []).
Proof.
  apply (mysql_writer_writes_each_row_once _ upsert_batch_recorded (Some 2)
           "users" (users_dict <$> users_five) []).
  intros n Hn. injection Hn as <-. lia.
Defined.

(** Five rows in batches of two. *)
Example mysql_batches_of_two :
  (mysql_batch_upsert _ upsert_batch_recorded true 2 "users"
     (users_dict <$> users_five) []).2
  = [ ("users", users_dict <$> [(1, "a"); (2, "b")]);
      ("users", users_dict <$> [(3, "c"); (4, "d")]);
      ("users", users_dict <$> [(5, "e")]) ].
Proof. vm_compute. reflexivity. Qed.

